(** * Solidity compile tasks of hardhat-core: a shallow embedding

    The development follows [builtin-tasks/compile.ts]: the sub-tasks that
    filter, order, compile and emit compilation jobs, the acquisition of a
    compiler build, and the upkeep of the solidity files cache.

    Asynchronous sub-tasks are functions in a small monad [M] that threads
    the list of observable events (sub-task calls that reach the outside
    world: the downloader, the compiler processes, the artifact store, the
    console) and ends in a value, a thrown error, or a promise that never
    settles. *)

From Stdlib Require Import ZArith NArith List Lia Bool.
From Stdlib Require Import Strings.String Strings.Ascii.
From Stdlib Require Import Sorting.Sorted Sorting.Permutation.
From stdpp Require Import base option list strings gmap.

Local Open Scope string_scope.
Local Open Scope list_scope.

(* ===================================================================== *)
(** ** The [semver] package: parsed versions and their comparison *)
(* ===================================================================== *)

Module Semver.

(** A prerelease identifier, as the regular expression of the parser
    splits them: a string of digits (without leading zeros, so the
    number it writes stands for it) or another string.  The parser turns
    the strings of digits below [MAX_SAFE_INTEGER] into numbers and
    leaves the longer ones strings; [===] then tells two identifiers
    apart exactly when they differ as written. *)
Inductive Identifier : Type :=
| Numeric (n : N)
| Alphanumeric (s : string).

#[global] Instance Identifier_eq_dec : EqDecision Identifier.
Proof. solve_decision. Defined.

(** The fields of a [SemVer] object.  Version strings are kept in their
    parsed form; [build] is carried along and never compared. *)
Record SemVer : Type := mkSemVer {
  major : N;
  minor : N;
  patch : N;
  prerelease : list Identifier;
  build : list string
}.

#[global] Instance SemVer_eq_dec : EqDecision SemVer.
Proof. solve_decision. Defined.

Definition release (a b c : N) : SemVer := mkSemVer a b c [] [].

(** The number that [+a] makes of a string of digits: the nearest
    double, ties to the even one.  Up to [2^53] that is the number
    written; [2^1024] stands for [Infinity]. *)
Definition toDouble (n : N) : N :=
  if (n <? 2 ^ 53)%N then n
  else
    let e := (N.log2 n - 52)%N in
    let q := N.shiftr n e in
    let r := N.land n (N.ones e) in
    let half := N.shiftl 1 (e - 1) in
    let q' := if (half <? r)%N || ((r =? half)%N && N.odd q) then (q + 1)%N else q in
    N.min (N.shiftl q' e) (2 ^ 1024).

(** [compareIdentifiers]: two strings of digits as the numbers [+a] and
    [+b], a string of digits before any other string, other strings by
    code unit. *)
Definition compareIdentifiers (a b : Identifier) : comparison :=
  match a, b with
  | Numeric x, Numeric y => N.compare (toDouble x) (toDouble y)
  | Numeric _, Alphanumeric _ => Lt
  | Alphanumeric _, Numeric _ => Gt
  | Alphanumeric s, Alphanumeric t => String.compare s t
  end.

(** The [do ... while (++i)] loop of [comparePre]: identifiers that are
    [===] are passed over; the first pair that is not decides, by
    [compareIdentifiers], also when that returns 0; a list that ends
    first is smaller. *)
Fixpoint comparePreLoop (p q : list Identifier) : comparison :=
  match p, q with
  | [], [] => Eq
  | _ :: _, [] => Gt
  | [], _ :: _ => Lt
  | a :: p', b :: q' =>
      if bool_decide (a = b) then comparePreLoop p' q'
      else compareIdentifiers a b
  end.

(** [comparePre]: not having a prerelease is greater than having one. *)
Definition comparePre (v w : SemVer) : comparison :=
  match prerelease v, prerelease w with
  | _ :: _, [] => Lt
  | [], _ :: _ => Gt
  | [], [] => Eq
  | p, q => comparePreLoop p q
  end.

(** [compareMain]: major, then minor, then patch. *)
Definition compareMain (v w : SemVer) : comparison :=
  match N.compare (major v) (major w) with
  | Eq =>
      match N.compare (minor v) (minor w) with
      | Eq => N.compare (patch v) (patch w)
      | c => c
      end
  | c => c
  end.

Definition compareVersions (v w : SemVer) : comparison :=
  match compareMain v w with
  | Eq => comparePre v w
  | c => c
  end.

Definition toNumber (c : comparison) : Z :=
  match c with Lt => (-1)%Z | Eq => 0%Z | Gt => 1%Z end.

(** [semver.compare(a, b)]: -1, 0 or 1. *)
Definition compare (v w : SemVer) : Z := toNumber (compareVersions v w).

(** [semver.lt(a, b)] is [compare(a, b) < 0]. *)
Definition lt (v w : SemVer) : bool := (compare v w <? 0)%Z.

(** [semver.lte(a, b)] is [compare(a, b) <= 0]. *)
Definition lte (v w : SemVer) : bool := (compare v w <=? 0)%Z.



End Semver.

(** Precedence of versions as Semantic Versioning defines it: as
    [semver] compares, but with numeric identifiers compared as the
    numbers they are. *)
Module Precedence.
Import Semver.

Definition compareIdentifiers (a b : Identifier) : comparison :=
  match a, b with
  | Numeric x, Numeric y => N.compare x y
  | Numeric _, Alphanumeric _ => Lt
  | Alphanumeric _, Numeric _ => Gt
  | Alphanumeric s, Alphanumeric t => String.compare s t
  end.

(** The first pair of identifiers that differ decides; a list that ends
    first is smaller. *)
Fixpoint comparePreLoop (p q : list Identifier) : comparison :=
  match p, q with
  | [], [] => Eq
  | _ :: _, [] => Gt
  | [], _ :: _ => Lt
  | a :: p', b :: q' =>
      match compareIdentifiers a b with
      | Eq => comparePreLoop p' q'
      | c => c
      end
  end.

Definition comparePre (v w : SemVer) : comparison :=
  match prerelease v, prerelease w with
  | _ :: _, [] => Lt
  | [], _ :: _ => Gt
  | [], [] => Eq
  | p, q => comparePreLoop p q
  end.

Definition compareVersions (v w : SemVer) : comparison :=
  match compareMain v w with
  | Eq => comparePre v w
  | c => c
  end.

Definition compare (v w : SemVer) : Z := toNumber (compareVersions v w).

(** The first version precedes the second or has the same precedence. *)
Definition lte (v w : SemVer) : bool := (compare v w <=? 0)%Z.

End Precedence.

Export Semver(SemVer).

(* ===================================================================== *)
(** ** Data model *)
(* ===================================================================== *)

(** [SolcConfig]: the compiler version and the settings object forwarded
    to the compiler (kept serialized). *)
Record SolcConfig : Type := mkSolcConfig {
  version : SemVer;
  settings : string
}.

#[global] Instance SolcConfig_eq_dec : EqDecision SolcConfig.
Proof. solve_decision. Defined.

Record FileContent : Type := mkFileContent {
  rawContent : string;
  imports : list string;
  versionPragmas : list string
}.

Record ResolvedFile : Type := mkResolvedFile {
  sourceName : string;
  absolutePath : string;
  contentHash : string;
  lastModificationDate : Z;
  content : FileContent
}.

(** Modelled from the spec: the [CompilationJob] interface of
    [types/builtin-tasks], declared outside [compile.ts]: a compiler
    config, the resolved files that form the job's input, and a predicate
    marking the files whose artifacts must be written (§3).  The fields
    are the methods that [compile.ts] calls: [getSolcConfig()],
    [getResolvedFiles()] and [emitsArtifacts(file)]. *)
Record CompilationJob : Type := mkCompilationJob {
  getSolcConfig : SolcConfig;
  getResolvedFiles : list ResolvedFile;
  emitsArtifacts : ResolvedFile -> bool
}.

Inductive CompilationJobCreationErrorReason : Type :=
| NO_COMPATIBLE_SOLC_VERSION_FOUND
| INCOMPATIBLE_OVERRIDEN_SOLC_VERSION
| DIRECTLY_IMPORTS_INCOMPATIBLE_FILE
| INDIRECTLY_IMPORTS_INCOMPATIBLE_FILE
| OTHER_ERROR.

Record CompilationJobCreationError : Type := mkCreationError {
  reason : CompilationJobCreationErrorReason;
  file : ResolvedFile
}.

Record CompilationJobsCreationResult : Type := mkCreationResult {
  jobs : list CompilationJob;
  errors : list CompilationJobCreationError
}.

(** The platforms of the downloader; [compile.ts] only tells [WASM] from
    the native ones. *)
Inductive CompilerPlatform : Type := LINUX | WINDOWS | MACOS | WASM.

#[global] Instance CompilerPlatform_eq_dec : EqDecision CompilerPlatform.
Proof. solve_decision. Defined.

Record CompilerPathResult : Type := mkCompilerPathResult {
  resultCompilerPath : string;
  resultPlatform : CompilerPlatform
}.

Record SolcBuild : Type := mkSolcBuild {
  compilerPath : string;
  isSolcJs : bool;
  buildVersion : SemVer;
  longVersion : string
}.

(** Modelled from the spec: the compiler input built by
    [getInputFromCompilationJob] of [internal/solidity/compiler/compiler-input],
    which is not part of [compile.ts]: language [Solidity], a [sources]
    map from source name to content, and the settings of the job's config
    (§4.7). *)
Record CompilerInput : Type := mkCompilerInput {
  language : string;
  sources : list (string * string);
  inputSettings : string
}.

Definition getInputFromCompilationJob (job : CompilationJob) : CompilerInput :=
  {| language := "Solidity";
     sources := map (fun f => (sourceName f, rawContent (content f)))
                    (getResolvedFiles job);
     inputSettings := settings (getSolcConfig job) |}.

(** One entry of the [errors] array of the compiler output.  [message] is
    only used after a [typeof message === "string"] test. *)
Record Diagnostic : Type := mkDiagnostic {
  severity : string;
  type : string;
  message : option string;
  formattedMessage : string
}.

(** The compiler's standard-JSON output: [errors] may be absent, and so
    may [contracts]; the contracts of a source keep their order
    ([Object.entries]). *)
Record CompilerOutput : Type := mkCompilerOutput {
  outputErrors : option (list Diagnostic);
  contracts : option (gmap string (list (string * string)))
}.

(** What [getArtifactFromContractOutput] builds an artifact from. *)
Record Artifact : Type := mkArtifact {
  artifactSourceName : string;
  artifactContractName : string;
  artifactContractOutput : string
}.

Definition getArtifactFromContractOutput
    (sourceName contractName contractOutput : string) : Artifact :=
  mkArtifact sourceName contractName contractOutput.

(** [getFullyQualifiedName] of [utils/contract-names]. *)
Definition getFullyQualifiedName (sourceName contractName : string) : string :=
  (sourceName ++ ":" ++ contractName)%string.

(* ===================================================================== *)
(** ** The solidity files cache *)
(* ===================================================================== *)

Record CacheEntry : Type := mkCacheEntry {
  entryLastModificationDate : Z;
  entryContentHash : string;
  entrySourceName : string;
  entrySolcConfig : SolcConfig;
  entryImports : list string;
  entryVersionPragmas : list string;
  artifacts : list string
}.

Module SolidityFilesCache.

(** Modelled from the spec: the class [SolidityFilesCache] of
    [utils/solidity-files-cache], which is not part of [compile.ts].  Its
    records are keyed by absolute path (§4.5). *)
Abbreviation t := (gmap string CacheEntry).

(** Modelled from the spec: [getEntry] looks up the record of a path,
    [undefined] when there is none. *)
Definition getEntry (cache : t) (file : string) : option CacheEntry :=
  cache !! file.

(** Modelled from the spec: [addFile] writes the record of a path. *)
Definition addFile (cache : t) (absolutePath : string) (entry : CacheEntry) : t :=
  <[absolutePath := entry]> cache.

(** Modelled from the spec: [removeEntry] drops the record of a path. *)
Definition removeEntry (cache : t) (file : string) : t :=
  delete file cache.

(** Modelled from the spec: [getEntries] lists the records. *)
Definition getEntries (cache : t) : list CacheEntry :=
  (map_to_list cache).*2.

(** Modelled from the spec: [hasFileChanged] is true when no entry exists
    for the path, when the stored content hash differs, or when a solc
    config is provided and differs from the stored one (§4.5). *)
Definition hasFileChanged (cache : t) (absolutePath contentHash : string)
    (solcConfig : option SolcConfig) : bool :=
  match getEntry cache absolutePath with
  | None => true
  | Some cacheEntry =>
      if negb (bool_decide (entryContentHash cacheEntry = contentHash)) then true
      else
        match solcConfig with
        | Some cfg =>
            negb (bool_decide (cfg = entrySolcConfig cacheEntry))
        | None => false
        end
  end.

End SolidityFilesCache.

(* ===================================================================== *)
(** ** Errors, events and the task monad *)
(* ===================================================================== *)

Inductive HardhatError : Type :=
| CANT_GET_COMPILER (version : SemVer)
| COMPILE_TASK_UNSUPPORTED_SOLC_VERSION (version firstSupportedVersion : SemVer)
| COMPILE_FAILURE
| COMPILATION_JOBS_CREATION_FAILURE (errors : list CompilationJobCreationError)
| INVARIANT_VIOLATED (msg : string) (* thrown by [assertHardhatInvariant] *)
| TYPE_ERROR.

(** Lines written to the console; the text of a diagnostic is not
    formatted, the line carries the diagnostic. *)
Inductive ConsoleLine : Type :=
| NothingToCompile
| DownloadingCompiler (solcVersion : SemVer)
| CompilingFiles (count : nat) (solcVersion : SemVer)
| RedDiagnostic (d : Diagnostic)
| YellowDiagnostic (d : Diagnostic)
| ConsoleLogNotSupported
| BlankLine
| CompilationFinished.

(** What a run does that is visible from outside, in order: the sub-tasks
    it enters, the calls to the downloader, to child processes and to the
    artifact store, and the console.  [debug] logging is left out. *)
Inductive Event : Type :=
| RunCompileJob (job : CompilationJob) (index : nat)
| RunGetSolcBuild (solcVersion : SemVer)
| RunSolc (solcPath : string) (input : CompilerInput)
| RunSolcJs (solcJsPath : string) (input : CompilerInput)
| DownloaderGetCompilerPath (forceSolcJs : bool) (solcVersion : SemVer)
| Exec (command : string)
| SaveBuildInfo (solcVersion : SemVer) (longVersion : string)
    (input : CompilerInput) (output : CompilerOutput)
| SaveArtifactAndDebugFile (artifact : Artifact) (pathToBuildInfo : string)
| RemoveObsoleteArtifacts (entries : list CacheEntry)
| RemoveObsoleteBuildInfos
| WriteCacheToFile (cache : gmap string CacheEntry)
| Console (line : ConsoleLine).

(** How an awaited promise ends. *)
Inductive Outcome (A : Type) : Type :=
| Done (a : A)
| Thrown (e : HardhatError)
| Pending.

Arguments Done {A} a.
Arguments Thrown {A} e.
Arguments Pending {A}.

(** A task: the events it produced and how it ended. *)
Definition M (A : Type) : Type := list Event * Outcome A.

Definition ret {A} (a : A) : M A := ([], Done a).

Definition throw {A} (e : HardhatError) : M A := ([], Thrown e).

Definition never {A} : M A := ([], Pending).

Definition emit (e : Event) : M unit := ([e], Done tt).

Definition bind {A B} (m : M A) (k : A -> M B) : M B :=
  match m with
  | (tr, Done a) => let '(tr', r) := k a in (tr ++ tr', r)
  | (tr, Thrown e) => (tr, Thrown e)
  | (tr, Pending) => (tr, Pending)
  end.

Notation "'let*' x := m 'in' k" := (bind m (fun x => k))
  (at level 10, x pattern, m at level 100, k at level 200).
Notation "m ;; k" := (bind m (fun _ => k))
  (at level 100, k at level 200, right associativity).

Definition trace {A} (m : M A) : list Event := fst m.
Definition outcome {A} (m : M A) : Outcome A := snd m.

(* ===================================================================== *)
(** ** The collaborators of the compile tasks *)
(* ===================================================================== *)

(** How a child process started by [exec] ends: it exits with a code
    ([None] for the [null] code of a process ended by a signal) some
    milliseconds after it was started, or it never exits. *)
Inductive ProcessRun : Type :=
| Exits (code : option Z) (elapsedMs : N)
| NeverExits.

(** The answers of the world outside the tasks during one run: the
    compiler downloader (the default one and the one built with
    [forceSolcJs]), child processes, the two compilers, the artifact
    store, and the parts of the build pipeline that live in other
    modules (dependency graph, job creation, job merging).  These
    collaborators answer; errors of their own are not modelled. *)
Record Env : Type := mkEnv {
  isCompilerDownloaded : SemVer -> bool;
  getCompilerBuild : SemVer -> string * CompilerPlatform;
  getDownloadedCompilerPath : bool -> SemVer -> option CompilerPathResult;
  execProcess : string -> ProcessRun;
  nativeCompile : string -> CompilerInput -> CompilerOutput;
  solcjsCompile : string -> CompilerInput -> CompilerOutput;
  saveBuildInfo : SemVer -> string -> CompilerInput -> CompilerOutput -> string;
  artifactExists : string -> bool;
  resolvedFilesOfGraph : list ResolvedFile;
  createCompilationJobs :
    gmap string CacheEntry -> CompilationJobsCreationResult;
  mergeCompilationJobsWithoutBug : list CompilationJob -> list CompilationJob
}.

(* ===================================================================== *)
(** ** Helpers at the end of [compile.ts] *)
(* ===================================================================== *)

Definition COMPILE_TASK_FIRST_SOLC_VERSION_SUPPORTED : SemVer :=
  Semver.release 0 4 11.

(** [String.prototype.includes]. *)
Fixpoint includes (s sub : string) : bool :=
  if String.prefix sub s then true
  else match s with
       | EmptyString => false
       | String _ s' => includes s' sub
       end.

Definition isConsoleLogError (error : Diagnostic) : bool :=
  bool_decide (type error = "TypeError") &&
  match message error with
  | Some m => includes m "log" && includes m "type(library console)"
  | None => false
  end.

(** [hasCompilationErrors]: [output.errors && output.errors.some(...)]. *)
Definition hasCompilationErrors (output : CompilerOutput) : bool :=
  match outputErrors output with
  | None => false
  | Some errs => existsb (fun x => bool_decide (severity x = "error")) errs
  end.

(** The command line of the probe: [`${solcPath} --version`]. *)
Definition versionCommand (solcPath : string) : string :=
  (solcPath ++ " --version")%string.

(** [checkSolcBinary]: the promise resolves when the process emits [exit],
    with [code === 0]; [exec] is given no options, so no timeout. *)
Definition checkSolcBinary (env : Env) (solcPath : string) : M bool :=
  let command := versionCommand solcPath in
  emit (Exec command) ;;
  match execProcess env command with
  | Exits code _ => ret (bool_decide (code = Some 0%Z))
  | NeverExits => never
  end.

(** The calls that [needsCompilation] makes to [cache.hasFileChanged]:
    path, content hash and the optional solc config. *)
Definition CacheQuery : Type := string * string * option SolcConfig.

Section NeedsCompilation.

(** [cache.hasFileChanged], the method of the cache object at hand. *)
Variable hasFileChanged : string -> string -> option SolcConfig -> bool.

(** The loop of [needsCompilation] over the remaining files, together
    with the queries it made, in order. *)
Fixpoint needsCompilationLoop (job : CompilationJob)
    (files : list ResolvedFile) : list CacheQuery * bool :=
  match files with
  | [] => ([], false)
  | file :: rest =>
      let solcConfig :=
        if emitsArtifacts job file then Some (getSolcConfig job) else None in
      let hasChanged :=
        hasFileChanged (absolutePath file) (contentHash file) solcConfig in
      let query := (absolutePath file, contentHash file, solcConfig) in
      if hasChanged then ([query], true)
      else
        let '(queries, r) := needsCompilationLoop job rest in
        (query :: queries, r)
  end.

End NeedsCompilation.

Definition needsCompilationQueries (job : CompilationJob)
    (cache : gmap string CacheEntry) : list CacheQuery :=
  fst (needsCompilationLoop (SolidityFilesCache.hasFileChanged cache)
         job (getResolvedFiles job)).

Definition needsCompilation (job : CompilationJob)
    (cache : gmap string CacheEntry) : bool :=
  snd (needsCompilationLoop (SolidityFilesCache.hasFileChanged cache)
         job (getResolvedFiles job)).

(** The inner loop of [invalidateCacheMissingArtifacts] over the artifacts
    recorded for one file: [true] when it reached the [removeEntry]. *)
Fixpoint someArtifactMissing (env : Env) (sourceName : string)
    (emittedArtifacts : list string) : bool :=
  match emittedArtifacts with
  | [] => false
  | emittedArtifact :: rest =>
      if negb (artifactExists env (getFullyQualifiedName sourceName emittedArtifact))
      then true
      else someArtifactMissing env sourceName rest
  end.

Fixpoint invalidateCacheMissingArtifacts (env : Env)
    (solidityFilesCache : gmap string CacheEntry)
    (resolvedFiles : list ResolvedFile) : gmap string CacheEntry :=
  match resolvedFiles with
  | [] => solidityFilesCache
  | file :: rest =>
      match SolidityFilesCache.getEntry solidityFilesCache (absolutePath file) with
      | None => invalidateCacheMissingArtifacts env solidityFilesCache rest
      | Some cacheEntry =>
          if someArtifactMissing env (sourceName file) (artifacts cacheEntry)
          then invalidateCacheMissingArtifacts env
                 (SolidityFilesCache.removeEntry solidityFilesCache (absolutePath file))
                 rest
          else invalidateCacheMissingArtifacts env solidityFilesCache rest
      end
  end.

(* ===================================================================== *)
(** ** [Array.prototype.sort] with a comparator *)
(* ===================================================================== *)

Section ArraySort.

Context {A : Type}.

(** The comparator: negative, zero or positive. *)
Variable compareFn : A -> A -> Z.

Fixpoint insertSorted (x : A) (l : list A) : list A :=
  match l with
  | [] => [x]
  | y :: l' =>
      if (compareFn x y <=? 0)%Z then x :: y :: l'
      else y :: insertSorted x l'
  end.

(** [array.slice().sort(compareFn)].  The language fixes no algorithm
    but asks for a stable sort: of two elements that compare equal, the
    one that came first stays first.  Insertion from the right is such a
    sort, and for a comparator that orders the elements every stable sort
    returns the same array. *)
Definition arraySort (l : list A) : list A := foldr insertSorted [] l.

End ArraySort.

(* ===================================================================== *)
(** ** The sub-tasks *)
(* ===================================================================== *)

Definition ArtifactsEmittedPerFile : Type := list (ResolvedFile * list string).

Definition ArtifactsEmittedPerJob : Type :=
  list (CompilationJob * ArtifactsEmittedPerFile).

Definition TASK_COMPILE_SOLIDITY_FILTER_COMPILATION_JOBS
    (compilationJobs : list CompilationJob) (force : bool)
    (solidityFilesCache : option (gmap string CacheEntry))
    : M (list CompilationJob) :=
  match solidityFilesCache with
  | None =>
      throw (INVARIANT_VIOLATED
        "The implementation of this task needs a defined solidityFilesCache")
  | Some cache =>
      if force then ret compilationJobs
      else
        let neededCompilationJobs :=
          List.filter (fun job => needsCompilation job cache) compilationJobs in
        ret neededCompilationJobs
  end.

Definition TASK_COMPILE_SOLIDITY_LOG_NOTHING_TO_COMPILE (quiet : bool) : M unit :=
  if negb quiet then emit (Console NothingToCompile) else ret tt.

Definition TASK_COMPILE_SOLIDITY_LOG_DOWNLOAD_COMPILER_START
    (isCompilerDownloaded quiet : bool) (solcVersion : SemVer) : M unit :=
  if isCompilerDownloaded then ret tt
  else emit (Console (DownloadingCompiler solcVersion)).

Definition TASK_COMPILE_SOLIDITY_LOG_DOWNLOAD_COMPILER_END
    (isCompilerDownloaded quiet : bool) (solcVersion : SemVer) : M unit :=
  ret tt.

Definition TASK_COMPILE_SOLIDITY_GET_SOLC_BUILD (env : Env)
    (quiet : bool) (solcVersion : SemVer) : M SolcBuild :=
  emit (RunGetSolcBuild solcVersion) ;;
  let isDownloaded := isCompilerDownloaded env solcVersion in
  let '(longVersion, desiredPlatform) := getCompilerBuild env solcVersion in
  TASK_COMPILE_SOLIDITY_LOG_DOWNLOAD_COMPILER_START isDownloaded quiet solcVersion ;;
  emit (DownloaderGetCompilerPath false solcVersion) ;;
  let compilerPathResult := getDownloadedCompilerPath env false solcVersion in
  (* compilerPath, platform, nativeBinaryFailed *)
  let* (compilerPath, platform, nativeBinaryFailed) :=
    match compilerPathResult with
    | None =>
        if bool_decide (desiredPlatform = WASM)
        then throw (CANT_GET_COMPILER solcVersion)
        else ret (None, None, true)
    | Some result =>
        if negb (bool_decide (resultPlatform result = WASM)) then
          let* solcBinaryWorks := checkSolcBinary env (resultCompilerPath result) in
          if negb solcBinaryWorks
          then ret (Some (resultCompilerPath result), None, true)
          else ret (Some (resultCompilerPath result), None, false)
        else ret (Some (resultCompilerPath result), None, false)
    end in
  let* (compilerPath, platform) :=
    if (nativeBinaryFailed : bool) then
      emit (DownloaderGetCompilerPath true solcVersion) ;;
      match getDownloadedCompilerPath env true solcVersion with
      | None => throw (CANT_GET_COMPILER solcVersion)
      | Some solcjsCompilerPath =>
          ret (Some (resultCompilerPath solcjsCompilerPath), Some WASM)
      end
    else ret (compilerPath, platform) in
  TASK_COMPILE_SOLIDITY_LOG_DOWNLOAD_COMPILER_END isDownloaded quiet solcVersion ;;
  let isSolcJs := bool_decide (platform = Some WASM) in
  match compilerPath : option string with
  | None => throw (INVARIANT_VIOLATED "A compilerPath should be defined at this point")
  | Some compilerPath =>
      ret {| compilerPath := compilerPath; isSolcJs := isSolcJs;
             buildVersion := solcVersion; longVersion := longVersion |}
  end.

Definition TASK_COMPILE_SOLIDITY_RUN_SOLCJS (env : Env)
    (input : CompilerInput) (solcJsPath : string) : M CompilerOutput :=
  emit (RunSolcJs solcJsPath input) ;;
  ret (solcjsCompile env solcJsPath input).

Definition TASK_COMPILE_SOLIDITY_RUN_SOLC (env : Env)
    (input : CompilerInput) (solcPath : string) : M CompilerOutput :=
  emit (RunSolc solcPath input) ;;
  ret (nativeCompile env solcPath input).

(** The counting loop of [LOG_RUN_COMPILER_START], from the job's index
    on: it stops at the first job with another version. *)
Fixpoint countEmittingFiles (solcVersion : SemVer)
    (compilationJobs : list CompilationJob) : nat :=
  match compilationJobs with
  | [] => 0
  | job :: rest =>
      if negb (bool_decide (version (getSolcConfig job) = solcVersion)) then 0
      else
        length (List.filter (emitsArtifacts job) (getResolvedFiles job))
        + countEmittingFiles solcVersion rest
  end.

Definition TASK_COMPILE_SOLIDITY_LOG_RUN_COMPILER_START
    (compilationJob : CompilationJob) (compilationJobs : list CompilationJob)
    (compilationJobIndex : nat) (quiet : bool) : M unit :=
  match compilationJobs !! compilationJobIndex with
  | None => throw TYPE_ERROR
  | Some current =>
      let solcVersion := version (getSolcConfig current) in
      let* shouldLog :=
        match compilationJobIndex with
        | O => ret true
        | S previousIndex =>
            match compilationJobs !! previousIndex with
            | None => throw TYPE_ERROR
            | Some previous =>
                ret (negb (bool_decide
                             (version (getSolcConfig previous) = solcVersion)))
            end
        end in
      if negb (shouldLog : bool) then ret tt
      else
        let count :=
          countEmittingFiles solcVersion (drop compilationJobIndex compilationJobs) in
        emit (Console (CompilingFiles count solcVersion))
  end.

Definition TASK_COMPILE_SOLIDITY_LOG_RUN_COMPILER_END
    (compilationJob : CompilationJob) (compilationJobs : list CompilationJob)
    (compilationJobIndex : nat) (output : CompilerOutput) (quiet : bool) : M unit :=
  ret tt.

Definition TASK_COMPILE_SOLIDITY_COMPILE_SOLC (env : Env)
    (input : CompilerInput) (quiet : bool) (solcVersion : SemVer)
    (compilationJob : CompilationJob) (compilationJobs : list CompilationJob)
    (compilationJobIndex : nat) : M (CompilerOutput * SolcBuild) :=
  (* versions older than 0.4.11 don't work with hardhat *)
  if Semver.lt solcVersion COMPILE_TASK_FIRST_SOLC_VERSION_SUPPORTED then
    throw (COMPILE_TASK_UNSUPPORTED_SOLC_VERSION solcVersion
             COMPILE_TASK_FIRST_SOLC_VERSION_SUPPORTED)
  else
    let* solcBuild := TASK_COMPILE_SOLIDITY_GET_SOLC_BUILD env quiet solcVersion in
    TASK_COMPILE_SOLIDITY_LOG_RUN_COMPILER_START
      compilationJob compilationJobs compilationJobIndex quiet ;;
    let* output :=
      if isSolcJs solcBuild
      then TASK_COMPILE_SOLIDITY_RUN_SOLCJS env input (compilerPath solcBuild)
      else TASK_COMPILE_SOLIDITY_RUN_SOLC env input (compilerPath solcBuild) in
    TASK_COMPILE_SOLIDITY_LOG_RUN_COMPILER_END
      compilationJob compilationJobs compilationJobIndex output quiet ;;
    ret (output, solcBuild).

(** A proxy to the task that compiles with solc. *)
Definition TASK_COMPILE_SOLIDITY_COMPILE := TASK_COMPILE_SOLIDITY_COMPILE_SOLC.

Definition logDiagnostic (error : Diagnostic) : Event :=
  if bool_decide (severity error = "error")
  then Console (RedDiagnostic error)
  else Console (YellowDiagnostic error).

Definition TASK_COMPILE_SOLIDITY_LOG_COMPILATION_ERRORS
    (output : CompilerOutput) (quiet : bool) : M unit :=
  match outputErrors output with
  | None => ret tt
  | Some errs =>
      (map logDiagnostic errs, Done tt) ;;
      let hasConsoleErrors := existsb isConsoleLogError errs in
      if hasConsoleErrors
      then emit (Console ConsoleLogNotSupported) ;; emit (Console BlankLine)
      else ret tt
  end.

Definition TASK_COMPILE_SOLIDITY_CHECK_ERRORS
    (output : CompilerOutput) (quiet : bool) : M unit :=
  TASK_COMPILE_SOLIDITY_LOG_COMPILATION_ERRORS output quiet ;;
  if hasCompilationErrors output then throw COMPILE_FAILURE else ret tt.

Definition TASK_COMPILE_SOLIDITY_GET_ARTIFACT_FROM_COMPILATION_OUTPUT
    (sourceName contractName contractOutput : string) : M Artifact :=
  ret (getArtifactFromContractOutput sourceName contractName contractOutput).

(** [Object.entries(output.contracts?.[sourceName] ?? {})]. *)
Definition contractEntries (output : CompilerOutput) (sourceName : string)
    : list (string * string) :=
  match contracts output with
  | None => []
  | Some cs => default [] (cs !! sourceName)
  end.

(** The loop of [EMIT_ARTIFACTS] over the contracts of one file. *)
Fixpoint emitContracts (sourceName pathToBuildInfo : string)
    (entries : list (string * string)) : M (list string) :=
  match entries with
  | [] => ret []
  | (contractName, contractOutput) :: rest =>
      let* artifact :=
        TASK_COMPILE_SOLIDITY_GET_ARTIFACT_FROM_COMPILATION_OUTPUT
          sourceName contractName contractOutput in
      emit (SaveArtifactAndDebugFile artifact pathToBuildInfo) ;;
      let* artifactsEmitted := emitContracts sourceName pathToBuildInfo rest in
      ret (artifactContractName artifact :: artifactsEmitted)
  end.

(** The loop of [EMIT_ARTIFACTS] over the resolved files of the job. *)
Fixpoint emitFiles (compilationJob : CompilationJob) (output : CompilerOutput)
    (pathToBuildInfo : string) (files : list ResolvedFile)
    : M ArtifactsEmittedPerFile :=
  match files with
  | [] => ret []
  | file :: rest =>
      if negb (emitsArtifacts compilationJob file)
      then emitFiles compilationJob output pathToBuildInfo rest
      else
        let* artifactsEmitted :=
          emitContracts (sourceName file) pathToBuildInfo
            (contractEntries output (sourceName file)) in
        let* more := emitFiles compilationJob output pathToBuildInfo rest in
        ret ((file, artifactsEmitted) :: more)
  end.

Definition TASK_COMPILE_SOLIDITY_EMIT_ARTIFACTS (env : Env)
    (compilationJob : CompilationJob) (input : CompilerInput)
    (output : CompilerOutput) (solcBuild : SolcBuild)
    : M ArtifactsEmittedPerFile :=
  let solcVersion := version (getSolcConfig compilationJob) in
  emit (SaveBuildInfo solcVersion (longVersion solcBuild) input output) ;;
  let pathToBuildInfo :=
    saveBuildInfo env solcVersion (longVersion solcBuild) input output in
  emitFiles compilationJob output pathToBuildInfo (getResolvedFiles compilationJob).

Record CompileJobResult : Type := mkCompileJobResult {
  artifactsEmittedPerFile : ArtifactsEmittedPerFile;
  resultCompilationJob : CompilationJob;
  resultInput : CompilerInput;
  resultOutput : CompilerOutput;
  resultSolcBuild : SolcBuild
}.

Definition TASK_COMPILE_SOLIDITY_GET_COMPILER_INPUT
    (compilationJob : CompilationJob) : M CompilerInput :=
  ret (getInputFromCompilationJob compilationJob).

Definition TASK_COMPILE_SOLIDITY_COMPILE_JOB (env : Env)
    (compilationJob : CompilationJob) (compilationJobs : list CompilationJob)
    (compilationJobIndex : nat) (quiet : bool) (emitsArtifacts : bool)
    : M CompileJobResult :=
  emit (RunCompileJob compilationJob compilationJobIndex) ;;
  let* input := TASK_COMPILE_SOLIDITY_GET_COMPILER_INPUT compilationJob in
  let* (output, solcBuild) :=
    TASK_COMPILE_SOLIDITY_COMPILE env input quiet
      (version (getSolcConfig compilationJob))
      compilationJob compilationJobs compilationJobIndex in
  TASK_COMPILE_SOLIDITY_CHECK_ERRORS output quiet ;;
  let* artifactsEmittedPerFile :=
    if emitsArtifacts
    then TASK_COMPILE_SOLIDITY_EMIT_ARTIFACTS env compilationJob input output solcBuild
    else ret [] in
  ret {| artifactsEmittedPerFile := artifactsEmittedPerFile;
         resultCompilationJob := compilationJob;
         resultInput := input;
         resultOutput := output;
         resultSolcBuild := solcBuild |}.

(** The [for] loop of [COMPILE_JOBS]: [remaining] are the jobs from index
    [i] on. *)
Fixpoint compileJobsLoop (env : Env) (sortedCompilationJobs : list CompilationJob)
    (quiet : bool) (i : nat) (remaining : list CompilationJob)
    : M ArtifactsEmittedPerJob :=
  match remaining with
  | [] => ret []
  | compilationJob :: rest =>
      let* r :=
        TASK_COMPILE_SOLIDITY_COMPILE_JOB env compilationJob
          sortedCompilationJobs i quiet true in
      let* more := compileJobsLoop env sortedCompilationJobs quiet (S i) rest in
      ret ((compilationJob, artifactsEmittedPerFile r) :: more)
  end.

(** The comparator given to [sort]. *)
Definition compareJobs (job1 job2 : CompilationJob) : Z :=
  Semver.compare (version (getSolcConfig job1)) (version (getSolcConfig job2)).

Definition TASK_COMPILE_SOLIDITY_COMPILE_JOBS (env : Env)
    (compilationJobs : list CompilationJob) (quiet : bool)
    : M ArtifactsEmittedPerJob :=
  if bool_decide (length compilationJobs = 0) then
    TASK_COMPILE_SOLIDITY_LOG_NOTHING_TO_COMPILE quiet ;;
    ret []
  else
    (* sort compilation jobs by compiler version *)
    let sortedCompilationJobs := arraySort compareJobs compilationJobs in
    compileJobsLoop env sortedCompilationJobs quiet 0 sortedCompilationJobs.

(** The text of the reasons is not built; the error carries the list it
    would be built from. *)
Definition TASK_COMPILE_SOLIDITY_HANDLE_COMPILATION_JOBS_FAILURES
    (compilationJobsCreationErrors : list CompilationJobCreationError) : M unit :=
  let hasErrors := negb (bool_decide (length compilationJobsCreationErrors = 0)) in
  if hasErrors
  then throw (COMPILATION_JOBS_CREATION_FAILURE compilationJobsCreationErrors)
  else ret tt.

Definition TASK_COMPILE_SOLIDITY_LOG_COMPILATION_RESULT
    (compilationJobs : list CompilationJob) (quiet : bool) : M unit :=
  if negb (bool_decide (length compilationJobs = 0))
  then emit (Console CompilationFinished)
  else ret tt.

(** The cache entry written for a file compiled by a job. *)
Definition cacheEntryOf (compilationJob : CompilationJob) (file : ResolvedFile)
    (artifactsEmitted : list string) : CacheEntry :=
  {| entryLastModificationDate := lastModificationDate file;
     entryContentHash := contentHash file;
     entrySourceName := sourceName file;
     entrySolcConfig := getSolcConfig compilationJob;
     entryImports := imports (content file);
     entryVersionPragmas := versionPragmas (content file);
     artifacts := artifactsEmitted |}.

(** The inner loop of the cache update, over the files of one job. *)
Fixpoint addEmittedFiles (solidityFilesCache : gmap string CacheEntry)
    (compilationJob : CompilationJob) (perFile : ArtifactsEmittedPerFile)
    : gmap string CacheEntry :=
  match perFile with
  | [] => solidityFilesCache
  | (file, artifactsEmitted) :: rest =>
      addEmittedFiles
        (SolidityFilesCache.addFile solidityFilesCache (absolutePath file)
           (cacheEntryOf compilationJob file artifactsEmitted))
        compilationJob rest
  end.

(** The outer loop of the cache update, over the compiled jobs. *)
Fixpoint updateCache (solidityFilesCache : gmap string CacheEntry)
    (artifactsEmittedPerJob : ArtifactsEmittedPerJob) : gmap string CacheEntry :=
  match artifactsEmittedPerJob with
  | [] => solidityFilesCache
  | (compilationJob, perFile) :: rest =>
      updateCache (addEmittedFiles solidityFilesCache compilationJob perFile) rest
  end.

(** The jobs that a run compiles: created, filtered by the cache unless
    forced, then merged. *)
Definition jobsToCompile (env : Env) (force : bool)
    (solidityFilesCache : gmap string CacheEntry) : list CompilationJob :=
  let created := jobs (createCompilationJobs env solidityFilesCache) in
  mergeCompilationJobsWithoutBug env
    (if force then created
     else List.filter (fun job => needsCompilation job solidityFilesCache) created).

(** The main task, from the cache read from disk on.  The task returns
    nothing; here it yields the cache it has written. *)
Definition TASK_COMPILE_SOLIDITY (env : Env) (force quiet : bool)
    (loadedCache : gmap string CacheEntry) : M (gmap string CacheEntry) :=
  let solidityFilesCache :=
    invalidateCacheMissingArtifacts env loadedCache (resolvedFilesOfGraph env) in
  let compilationJobsCreationResult :=
    createCompilationJobs env solidityFilesCache in
  TASK_COMPILE_SOLIDITY_HANDLE_COMPILATION_JOBS_FAILURES
    (errors compilationJobsCreationResult) ;;
  let compilationJobs := jobs compilationJobsCreationResult in
  let* filteredCompilationJobs :=
    TASK_COMPILE_SOLIDITY_FILTER_COMPILATION_JOBS
      compilationJobs force (Some solidityFilesCache) in
  let mergedCompilationJobs :=
    mergeCompilationJobsWithoutBug env filteredCompilationJobs in
  let* artifactsEmittedPerJob :=
    TASK_COMPILE_SOLIDITY_COMPILE_JOBS env mergedCompilationJobs quiet in
  (* update cache using the information about the emitted artifacts *)
  let solidityFilesCache := updateCache solidityFilesCache artifactsEmittedPerJob in
  emit (RemoveObsoleteArtifacts (SolidityFilesCache.getEntries solidityFilesCache)) ;;
  emit RemoveObsoleteBuildInfos ;;
  emit (WriteCacheToFile solidityFilesCache) ;;
  TASK_COMPILE_SOLIDITY_LOG_COMPILATION_RESULT mergedCompilationJobs quiet ;;
  ret solidityFilesCache.

(* ===================================================================== *)
(** ** Comparison functions that are orders *)
(* ===================================================================== *)

(** What [sort] needs of the comparison behind its comparator: swapping
    the arguments flips the answer, "less" is transitive, and arguments
    that compare equal compare alike with any third one. *)
Class ComparisonOrder {A : Type} (c : A -> A -> comparison) : Prop := {
  cmp_antisym : forall a b, c b a = CompOpp (c a b);
  cmp_lt_trans : forall a b d, c a b = Lt -> c b d = Lt -> c a d = Lt;
  cmp_eq_compat : forall a b d, c a b = Eq -> c a d = c b d
}.

(** Compare by [c1], and by [c2] where [c1] sees no difference. *)
Definition lexComparison {A} (c1 c2 : A -> A -> comparison) (a b : A) : comparison :=
  match c1 a b with Eq => c2 a b | r => r end.


(* ===================================================================== *)
(** ** Reading a trace *)
(* ===================================================================== *)

(** The jobs whose compilation was started, in the order of the trace. *)
Definition executedJobs (tr : list Event) : list CompilationJob :=
  flat_map (fun e => match e with RunCompileJob job _ => [job] | _ => [] end) tr.

(** The artifacts handed to [saveArtifactAndDebugFile]. *)
Definition savedArtifacts (tr : list Event) : list Artifact :=
  flat_map (fun e => match e with
                     | SaveArtifactAndDebugFile a _ => [a]
                     | _ => []
                     end) tr.

(** The number of calls to [saveBuildInfo]. *)
Definition savedBuildInfos (tr : list Event) : nat :=
  length (List.filter (fun e => match e with SaveBuildInfo _ _ _ _ => true | _ => false end) tr).

(** An event of acquiring a compiler or of running one. *)
Definition isCompilerEvent (e : Event) : bool :=
  match e with
  | RunGetSolcBuild _ | DownloaderGetCompilerPath _ _ | Exec _
  | RunSolc _ _ | RunSolcJs _ _ => true
  | _ => false
  end.

(** A line on the console. *)
Definition isConsoleEvent (e : Event) : bool :=
  match e with Console _ => true | _ => false end.

(** A call to the artifact store made while emitting artifacts. *)
Definition isEmitEvent (e : Event) : bool :=
  match e with
  | SaveBuildInfo _ _ _ _ | SaveArtifactAndDebugFile _ _ => true
  | _ => false
  end.

(** What happens inside the compilation of one job, after its start. *)
Definition isJobStepEvent (e : Event) : bool :=
  isCompilerEvent e || isConsoleEvent e || isEmitEvent e.

(* ===================================================================== *)
(** ** Vocabulary of the statements *)
(* ===================================================================== *)



(** The cache holds an entry for the file, with the file's content hash
    and, when a solc config is given, with that config. *)
Definition cachedUnchanged (cache : gmap string CacheEntry) (file : ResolvedFile)
    (solcConfig : option SolcConfig) : Prop :=
  exists entry,
    cache !! absolutePath file = Some entry
    /\ entryContentHash entry = contentHash file
    /\ forall cfg, solcConfig = Some cfg -> entrySolcConfig entry = cfg.

(** The solc config that goes with a file of a job in the cache check:
    the job's config for a file that emits artifacts, none for a file
    that is only a dependency. *)
Definition configChecked (job : CompilationJob) (file : ResolvedFile)
    : option SolcConfig :=
  if emitsArtifacts job file then Some (getSolcConfig job) else None.

(** The answer of the cache about a file of a job. *)
Definition fileChanged (hasFileChanged : string -> string -> option SolcConfig -> bool)
    (job : CompilationJob) (file : ResolvedFile) : bool :=
  hasFileChanged (absolutePath file) (contentHash file) (configChecked job file).

#[global] Instance cachedUnchanged_dec cache file solcConfig :
  Decision (cachedUnchanged cache file solcConfig).
Proof.
  unfold cachedUnchanged.
  destruct (cache !! absolutePath file) as [entry|];
    [|right; by intros (e & ? & _)].
  destruct (decide (entryContentHash entry = contentHash file)) as [Hhash|Hhash];
    [|right; by intros (e & [= <-] & ? & _)].
  destruct solcConfig as [cfg|].
  - destruct (decide (entrySolcConfig entry = cfg)) as [Hcfg|Hcfg].
    + left. exists entry. split; [done|]. split; [done|]. by intros ? [= <-].
    + right. intros (e & [= <-] & _ & H). by apply Hcfg, H.
  - left. exists entry. split; [done|]. split; [done|]. by intros ? [=].
Defined.

(** Every input file of the job passes the cache check: an entry exists
    for it with its content hash and, if the file emits artifacts, with
    the solc config of the job. *)
Definition allFilesUnchanged (cache : gmap string CacheEntry)
    (job : CompilationJob) : Prop :=
  Forall (fun file => cachedUnchanged cache file (configChecked job file))
    (getResolvedFiles job).

#[global] Instance allFilesUnchanged_dec cache job :
  Decision (allFilesUnchanged cache job).
Proof. unfold allFilesUnchanged. apply _. Defined.

(** An entry exists for the path and one of its recorded artifacts is
    not in the artifact store, under the source name of a resolved file
    with that path. *)
Definition artifactMissingFor (env : Env) (cache : gmap string CacheEntry)
    (resolvedFiles : list ResolvedFile) (path : string) : Prop :=
  exists entry file emittedArtifact,
    cache !! path = Some entry
    /\ In file resolvedFiles /\ absolutePath file = path
    /\ In emittedArtifact (artifacts entry)
    /\ artifactExists env
         (getFullyQualifiedName (sourceName file) emittedArtifact) = false.

(** The compiler output holds a diagnostic of severity [error]. *)
Definition hasErrorDiagnostic (output : CompilerOutput) : Prop :=
  exists errs d,
    outputErrors output = Some errs /\ In d errs /\ severity d = "error".

(** The native binary is unavailable (the downloader has no compiler and
    the build wanted is not the WASM one), or the downloader gave a
    native binary whose probe exits with a code other than 0. *)
Definition nativeBinaryFails (env : Env) (solcVersion : SemVer) : Prop :=
  match getDownloadedCompilerPath env false solcVersion with
  | None => snd (getCompilerBuild env solcVersion) <> WASM
  | Some result =>
      resultPlatform result <> WASM
      /\ exists code elapsedMs,
           execProcess env (versionCommand (resultCompilerPath result))
             = Exits code elapsedMs
           /\ code <> Some 0%Z
  end.

(** The acquisition went to the downloader of the solcjs build. *)
Definition fallbackUsed (solcVersion : SemVer) (tr : list Event) : Prop :=
  In (DownloaderGetCompilerPath true solcVersion) tr.


(** The error of the guard on the solc version. *)
Definition isUnsupportedVersionError (e : HardhatError) : bool :=
  match e with
  | COMPILE_TASK_UNSUPPORTED_SOLC_VERSION _ _ => true
  | _ => false
  end.

(** The artifacts that a compiler output holds for a file. *)
Definition artifactsOfFile (output : CompilerOutput) (file : ResolvedFile)
    : list Artifact :=
  map (fun '(contractName, contractOutput) =>
         getArtifactFromContractOutput (sourceName file) contractName contractOutput)
      (contractEntries output (sourceName file)).

(** The files of a job that emit artifacts, in the order of the job. *)
Definition emittingFiles (job : CompilationJob) : list ResolvedFile :=
  List.filter (emitsArtifacts job) (getResolvedFiles job).

(** A task that throws only errors with a given property. *)
Definition throwsOnly (P : HardhatError -> Prop) {A} (m : M A) : Prop :=
  forall e, outcome m = Thrown e -> P e.

(** The writes of the cache update, in order: path and entry. *)
Definition writtenEntries (artifactsEmittedPerJob : ArtifactsEmittedPerJob)
    : list (string * CacheEntry) :=
  flat_map (fun '(job, perFile) =>
              map (fun '(f, artifactsEmitted) =>
                     (absolutePath f, cacheEntryOf job f artifactsEmitted))
                  perFile)
           artifactsEmittedPerJob.

(** No source file emits artifacts under two solc configs or with two
    contents: artifact-emitting files of the jobs that share an absolute
    path share the solc config of their jobs and their content hash. *)
Definition emitsOnce (compilationJobs : list CompilationJob) : Prop :=
  forall job1 job2 f1 f2,
    In job1 compilationJobs -> In job2 compilationJobs ->
    In f1 (emittingFiles job1) -> In f2 (emittingFiles job2) ->
    absolutePath f1 = absolutePath f2 ->
    getSolcConfig job1 = getSolcConfig job2 /\ contentHash f1 = contentHash f2.

(* ===================================================================== *)
(** ** A small project, to run the tasks on *)
(* ===================================================================== *)

Module Sample.

Definition v0_8_17 : SemVer := Semver.release 0 8 17.
Definition v0_7_6 : SemVer := Semver.release 0 7 6.
Definition v0_4_10 : SemVer := Semver.release 0 4 10.

Definition config0817 : SolcConfig := mkSolcConfig v0_8_17 "{}".
Definition config076 : SolcConfig := mkSolcConfig v0_7_6 "{}".
Definition config0410 : SolcConfig := mkSolcConfig v0_4_10 "{}".

(** [A.sol] imports [B.sol]; [C.sol] stands alone. *)
Definition fileA : ResolvedFile :=
  mkResolvedFile "contracts/A.sol" "/project/contracts/A.sol" "hashA" 1
    (mkFileContent "import './B.sol'; contract A {}" ["contracts/B.sol"] ["^0.8.0"]).
Definition fileB : ResolvedFile :=
  mkResolvedFile "contracts/B.sol" "/project/contracts/B.sol" "hashB" 1
    (mkFileContent "contract B {}" [] ["^0.8.0"]).
Definition fileC : ResolvedFile :=
  mkResolvedFile "contracts/C.sol" "/project/contracts/C.sol" "hashC" 1
    (mkFileContent "contract C {}" [] ["^0.7.0"]).

Definition emitsOnly (names : list string) (f : ResolvedFile) : bool :=
  bool_decide (sourceName f ∈ names).

(** [A.sol] emits artifacts, [B.sol] is only its dependency. *)
Definition jobA : CompilationJob :=
  mkCompilationJob config0817 [fileA; fileB] (emitsOnly ["contracts/A.sol"]).
Definition jobC : CompilationJob :=
  mkCompilationJob config076 [fileC] (emitsOnly ["contracts/C.sol"]).
Definition jobOld : CompilationJob :=
  mkCompilationJob config0410 [fileC] (emitsOnly ["contracts/C.sol"]).


Definition entryA : CacheEntry := cacheEntryOf jobA fileA ["A"].
Definition entryB : CacheEntry := cacheEntryOf jobA fileB ["B"].
Definition entryC : CacheEntry := cacheEntryOf jobC fileC ["C"].

(** A cache that knows the three files as they are. *)
Definition fullCache : gmap string CacheEntry :=
  <[absolutePath fileA := entryA]>
    (<[absolutePath fileB := entryB]>
       (<[absolutePath fileC := entryC]> ∅)).

Definition goodOutput : CompilerOutput :=
  {| outputErrors := None;
     contracts := Some (<["contracts/A.sol" := [("A", "bytecode of A")]]>
                       (<["contracts/B.sol" := [("B", "bytecode of B")]]>
                       (<["contracts/C.sol" := [("C", "bytecode of C")]]> ∅))) |}.

Definition warning : Diagnostic :=
  mkDiagnostic "warning" "Warning" (Some "Unused variable") "Warning: unused".
Definition typeError : Diagnostic :=
  mkDiagnostic "error" "TypeError" (Some "Type mismatch") "TypeError: mismatch".

(** A machine with a working native compiler and every artifact on
    disk; job creation gives [jobs] and merging leaves them as they
    are. *)
Definition env (jobs : list CompilationJob) : Env :=
  {| isCompilerDownloaded := fun _ => true;
     getCompilerBuild := fun _ => ("0.8.17+commit.8df45f5f", LINUX);
     getDownloadedCompilerPath := fun forceSolcJs _ =>
       if forceSolcJs then Some (mkCompilerPathResult "/compilers/soljson.js" WASM)
       else Some (mkCompilerPathResult "/compilers/solc" LINUX);
     execProcess := fun _ => Exits (Some 0%Z) 50;
     nativeCompile := fun _ _ => goodOutput;
     solcjsCompile := fun _ _ => goodOutput;
     saveBuildInfo := fun _ _ _ _ => "/artifacts/build-info/1.json";
     artifactExists := fun _ => true;
     resolvedFilesOfGraph := [fileA; fileB; fileC];
     createCompilationJobs := fun _ => mkCreationResult jobs [];
     mergeCompilationJobsWithoutBug := fun js => js |}.

(** The same machine with another artifact store. *)
Definition envWithArtifacts (artifactExists : string -> bool) : Env :=
  let e := env [jobA] in
  {| isCompilerDownloaded := isCompilerDownloaded e;
     getCompilerBuild := getCompilerBuild e;
     getDownloadedCompilerPath := getDownloadedCompilerPath e;
     execProcess := execProcess e;
     nativeCompile := nativeCompile e;
     solcjsCompile := solcjsCompile e;
     saveBuildInfo := saveBuildInfo e;
     artifactExists := artifactExists;
     resolvedFilesOfGraph := resolvedFilesOfGraph e;
     createCompilationJobs := createCompilationJobs e;
     mergeCompilationJobsWithoutBug := mergeCompilationJobsWithoutBug e |}.

(** The same machine with another behaviour of the [--version] probe. *)
Definition envWithProbe (probe : ProcessRun) : Env :=
  let e := env [jobA] in
  {| isCompilerDownloaded := isCompilerDownloaded e;
     getCompilerBuild := getCompilerBuild e;
     getDownloadedCompilerPath := getDownloadedCompilerPath e;
     execProcess := fun _ => probe;
     nativeCompile := nativeCompile e;
     solcjsCompile := solcjsCompile e;
     saveBuildInfo := saveBuildInfo e;
     artifactExists := artifactExists e;
     resolvedFilesOfGraph := resolvedFilesOfGraph e;
     createCompilationJobs := createCompilationJobs e;
     mergeCompilationJobsWithoutBug := mergeCompilationJobsWithoutBug e |}.

End Sample.

(* ===================================================================== *)
(** ** More vocabulary for reading runs *)
(* ===================================================================== *)

(** The job has at least one input file. *)
Definition hasFiles (job : CompilationJob) : bool :=
  match getResolvedFiles job with [] => false | _ :: _ => true end.

(** The runs of a compiler, native or solcjs, in the order of the trace. *)
Definition compilerRuns (tr : list Event) : list Event :=
  List.filter (fun e => match e with RunSolc _ _ | RunSolcJs _ _ => true | _ => false end) tr.

(** The one run of the compiler that goes with a build: the solcjs runner
    for a build flagged [isSolcJs], the native runner otherwise, on the
    build's compiler path. *)
Definition runOf (build : SolcBuild) (input : CompilerInput) : Event :=
  if isSolcJs build then RunSolcJs (compilerPath build) input
  else RunSolc (compilerPath build) input.

(** An event of acquiring a compiler, short of running one. *)
Definition isAcquisitionEvent (e : Event) : bool :=
  match e with
  | RunGetSolcBuild _ | DownloaderGetCompilerPath _ _ | Exec _ | Console _ => true
  | _ => false
  end.

Module MoreSamples.

(** A platform for which the build list has only the WASM build: the
    downloader answers with the solcjs module from the start. *)
Definition envWasmOnly : Env :=
  let e := Sample.env [Sample.jobA] in
  {| isCompilerDownloaded := isCompilerDownloaded e;
     getCompilerBuild := fun _ => ("0.8.17+commit.8df45f5f", WASM);
     getDownloadedCompilerPath := fun _ _ =>
       Some (mkCompilerPathResult "/compilers/soljson.js" WASM);
     execProcess := execProcess e;
     nativeCompile := nativeCompile e;
     solcjsCompile := solcjsCompile e;
     saveBuildInfo := saveBuildInfo e;
     artifactExists := artifactExists e;
     resolvedFilesOfGraph := resolvedFilesOfGraph e;
     createCompilationJobs := createCompilationJobs e;
     mergeCompilationJobsWithoutBug := mergeCompilationJobsWithoutBug e |}.

(** A second job for 0.8.17, compiling [B.sol] for its own artifacts. *)
Definition jobB : CompilationJob :=
  mkCompilationJob Sample.config0817 [Sample.fileB]
    (Sample.emitsOnly ["contracts/B.sol"]).

(** A project with a file for which no configured compiler fits: job
    creation reports it. *)
Definition envWithCreationError : Env :=
  let e := Sample.env [Sample.jobA] in
  {| isCompilerDownloaded := isCompilerDownloaded e;
     getCompilerBuild := getCompilerBuild e;
     getDownloadedCompilerPath := getDownloadedCompilerPath e;
     execProcess := execProcess e;
     nativeCompile := nativeCompile e;
     solcjsCompile := solcjsCompile e;
     saveBuildInfo := saveBuildInfo e;
     artifactExists := artifactExists e;
     resolvedFilesOfGraph := resolvedFilesOfGraph e;
     createCompilationJobs := fun _ =>
       mkCreationResult [Sample.jobA]
         [mkCreationError NO_COMPATIBLE_SOLC_VERSION_FOUND Sample.fileC];
     mergeCompilationJobsWithoutBug := mergeCompilationJobsWithoutBug e |}.

End MoreSamples.

(** The numbers of the progress lines ("Compiling N files with V"), in
    the order of the trace. *)
Definition compilingCounts (tr : list Event) : list nat :=
  flat_map (fun e => match e with
                     | Console (CompilingFiles count _) => [count]
                     | _ => []
                     end) tr.

(** An event other than a progress line. *)
Definition isNoProgressLine (e : Event) : bool :=
  match e with Console (CompilingFiles _ _) => false | _ => true end.

(** The number of the progress line that [LOG_RUN_COMPILER_START] prints
    for the job at an index, 0 when it prints none. *)
Definition progressCount (compilationJobs : list CompilationJob) (i : nat) : nat :=
  match compilationJobs !! i with
  | None => 0
  | Some job =>
      sum_list (compilingCounts
                  (trace (TASK_COMPILE_SOLIDITY_LOG_RUN_COMPILER_START
                            job compilationJobs i false)))
  end.

(** The number of files that emit artifacts, over all jobs. *)
Definition totalEmittingFiles (compilationJobs : list CompilationJob) : nat :=
  sum_list (map (fun job => length (emittingFiles job)) compilationJobs).

(** A step that the main task takes once the jobs are compiled: removing
    obsolete artifacts and build infos, writing the cache file. *)
Definition isHousekeepingEvent (e : Event) : bool :=
  match e with
  | RemoveObsoleteArtifacts _ | RemoveObsoleteBuildInfos | WriteCacheToFile _ => true
  | _ => false
  end.

(** Those steps, for the cache that the build has arrived at. *)
Definition housekeeping (cache : gmap string CacheEntry) : list Event :=
  [RemoveObsoleteArtifacts (SolidityFilesCache.getEntries cache);
   RemoveObsoleteBuildInfos;
   WriteCacheToFile cache].

(** The cache that the main task works with: the loaded one without the
    entries whose artifacts are missing. *)
Definition cacheAtStart (env : Env) (loadedCache : gmap string CacheEntry)
    : gmap string CacheEntry :=
  invalidateCacheMissingArtifacts env loadedCache (resolvedFilesOfGraph env).

(** The diagnostics that a trace shows printed as errors
    ([console.error] in red), in order. *)
Definition errorLines (tr : list Event) : list Diagnostic :=
  flat_map (fun e => match e with Console (RedDiagnostic d) => [d] | _ => [] end) tr.

(** The diagnostics that a trace shows printed as warnings
    ([console.warn] in yellow), in order. *)
Definition warningLines (tr : list Event) : list Diagnostic :=
  flat_map (fun e => match e with Console (YellowDiagnostic d) => [d] | _ => [] end) tr.

(** The loop that closes [TASK_COMPILE_SOLIDITY_GET_COMPILATION_JOBS],
    over the results for the connected components: [jobs] and [errors]
    grow by [concat]. *)
Fixpoint concatCreationResults (jobsSoFar : list CompilationJob)
    (errorsSoFar : list CompilationJobCreationError)
    (compilationJobsCreationResults : list CompilationJobsCreationResult)
    : CompilationJobsCreationResult :=
  match compilationJobsCreationResults with
  | [] => mkCreationResult jobsSoFar errorsSoFar
  | result :: rest =>
      concatCreationResults (jobsSoFar ++ jobs result) (errorsSoFar ++ errors result) rest
  end.

(** [TASK_COMPILE_SOLIDITY_GET_COMPILATION_JOBS], from the results that
    [createCompilationJobsFromConnectedComponent] gave for the connected
    components of the dependency graph. *)
Definition TASK_COMPILE_SOLIDITY_GET_COMPILATION_JOBS
    (compilationJobsCreationResults : list CompilationJobsCreationResult)
    : M CompilationJobsCreationResult :=
  ret (concatCreationResults [] [] compilationJobsCreationResults).

#[global] Instance CompilationJobCreationErrorReason_eq_dec :
  EqDecision CompilationJobCreationErrorReason.
Proof. solve_decision. Defined.

(** The five arrays that
    [TASK_COMPILE_SOLIDITY_GET_COMPILATION_JOBS_FAILURE_REASONS] sorts
    the errors into before it writes the message. *)
Record FailureGroups : Type := mkFailureGroups {
  noCompatibleSolc : list CompilationJobCreationError;
  incompatibleOverridenSolc : list CompilationJobCreationError;
  directlyImportsIncompatibleFile : list CompilationJobCreationError;
  indirectlyImportsIncompatibleFile : list CompilationJobCreationError;
  other : list CompilationJobCreationError
}.

(** One turn of the first loop of that task: [push] on the array of the
    error's reason. *)
Definition pushError (groups : FailureGroups) (error : CompilationJobCreationError)
    : FailureGroups :=
  match reason error with
  | NO_COMPATIBLE_SOLC_VERSION_FOUND =>
      mkFailureGroups (noCompatibleSolc groups ++ [error])
        (incompatibleOverridenSolc groups) (directlyImportsIncompatibleFile groups)
        (indirectlyImportsIncompatibleFile groups) (other groups)
  | INCOMPATIBLE_OVERRIDEN_SOLC_VERSION =>
      mkFailureGroups (noCompatibleSolc groups)
        (incompatibleOverridenSolc groups ++ [error])
        (directlyImportsIncompatibleFile groups)
        (indirectlyImportsIncompatibleFile groups) (other groups)
  | DIRECTLY_IMPORTS_INCOMPATIBLE_FILE =>
      mkFailureGroups (noCompatibleSolc groups) (incompatibleOverridenSolc groups)
        (directlyImportsIncompatibleFile groups ++ [error])
        (indirectlyImportsIncompatibleFile groups) (other groups)
  | INDIRECTLY_IMPORTS_INCOMPATIBLE_FILE =>
      mkFailureGroups (noCompatibleSolc groups) (incompatibleOverridenSolc groups)
        (directlyImportsIncompatibleFile groups)
        (indirectlyImportsIncompatibleFile groups ++ [error]) (other groups)
  | OTHER_ERROR =>
      mkFailureGroups (noCompatibleSolc groups) (incompatibleOverridenSolc groups)
        (directlyImportsIncompatibleFile groups)
        (indirectlyImportsIncompatibleFile groups) (other groups ++ [error])
  end.

(** The first loop of that task, from empty arrays. *)
Definition groupErrorsByReason (errors : list CompilationJobCreationError)
    : FailureGroups :=
  foldl pushError (mkFailureGroups [] [] [] [] []) errors.

(** The errors with a given reason, in their order. *)
Definition withReason (r : CompilationJobCreationErrorReason)
    (errors : list CompilationJobCreationError) : list CompilationJobCreationError :=
  List.filter (fun error => bool_decide (reason error = r)) errors.

(* ===================================================================== *)
(** ** The blockchain store of the Hardhat network
       ([hardhat-network/provider/BlockchainData.ts]) *)
(* ===================================================================== *)

Module BlockchainData.

(** A Node [Buffer]. *)
Definition Buffer : Type := list Byte.byte.

Definition hexDigit (n : N) : ascii :=
  match String.get (N.to_nat n) "0123456789abcdef" with
  | Some c => c
  | None => "0"%char
  end.

(** [bufferToHex] of ethereumjs-util: ["0x"] and two digits per byte. *)
Fixpoint hexOfBytes (b : Buffer) : string :=
  match b with
  | [] => EmptyString
  | x :: rest =>
      String (hexDigit (Byte.to_N x / 16))
        (String (hexDigit (Byte.to_N x mod 16)) (hexOfBytes rest))
  end.

Definition bufferToHex (b : Buffer) : string := ("0x" ++ hexOfBytes b)%string.

(** A call that returns or throws. *)
Inductive Result (A : Type) : Type :=
| Returns (a : A)
| Throws.

Arguments Returns {A} a.
Arguments Throws {A}.

(** The statements after a call: they run if the call returned. *)
Definition andThen {A B} (r : Result A) (k : A -> Result B) : Result B :=
  match r with
  | Returns a => k a
  | Throws => Throws
  end.

(** [BN.prototype.toNumber] of bn.js, on a big number held as [Z]: the
    number itself up to 53 bits, an assertion failure beyond. *)
Definition toNumber (n : Z) : Result Z :=
  if bool_decide (Z.abs n < 2 ^ 53)%Z then Returns n else Throws.

(** [new Bloom(bitvector)] of @ethereumjs/vm: the constructor asserts
    that the bit vector has 2048 bits. *)
Definition newBloom (bitvector : Buffer) : Result Buffer :=
  if bool_decide (length bitvector = 256) then Returns bitvector else Throws.

(** A transaction of @ethereumjs/tx: its type (0 for a legacy
    transaction), whether it is signed, and the hash that [hash()]
    gives when it gives one. *)
Record TypedTransaction : Type := mkTransaction {
  transactionType : N;
  isSigned : bool;
  transactionHashBuffer : Buffer;
  transactionData : string
}.

(** [transaction.hash()]: a typed transaction that is not signed throws
    ("Cannot call hash method if transaction is not signed"); a legacy
    transaction always has a hash. *)
Definition hashOfTransaction (transaction : TypedTransaction) : Result Buffer :=
  if negb (transactionType transaction =? 0)%N && negb (isSigned transaction)
  then Throws
  else Returns (transactionHashBuffer transaction).

Record RpcLogOutput : Type := mkLog {
  logAddress : string;
  logTopics : list string;
  logData : string
}.

Record RpcReceiptOutput : Type := mkReceipt {
  transactionHash : string;
  logs : list RpcLogOutput
}.

Record BlockHeader : Type := mkHeader {
  number : Z;
  bloom : Buffer
}.

Record Block : Type := mkBlock {
  header : BlockHeader;
  transactions : list TypedTransaction;
  hash : Buffer                     (* [block.hash()] *)
}.

Record EmptyBlockRange : Type := mkEmptyBlockRange {
  first : Z;
  last : Z;
  intervalInSeconds : Z
}.

Record FilterParams : Type := mkFilterParams {
  fromBlock : Z;
  toBlock : Z;
  addresses : list Buffer;
  normalizedTopics : list (option (list Buffer))
}.

(** The fields of the class. *)
Record t : Type := mkBlockchainData {
  _blocksByNumber : gmap Z Block;
  _blocksByHash : gmap string Block;
  _blocksByTransactions : gmap string Block;
  _transactions : gmap string TypedTransaction;
  _transactionReceipts : gmap string RpcReceiptOutput;
  _totalDifficulty : gmap string Z;
  emptyBlockRanges : list EmptyBlockRange
}.

(** A store as the field initializers leave it. *)
Definition new : t := mkBlockchainData ∅ ∅ ∅ ∅ ∅ ∅ [].

Definition addEmptyBlockRange (this : t) (r : EmptyBlockRange) : t :=
  mkBlockchainData (_blocksByNumber this) (_blocksByHash this)
    (_blocksByTransactions this) (_transactions this) (_transactionReceipts this)
    (_totalDifficulty this) (emptyBlockRanges this ++ [r]).

Definition getBlockByNumber (this : t) (blockNumber : Z) : Result (option Block) :=
  match toNumber blockNumber with
  | Returns n => Returns (_blocksByNumber this !! n)
  | Throws => Throws
  end.

Definition getBlockByHash (this : t) (blockHash : Buffer) : option Block :=
  _blocksByHash this !! bufferToHex blockHash.

Definition getBlockByTransactionHash (this : t) (transactionHash : Buffer)
    : option Block :=
  _blocksByTransactions this !! bufferToHex transactionHash.

Definition getTransaction (this : t) (transactionHash : Buffer)
    : option TypedTransaction :=
  _transactions this !! bufferToHex transactionHash.

Definition getTransactionReceipt (this : t) (transactionHash : Buffer)
    : option RpcReceiptOutput :=
  _transactionReceipts this !! bufferToHex transactionHash.

Definition getTotalDifficulty (this : t) (blockHash : Buffer) : option Z :=
  _totalDifficulty this !! bufferToHex blockHash.

Section GetLogs.

(** [bloomFilter] and [filterLogs] of [./filter]. *)
Variable bloomFilter : Buffer -> list Buffer -> list (option (list Buffer)) -> bool.
Variable filterLogs : list RpcLogOutput -> FilterParams -> list RpcLogOutput.

(** The inner loop of [getLogs], over the transactions of a block. *)
Fixpoint logsOfTransactions (this : t) (filterParams : FilterParams)
    (txs : list TypedTransaction) : Result (list RpcLogOutput) :=
  match txs with
  | [] => Returns []
  | transaction :: rest =>
      andThen (hashOfTransaction transaction) (fun transactionHash =>
      let pushed :=
        match getTransactionReceipt this transactionHash with
        | Some receipt =>
            filterLogs (logs receipt)
              (mkFilterParams (fromBlock filterParams) (toBlock filterParams)
                 (addresses filterParams) (normalizedTopics filterParams))
        | None => []
        end in
      andThen (logsOfTransactions this filterParams rest) (fun more =>
      Returns (pushed ++ more)))
  end.

(** One turn of the outer loop of [getLogs]: the logs of the block with
    a given number. *)
Definition logsOfBlockNumber (this : t) (filterParams : FilterParams) (i : Z)
    : Result (list RpcLogOutput) :=
  andThen (getBlockByNumber this i) (fun block =>
  match block with
  | None => Returns []
  | Some block =>
      andThen (newBloom (bloom (header block))) (fun blockBloom =>
      if negb (bloomFilter blockBloom (addresses filterParams)
                 (normalizedTopics filterParams))
      then Returns []
      else logsOfTransactions this filterParams (transactions block))
  end).

(** The outer loop of [getLogs] from block number [i] on, for the
    [steps] numbers that are left up to [toBlock]. *)
Fixpoint getLogsFrom (this : t) (filterParams : FilterParams) (i : Z)
    (steps : nat) : Result (list RpcLogOutput) :=
  match steps with
  | O => Returns []
  | S steps' =>
      andThen (logsOfBlockNumber this filterParams i) (fun pushed =>
      andThen (getLogsFrom this filterParams (i + 1) steps') (fun more =>
      Returns (pushed ++ more)))
  end.

Definition getLogs (this : t) (filterParams : FilterParams)
    : Result (list RpcLogOutput) :=
  getLogsFrom this filterParams (fromBlock filterParams)
    (Z.to_nat (toBlock filterParams - fromBlock filterParams + 1)).

(** The log comes from the receipt, stored in [this], of a transaction
    of the block, through [filterLogs]. *)
Definition logOfBlock (this : t) (filterParams : FilterParams) (block : Block)
    (log : RpcLogOutput) : Prop :=
  exists transaction receipt,
    In transaction (transactions block)
    /\ getTransactionReceipt this (transactionHashBuffer transaction) = Some receipt
    /\ In log (filterLogs (logs receipt) filterParams).

(** What makes the turn of the loop of [getLogs] for a block number
    throw: the number does not fit 53 bits; or the block stored under it
    has a bloom that is not 256 bytes long; or that block passes the
    bloom filter and has a transaction without a hash. *)
Definition throwsAt (this : t) (filterParams : FilterParams) (i : Z) : Prop :=
  (2 ^ 53 <= Z.abs i)%Z
  \/ exists block,
       _blocksByNumber this !! i = Some block
       /\ (length (bloom (header block)) <> 256
           \/ (bloomFilter (bloom (header block)) (addresses filterParams)
                 (normalizedTopics filterParams) = true
               /\ exists transaction,
                    In transaction (transactions block)
                    /\ hashOfTransaction transaction = Throws)).

End GetLogs.

(** The loop of [addBlock] over the transactions of the block: the two
    maps as it leaves them, and whether it ran to its end or a
    [transaction.hash()] threw. *)
Fixpoint addTransactionsOf (block : Block) (txs : list TypedTransaction)
    (maps : gmap string TypedTransaction * gmap string Block)
    : gmap string TypedTransaction * gmap string Block * Result unit :=
  match txs with
  | [] => (maps, Returns tt)
  | transaction :: rest =>
      match hashOfTransaction transaction with
      | Throws => (maps, Throws)
      | Returns h =>
          let transactionHash := bufferToHex h in
          addTransactionsOf block rest
            (<[transactionHash := transaction]> (fst maps),
             <[transactionHash := block]> (snd maps))
      end
  end.

(** [addBlock], with the store as the call leaves it.  [toNumber] comes
    before the first [set], so a call that throws there has changed
    nothing; the loop over the transactions comes after the three
    [set]s of the block. *)
Definition addBlockRun (this : t) (block : Block) (totalDifficulty : Z)
    : t * Result unit :=
  let blockHash := bufferToHex (hash block) in
  match toNumber (number (header block)) with
  | Throws => (this, Throws)
  | Returns blockNumber =>
      let '(maps, result) :=
        addTransactionsOf block (transactions block)
          (_transactions this, _blocksByTransactions this) in
      (mkBlockchainData
         (<[blockNumber := block]> (_blocksByNumber this))
         (<[blockHash := block]> (_blocksByHash this))
         (snd maps)
         (fst maps)
         (_transactionReceipts this)
         (<[blockHash := totalDifficulty]> (_totalDifficulty this))
         (emptyBlockRanges this),
       result)
  end.

(** [addBlock]: the store after a call that returns. *)
Definition addBlock (this : t) (block : Block) (totalDifficulty : Z) : Result t :=
  match addBlockRun this block totalDifficulty with
  | (this', Returns _) => Returns this'
  | (_, Throws) => Throws
  end.

(** The loop of [removeBlock] over the transactions of the block: the
    three maps as it leaves them, and whether it ran to its end. *)
Fixpoint removeTransactionsOf (txs : list TypedTransaction)
    (maps : gmap string TypedTransaction * gmap string RpcReceiptOutput
            * gmap string Block)
    : gmap string TypedTransaction * gmap string RpcReceiptOutput
      * gmap string Block * Result unit :=
  match txs with
  | [] => (maps, Returns tt)
  | transaction :: rest =>
      match hashOfTransaction transaction with
      | Throws => (maps, Throws)
      | Returns h =>
          let transactionHash := bufferToHex h in
          let '(txMap, receipts, byTx) := maps in
          removeTransactionsOf rest
            (delete transactionHash txMap, delete transactionHash receipts,
             delete transactionHash byTx)
      end
  end.

(** [removeBlock], with the store as the call leaves it. *)
Definition removeBlockRun (this : t) (block : Block) : t * Result unit :=
  let blockHash := bufferToHex (hash block) in
  match toNumber (number (header block)) with
  | Throws => (this, Throws)
  | Returns blockNumber =>
      let '(txMap, receipts, byTx, result) :=
        removeTransactionsOf (transactions block)
          (_transactions this, _transactionReceipts this, _blocksByTransactions this) in
      (mkBlockchainData
         (delete blockNumber (_blocksByNumber this))
         (delete blockHash (_blocksByHash this))
         byTx txMap receipts
         (delete blockHash (_totalDifficulty this))
         (emptyBlockRanges this),
       result)
  end.

(** [removeBlock]: the store after a call that returns. *)
Definition removeBlock (this : t) (block : Block) : Result t :=
  match removeBlockRun this block with
  | (this', Returns _) => Returns this'
  | (_, Throws) => Throws
  end.

(** [addTransaction], with the store as the call leaves it. *)
Definition addTransaction (this : t) (transaction : TypedTransaction) : Result t :=
  andThen (hashOfTransaction transaction) (fun h =>
  Returns
    (mkBlockchainData (_blocksByNumber this) (_blocksByHash this)
       (_blocksByTransactions this)
       (<[bufferToHex h := transaction]> (_transactions this))
       (_transactionReceipts this) (_totalDifficulty this) (emptyBlockRanges this))).

Definition addTransactionReceipt (this : t) (receipt : RpcReceiptOutput) : t :=
  mkBlockchainData (_blocksByNumber this) (_blocksByHash this)
    (_blocksByTransactions this) (_transactions this)
    (<[transactionHash receipt := receipt]> (_transactionReceipts this))
    (_totalDifficulty this) (emptyBlockRanges this).

(** The test of [findIndex] in [splitAnyEmptyBlockRangesFor]. *)
Definition contains (range : EmptyBlockRange) (blockNumber : Z) : bool :=
  (first range <=? blockNumber)%Z && (last range >=? blockNumber)%Z.

(** [Array.prototype.findIndex], with [None] for [-1]. *)
Fixpoint findIndex {A} (predicate : A -> bool) (l : list A) : option nat :=
  match l with
  | [] => None
  | x :: rest =>
      if predicate x then Some 0
      else match findIndex predicate rest with
           | Some i => Some (S i)
           | None => None
           end
  end.

Definition withEmptyBlockRanges (this : t) (ranges : list EmptyBlockRange) : t :=
  mkBlockchainData (_blocksByNumber this) (_blocksByHash this)
    (_blocksByTransactions this) (_transactions this) (_transactionReceipts this)
    (_totalDifficulty this) ranges.

(** What a call of [splitAnyEmptyBlockRangesFor] leaves: the lines on
    the console, the store and the value returned. *)
Record SplitResult : Type := mkSplitResult {
  consoleLines : list string;
  after : t;
  returned : bool
}.

Definition splitAnyEmptyBlockRangesFor (this : t) (blockNumber : Z) : SplitResult :=
  match findIndex (fun range => contains range blockNumber) (emptyBlockRanges this) with
  | None => mkSplitResult [] this false
  | Some rangeIndex =>
      match emptyBlockRanges this !! rangeIndex with
      | None => mkSplitResult [] this false   (* no such index: [findIndex] found it *)
      | Some oldRange =>
          let spliced := delete rangeIndex (emptyBlockRanges this) in
          let lower :=
            if negb (blockNumber =? first oldRange)%Z
            then [mkEmptyBlockRange (first oldRange) (blockNumber - 1)
                    (intervalInSeconds oldRange)]
            else [] in
          let upper :=
            if negb (blockNumber =? last oldRange)%Z
            then [mkEmptyBlockRange (blockNumber + 1) (last oldRange)
                    (intervalInSeconds oldRange)]
            else [] in
          mkSplitResult
            (["BlockchainData.splitANyEmptyBlockRangesFor(): the block number lies within the identified empty block range"]
               ++ (if negb (blockNumber =? first oldRange)%Z then ["a"] else [])
               ++ (if negb (blockNumber =? last oldRange)%Z then ["b"] else []))
            (withEmptyBlockRanges this (spliced ++ lower ++ upper))
            true
      end
  end.

(** Some range of the store holds the block number. *)
Definition inEmptyRange (this : t) (blockNumber : Z) : Prop :=
  exists range, In range (emptyBlockRanges this) /\ contains range blockNumber = true.

(** The intervals under which the ranges of the store hold a block
    number. *)
Definition intervalsAt (this : t) (blockNumber : Z) : list Z :=
  map intervalInSeconds
    (List.filter (fun range => contains range blockNumber) (emptyBlockRanges this)).

(** No block number lies in two ranges of the store. *)
Definition rangesDisjoint (this : t) : Prop :=
  forall blockNumber, length (intervalsAt this blockNumber) <= 1.

(** Every range of the store runs from a first block number to a last
    one that is not below it. *)
Definition rangesInOrder (this : t) : Prop :=
  Forall (fun range => (first range <= last range)%Z) (emptyBlockRanges this).

(** The hex keys of the transactions of a block. *)
Definition transactionKeys (block : Block) : list string :=
  map (fun transaction => bufferToHex (transactionHashBuffer transaction))
    (transactions block).

(** The block number does not fit the 53 bits of [toNumber]. *)
Definition beyond53Bits (blockNumber : Z) : Prop := (2 ^ 53 <= Z.abs blockNumber)%Z.

End BlockchainData.

Module BlockchainSamples.
Import BlockchainData.

Definition tx1 : TypedTransaction := mkTransaction 0 true [Byte.xa1] "transfer".
Definition tx2 : TypedTransaction := mkTransaction 0 true [Byte.xa2] "mint".

(** An access-list transaction that has not been signed. *)
Definition txUnsigned : TypedTransaction := mkTransaction 1 false [] "draft".

(** A bloom of 2048 bits. *)
Definition bloom0 : Buffer := repeat Byte.x00 256.

Definition block1 : Block :=
  mkBlock (mkHeader 1 bloom0) [tx1; tx2] [Byte.xb1].

(** Another block with the number of [block1]. *)
Definition block1' : Block :=
  mkBlock (mkHeader 1 bloom0) [] [Byte.xb2].

(** A block whose second transaction is not signed. *)
Definition block2 : Block :=
  mkBlock (mkHeader 2 bloom0) [tx1; txUnsigned] [Byte.xb3].

(** A block whose bloom is one byte long. *)
Definition block3 : Block :=
  mkBlock (mkHeader 3 [Byte.x00]) [] [Byte.xb4].

Definition receipt1 : RpcReceiptOutput :=
  mkReceipt (bufferToHex [Byte.xa1]) [mkLog "0xdead" ["Transfer"] "1"].

(** Two empty block ranges: 10 to 20 every 5 seconds, 30 to 40 every 7. *)
Definition ranged : t :=
  addEmptyBlockRange
    (addEmptyBlockRange new (mkEmptyBlockRange 10 20 5))
    (mkEmptyBlockRange 30 40 7).

(** A bloom filter that lets everything through and a log filter that
    keeps everything. *)
Definition passAll (bloom : Buffer) (addresses : list Buffer)
    (normalizedTopics : list (option (list Buffer))) : bool := true.
Definition keepAll (logs : list RpcLogOutput) (filterParams : FilterParams)
    : list RpcLogOutput := logs.

End BlockchainSamples.

(* ===================================================================== *)
(** * Properties *)
(* ===================================================================== *)

(** ** Orders *)

Section ComparisonOrderFacts.
Context {A : Type} (c : A -> A -> comparison) `{!ComparisonOrder c}.


Lemma cmp_eq_sym a b : c a b = Eq -> c b a = Eq.
Proof. intros H. rewrite (cmp_antisym a b), H. reflexivity. Qed.

Lemma cmp_lt_eq_trans a b d : c a b = Lt -> c b d = Eq -> c a d = Lt.
Proof.
  intros Hab Hbd. apply cmp_eq_sym in Hbd.
  rewrite (cmp_antisym d a), (cmp_eq_compat d b a Hbd), (cmp_antisym a b), Hab.
  reflexivity.
Qed.


Lemma cmp_total a b : c a b = Gt -> c b a = Lt.
Proof. intros H. rewrite (cmp_antisym a b), H. reflexivity. Qed.
End ComparisonOrderFacts.

#[global] Instance lexComparison_order {A} (c1 c2 : A -> A -> comparison)
  `{!ComparisonOrder c1, !ComparisonOrder c2} : ComparisonOrder (lexComparison c1 c2).
Proof.
  split; unfold lexComparison.
  - intros a b. rewrite (cmp_antisym (c:=c1) a b), (cmp_antisym (c:=c2) a b).
    destruct (c1 a b); reflexivity.
  - intros a b d. destruct (c1 a b) eqn:E1; try discriminate.
    + rewrite (cmp_eq_compat (c:=c1) a b d E1).
      destruct (c1 b d); try discriminate; [|reflexivity].
      apply cmp_lt_trans.
    + intros _. destruct (c1 b d) eqn:E2; try discriminate; intros _.
      * rewrite (cmp_lt_eq_trans c1 a b d E1 E2). reflexivity.
      * rewrite (cmp_lt_trans (c:=c1) a b d E1 E2). reflexivity.
  - intros a b d. destruct (c1 a b) eqn:E1; try discriminate. intros E2.
    rewrite (cmp_eq_compat (c:=c1) a b d E1), (cmp_eq_compat (c:=c2) a b d E2).
    reflexivity.
Qed.

#[global] Instance on_order {A B} (f : A -> B) (c : B -> B -> comparison)
  `{!ComparisonOrder c} : ComparisonOrder (fun a b => c (f a) (f b)).
Proof.
  split; intros.
  - apply cmp_antisym.
  - eapply cmp_lt_trans; eauto.
  - by apply cmp_eq_compat.
Qed.

#[global] Instance N_compare_order : ComparisonOrder N.compare.
Proof.
  split.
  - intros a b. apply N.compare_antisym.
  - intros a b d. rewrite !N.compare_lt_iff. lia.
  - intros a b d H. apply N.compare_eq in H. by subst.
Qed.

Lemma string_compare_lt_trans (s t u : string) :
  String.compare s t = Lt -> String.compare t u = Lt -> String.compare s u = Lt.
Proof.
  revert t u. induction s as [|a s IH]; intros [|b t] [|d u]; simpl; try congruence.
  unfold Ascii.compare.
  destruct (N.compare_spec (N_of_ascii a) (N_of_ascii b)) as [E1|E1|E1]; try discriminate.
  - rewrite E1. destruct (N_of_ascii b ?= N_of_ascii d)%N; try congruence. apply IH.
  - intros _. destruct (N.compare_spec (N_of_ascii b) (N_of_ascii d)) as [E2|E2|E2]; try discriminate; intros _.
    + rewrite <- E2. by apply N.compare_lt_iff in E1 as ->.
    + assert (N_of_ascii a < N_of_ascii d)%N as ->%N.compare_lt_iff by lia. done.
Qed.

#[global] Instance string_compare_order : ComparisonOrder String.compare.
Proof.
  split.
  - intros a b. apply String.compare_antisym.
  - apply string_compare_lt_trans.
  - intros a b d H. apply String.compare_eq_iff in H. by subst.
Qed.

(** ** Precedence is a total preorder *)

Module PrecedenceFacts.
Import Semver.

#[global] Instance precedence_identifiers_order :
  ComparisonOrder Precedence.compareIdentifiers.
Proof.
  split.
  - intros [x|s] [y|t]; simpl; try reflexivity.
    + apply N.compare_antisym.
    + apply String.compare_antisym.
  - intros [x|s] [y|t] [z|u]; simpl; try congruence.
    + apply (cmp_lt_trans (c:=N.compare)).
    + apply string_compare_lt_trans.
  - intros [x|s] [y|t] d; simpl; try discriminate; intros H.
    + apply N.compare_eq in H. by subst.
    + apply String.compare_eq_iff in H. by subst.
Qed.


#[global] Instance precedence_preLoop_order :
  ComparisonOrder Precedence.comparePreLoop.
Proof.
  split.
  - intros p. induction p as [|a p IH]; intros [|b q]; simpl; try reflexivity.
    rewrite (cmp_antisym (c:=Precedence.compareIdentifiers) a b), IH.
    destruct (Precedence.compareIdentifiers a b); reflexivity.
  - intros p. induction p as [|a p IH]; intros [|b q] [|d r]; simpl; try congruence.
    destruct (Precedence.compareIdentifiers a b) eqn:E1; try discriminate.
    + rewrite (cmp_eq_compat (c:=Precedence.compareIdentifiers) a b d E1).
      destruct (Precedence.compareIdentifiers b d); try discriminate;
        [apply IH | reflexivity].
    + intros _. destruct (Precedence.compareIdentifiers b d) eqn:E2;
        try discriminate; intros _.
      * by rewrite (cmp_lt_eq_trans Precedence.compareIdentifiers a b d E1 E2).
      * by rewrite (cmp_lt_trans (c:=Precedence.compareIdentifiers) a b d E1 E2).
  - intros p. induction p as [|a p IH]; intros [|b q] r; simpl; try discriminate;
      [reflexivity|].
    destruct (Precedence.compareIdentifiers a b) eqn:E1; try discriminate. intros E2.
    destruct r as [|d r]; [reflexivity|].
    rewrite (cmp_eq_compat (c:=Precedence.compareIdentifiers) a b d E1), (IH q r E2).
    reflexivity.
Qed.

(** With a release counted as greater than every prerelease,
    [comparePre] compares the identifier lists. *)
Lemma precedence_pre_cases v w :
  Precedence.comparePre v w =
    match prerelease v, prerelease w with
    | [], [] => Eq
    | [], _ :: _ => Gt
    | _ :: _, [] => Lt
    | p, q => Precedence.comparePreLoop p q
    end.
Proof.
  unfold Precedence.comparePre. destruct (prerelease v), (prerelease w); reflexivity.
Qed.

#[global] Instance precedence_pre_order : ComparisonOrder Precedence.comparePre.
Proof.
  split.
  - intros v w. rewrite !precedence_pre_cases.
    destruct (prerelease v) as [|a p], (prerelease w) as [|b q]; try reflexivity.
    apply (cmp_antisym (c:=Precedence.comparePreLoop)).
  - intros v w u. rewrite !precedence_pre_cases.
    destruct (prerelease v) as [|a p], (prerelease w) as [|b q],
      (prerelease u) as [|d r]; try congruence.
    apply (cmp_lt_trans (c:=Precedence.comparePreLoop)).
  - intros v w u. rewrite !precedence_pre_cases.
    destruct (prerelease v) as [|a p], (prerelease w) as [|b q];
      try discriminate; [reflexivity|].
    intros E. destruct (prerelease u) as [|d r]; [reflexivity|].
    by apply (cmp_eq_compat (c:=Precedence.comparePreLoop)).
Qed.

Lemma precedence_versions_lex v w :
  Precedence.compareVersions v w =
    lexComparison (fun a b => N.compare (major a) (major b))
      (lexComparison (fun a b => N.compare (minor a) (minor b))
         (lexComparison (fun a b => N.compare (patch a) (patch b))
            Precedence.comparePre)) v w.
Proof.
  unfold Precedence.compareVersions, compareMain, lexComparison.
  destruct (major v ?= major w)%N, (minor v ?= minor w)%N,
    (patch v ?= patch w)%N; reflexivity.
Qed.

#[global] Instance precedence_versions_order :
  ComparisonOrder Precedence.compareVersions.
Proof.
  pose proof (lexComparison_order (fun a b => N.compare (major a) (major b))
      (lexComparison (fun a b => N.compare (minor a) (minor b))
         (lexComparison (fun a b => N.compare (patch a) (patch b))
            Precedence.comparePre))) as H.
  split; intros; rewrite !precedence_versions_lex.
  - apply cmp_antisym.
  - eapply cmp_lt_trans; rewrite <- ?precedence_versions_lex; eauto.
  - apply cmp_eq_compat. by rewrite <- precedence_versions_lex.
Qed.




End PrecedenceFacts.

(** ** [semver.compare] *)

Module SemverFacts.
Import Semver.


(** Beyond [2^53] a double does not tell neighbours apart. *)
Example toDouble_rounds :
  toDouble (2 ^ 53 + 1) = (2 ^ 53)%N
  /\ toDouble (2 ^ 53 + 2) = (2 ^ 53 + 2)%N
  /\ toDouble (2 ^ 53 + 3) = (2 ^ 53 + 4)%N
  /\ toDouble 9007199254740993 = toDouble 9007199254740992.
Proof. by vm_compute. Qed.

Lemma compareIdentifiers_antisym a b :
  compareIdentifiers b a = CompOpp (compareIdentifiers a b).
Proof.
  destruct a as [x|s], b as [y|t]; simpl; try reflexivity.
  - apply N.compare_antisym.
  - apply String.compare_antisym.
Qed.

Lemma comparePreLoop_antisym p : forall q,
  comparePreLoop q p = CompOpp (comparePreLoop p q).
Proof.
  induction p as [|a p IH]; intros [|b q]; simpl; try reflexivity.
  destruct (decide (a = b)) as [->|Hne].
  - rewrite !bool_decide_eq_true_2 by done. apply IH.
  - rewrite !bool_decide_eq_false_2 by done. apply compareIdentifiers_antisym.
Qed.


Lemma comparePre_antisym v w : comparePre w v = CompOpp (comparePre v w).
Proof.
  unfold comparePre.
  destruct (prerelease v) as [|a p] eqn:Ev, (prerelease w) as [|b q] eqn:Ew;
    try reflexivity.
  apply comparePreLoop_antisym.
Qed.

#[global] Instance compareMain_order : ComparisonOrder compareMain.
Proof.
  pose proof (lexComparison_order (fun a b : SemVer => N.compare (major a) (major b))
      (lexComparison (fun a b => N.compare (minor a) (minor b))
         (fun a b => N.compare (patch a) (patch b)))) as H.
  assert (forall v w, compareMain v w
            = lexComparison (fun a b : SemVer => N.compare (major a) (major b))
                (lexComparison (fun a b => N.compare (minor a) (minor b))
                   (fun a b => N.compare (patch a) (patch b))) v w) as Hlex.
  { intros v w. unfold compareMain, lexComparison.
    destruct (major v ?= major w)%N, (minor v ?= minor w)%N; reflexivity. }
  split; intros; rewrite !Hlex.
  - apply cmp_antisym.
  - eapply cmp_lt_trans; rewrite <- ?Hlex; eauto.
  - apply cmp_eq_compat. by rewrite <- Hlex.
Qed.

Lemma compareVersions_antisym v w :
  compareVersions w v = CompOpp (compareVersions v w).
Proof.
  unfold compareVersions.
  rewrite (cmp_antisym (c:=compareMain) v w), (comparePre_antisym v w).
  by destruct (compareMain v w).
Qed.




Lemma lt_lte v w : lt v w = negb (lte w v).
Proof.
  unfold lt, lte, compare. rewrite (compareVersions_antisym v w).
  destruct (compareVersions v w); reflexivity.
Qed.

(** Releases compare by their three numbers. *)
Lemma lt_release a b c a' b' c' :
  lt (release a b c) (release a' b' c') = true <->
  (a < a' \/ (a = a' /\ (b < b' \/ (b = b' /\ c < c'))))%N.
Proof.
  unfold lt, compare, compareVersions, compareMain, comparePre; simpl.
  destruct (N.compare_spec a a'), (N.compare_spec b b'), (N.compare_spec c c');
    simpl; split; intros; try lia; try discriminate; try reflexivity.
Qed.





End SemverFacts.

(** ** The task monad *)

Section MonadFacts.
Context {A B : Type}.

Lemma trace_bind (m : M A) (k : A -> M B) :
  trace (bind m k) =
    trace m ++ match outcome m with Done a => trace (k a) | _ => [] end.
Proof.
  destruct m as [tr [a|e|]]; simpl; rewrite ?app_nil_r; try reflexivity.
  destruct (k a); reflexivity.
Qed.

Lemma outcome_bind (m : M A) (k : A -> M B) :
  outcome (bind m k) =
    match outcome m with
    | Done a => outcome (k a)
    | Thrown e => Thrown e
    | Pending => Pending
    end.
Proof. destruct m as [tr [a|e|]]; simpl; try reflexivity. destruct (k a); reflexivity. Qed.

Lemma outcome_bind_Done (m : M A) (k : A -> M B) (b : B) :
  outcome (bind m k) = Done b ->
  exists a, outcome m = Done a /\ outcome (k a) = Done b.
Proof. rewrite outcome_bind. destruct (outcome m); try discriminate. eauto. Qed.

End MonadFacts.

Lemma executedJobs_app tr1 tr2 :
  executedJobs (tr1 ++ tr2) = executedJobs tr1 ++ executedJobs tr2.
Proof. apply flat_map_app. Qed.

Lemma savedArtifacts_app tr1 tr2 :
  savedArtifacts (tr1 ++ tr2) = savedArtifacts tr1 ++ savedArtifacts tr2.
Proof. apply flat_map_app. Qed.

Lemma savedBuildInfos_app tr1 tr2 :
  savedBuildInfos (tr1 ++ tr2) = savedBuildInfos tr1 + savedBuildInfos tr2.
Proof. unfold savedBuildInfos. by rewrite List.filter_app, length_app. Qed.

(** ** Sorting with a comparator *)

Section ArraySortFacts.
Context {A : Type} (compareFn : A -> A -> Z).

Hypothesis compareFn_total :
  forall a b, (0 < compareFn a b)%Z -> (compareFn b a <= 0)%Z.
Hypothesis compareFn_trans :
  forall a b c, (compareFn a b <= 0)%Z -> (compareFn b c <= 0)%Z ->
                (compareFn a c <= 0)%Z.

Lemma insertSorted_Permutation x l :
  Permutation (insertSorted compareFn x l) (x :: l).
Proof.
  induction l as [|y l IH]; simpl; [reflexivity|].
  destruct (compareFn x y <=? 0)%Z; [reflexivity|].
  rewrite IH. apply perm_swap.
Qed.

Lemma arraySort_Permutation l : Permutation (arraySort compareFn l) l.
Proof.
  induction l as [|x l IH]; simpl; [reflexivity|].
  rewrite insertSorted_Permutation. by constructor.
Qed.






End ArraySortFacts.

(** ** Which events a sub-task can produce *)

Section TraceForall.
Context (P : Event -> Prop).

Lemma Forall_trace_bind {A B} (m : M A) (k : A -> M B) :
  Forall P (trace m) ->
  (forall a, outcome m = Done a -> Forall P (trace (k a))) ->
  Forall P (trace (bind m k)).
Proof.
  intros Hm Hk. rewrite trace_bind. apply Forall_app. split; [exact Hm|].
  destruct (outcome m); auto.
Qed.

Lemma Forall_trace_ret {A} (a : A) : Forall P (trace (ret a)).
Proof. constructor. Qed.

Lemma Forall_trace_throw {A} e : Forall P (trace (@throw A e)).
Proof. constructor. Qed.

Lemma Forall_trace_never {A} : Forall P (trace (@never A)).
Proof. constructor. Qed.

Lemma Forall_trace_emit e : P e -> Forall P (trace (emit e)).
Proof. by repeat constructor. Qed.
End TraceForall.

(** Walks through a task made of [bind], [emit], [ret], [throw] and
    case distinctions. *)
Ltac trace_forall :=
  repeat match goal with
    | |- Forall _ (trace (ret _)) => apply Forall_trace_ret
    | |- Forall _ (trace (throw _)) => apply Forall_trace_throw
    | |- Forall _ (trace never) => apply Forall_trace_never
    | |- Forall _ (trace (emit _)) => apply Forall_trace_emit; reflexivity
    | |- Forall _ (trace (bind _ _)) => apply Forall_trace_bind; [|intros ? ?]
    | |- Forall _ (trace _) => assumption
    | |- Forall _ (trace _) => progress case_match
    end.

Lemma checkSolcBinary_events env solcPath :
  Forall (fun e => isCompilerEvent e = true) (trace (checkSolcBinary env solcPath)).
Proof. unfold checkSolcBinary. trace_forall. Qed.

Lemma GET_SOLC_BUILD_events env quiet solcVersion :
  Forall (fun e => isCompilerEvent e || isConsoleEvent e = true)
    (trace (TASK_COMPILE_SOLIDITY_GET_SOLC_BUILD env quiet solcVersion)).
Proof.
  unfold TASK_COMPILE_SOLIDITY_GET_SOLC_BUILD,
    TASK_COMPILE_SOLIDITY_LOG_DOWNLOAD_COMPILER_START,
    TASK_COMPILE_SOLIDITY_LOG_DOWNLOAD_COMPILER_END.
  trace_forall;
    (eapply Forall_impl; [apply checkSolcBinary_events|]; by intros e ->).
Qed.

Lemma COMPILE_SOLC_events env input quiet solcVersion job jobs i :
  Forall (fun e => isCompilerEvent e || isConsoleEvent e = true)
    (trace (TASK_COMPILE_SOLIDITY_COMPILE_SOLC env input quiet solcVersion job jobs i)).
Proof.
  unfold TASK_COMPILE_SOLIDITY_COMPILE_SOLC,
    TASK_COMPILE_SOLIDITY_LOG_RUN_COMPILER_START,
    TASK_COMPILE_SOLIDITY_LOG_RUN_COMPILER_END,
    TASK_COMPILE_SOLIDITY_RUN_SOLC, TASK_COMPILE_SOLIDITY_RUN_SOLCJS.
  trace_forall; apply GET_SOLC_BUILD_events.
Qed.

Lemma LOG_COMPILATION_ERRORS_events output quiet :
  Forall (fun e => isConsoleEvent e = true)
    (trace (TASK_COMPILE_SOLIDITY_LOG_COMPILATION_ERRORS output quiet)).
Proof.
  unfold TASK_COMPILE_SOLIDITY_LOG_COMPILATION_ERRORS.
  destruct (outputErrors output) as [errs|]; [|constructor].
  apply Forall_trace_bind.
  - simpl. apply Forall_forall. intros e [d [-> _]]%list_elem_of_fmap.
    unfold logDiagnostic. by case_bool_decide.
  - intros _ _. trace_forall.
Qed.

Lemma CHECK_ERRORS_events output quiet :
  Forall (fun e => isConsoleEvent e = true)
    (trace (TASK_COMPILE_SOLIDITY_CHECK_ERRORS output quiet)).
Proof.
  unfold TASK_COMPILE_SOLIDITY_CHECK_ERRORS.
  apply Forall_trace_bind; [apply LOG_COMPILATION_ERRORS_events|].
  intros. trace_forall.
Qed.

Lemma emitContracts_events sourceName pathToBuildInfo entries :
  Forall (fun e => isEmitEvent e = true)
    (trace (emitContracts sourceName pathToBuildInfo entries)).
Proof.
  induction entries as [|[name out] rest IH]; cbn [emitContracts]; [constructor|].
  unfold TASK_COMPILE_SOLIDITY_GET_ARTIFACT_FROM_COMPILATION_OUTPUT. trace_forall.
Qed.

Lemma emitFiles_events job output pathToBuildInfo files :
  Forall (fun e => isEmitEvent e = true)
    (trace (emitFiles job output pathToBuildInfo files)).
Proof.
  induction files as [|f rest IH]; cbn [emitFiles]; [constructor|].
  destruct (emitsArtifacts job f); cbn [negb]; [|exact IH].
  trace_forall. apply emitContracts_events.
Qed.

Lemma EMIT_ARTIFACTS_events env job input output solcBuild :
  Forall (fun e => isEmitEvent e = true)
    (trace (TASK_COMPILE_SOLIDITY_EMIT_ARTIFACTS env job input output solcBuild)).
Proof.
  unfold TASK_COMPILE_SOLIDITY_EMIT_ARTIFACTS. trace_forall. apply emitFiles_events.
Qed.

Lemma executedJobs_job_steps tr :
  Forall (fun e => isJobStepEvent e = true) tr -> executedJobs tr = [].
Proof.
  induction 1 as [|e tr He _ IH]; [reflexivity|].
  unfold executedJobs in *. simpl. rewrite IH. by destruct e.
Qed.

(** The trace of the compilation of one job: its start, then events of
    the compiler, the console and the artifact store. *)
Lemma COMPILE_JOB_trace env job jobs i quiet emits :
  exists steps,
    trace (TASK_COMPILE_SOLIDITY_COMPILE_JOB env job jobs i quiet emits)
      = RunCompileJob job i :: steps
    /\ Forall (fun e => isJobStepEvent e = true) steps.
Proof.
  unfold TASK_COMPILE_SOLIDITY_COMPILE_JOB. rewrite trace_bind.
  unfold emit at 1 2. cbn [trace outcome fst snd app].
  eexists; split; [reflexivity|].
  unfold TASK_COMPILE_SOLIDITY_GET_COMPILER_INPUT, TASK_COMPILE_SOLIDITY_COMPILE.
  apply Forall_trace_bind; [constructor|]. intros input _.
  apply Forall_trace_bind.
  { eapply Forall_impl; [apply COMPILE_SOLC_events|].
    intros e He. unfold isJobStepEvent. by rewrite He. }
  intros [output solcBuild] _.
  apply Forall_trace_bind.
  { eapply Forall_impl; [apply CHECK_ERRORS_events|].
    intros e He. unfold isJobStepEvent. rewrite He. by rewrite orb_true_r. }
  intros _ _. apply Forall_trace_bind; [|intros; constructor].
  destruct emits; [|constructor].
  eapply Forall_impl; [apply EMIT_ARTIFACTS_events|].
  intros e He. unfold isJobStepEvent. rewrite He. by rewrite orb_true_r.
Qed.

Lemma executedJobs_COMPILE_JOB env job jobs i quiet emits :
  executedJobs (trace (TASK_COMPILE_SOLIDITY_COMPILE_JOB env job jobs i quiet emits))
    = [job].
Proof.
  destruct (COMPILE_JOB_trace env job jobs i quiet emits) as (steps & -> & H).
  change (executedJobs (RunCompileJob job i :: steps)) with (job :: executedJobs steps).
  by rewrite executedJobs_job_steps.
Qed.

(** ** Which errors a sub-task can throw *)

Section ThrownOnly.
Context (P : HardhatError -> Prop).

Lemma throwsOnly_bind {A B} (m : M A) (k : A -> M B) :
  throwsOnly P m -> (forall a, outcome m = Done a -> throwsOnly P (k a)) ->
  throwsOnly P (bind m k).
Proof.
  intros Hm Hk e. rewrite outcome_bind.
  destruct (outcome m) as [a|e'|] eqn:E; [by apply Hk | | discriminate].
  intros [= <-]. by apply Hm.
Qed.

Lemma throwsOnly_ret {A} (a : A) : throwsOnly P (ret a).
Proof. intros e [=]. Qed.

Lemma throwsOnly_never {A} : throwsOnly P (@never A).
Proof. intros e [=]. Qed.

Lemma throwsOnly_emit ev : throwsOnly P (emit ev).
Proof. intros e [=]. Qed.

Lemma throwsOnly_throw {A} e : P e -> throwsOnly P (@throw A e).
Proof. by intros He e' [= <-]. Qed.
End ThrownOnly.

Ltac throws_only :=
  repeat match goal with
    | |- throwsOnly _ (ret _) => apply throwsOnly_ret
    | |- throwsOnly _ never => apply throwsOnly_never
    | |- throwsOnly _ (emit _) => apply throwsOnly_emit
    | |- throwsOnly _ (throw _) => apply throwsOnly_throw; reflexivity
    | |- throwsOnly _ (bind _ _) => apply throwsOnly_bind; [|intros ? ?]
    | |- throwsOnly _ _ => assumption
    | |- throwsOnly _ _ => progress case_match
    end.

Lemma GET_SOLC_BUILD_throws env quiet solcVersion :
  throwsOnly (fun e => isUnsupportedVersionError e = false)
    (TASK_COMPILE_SOLIDITY_GET_SOLC_BUILD env quiet solcVersion).
Proof.
  unfold TASK_COMPILE_SOLIDITY_GET_SOLC_BUILD,
    TASK_COMPILE_SOLIDITY_LOG_DOWNLOAD_COMPILER_START,
    TASK_COMPILE_SOLIDITY_LOG_DOWNLOAD_COMPILER_END.
  throws_only; unfold checkSolcBinary; throws_only.
Qed.

(** ** The cache check *)

Lemma hasFileChanged_false (cache : gmap string CacheEntry) file solcConfig :
  SolidityFilesCache.hasFileChanged cache (absolutePath file) (contentHash file)
    solcConfig = false
  <-> cachedUnchanged cache file solcConfig.
Proof.
  unfold SolidityFilesCache.hasFileChanged, SolidityFilesCache.getEntry, cachedUnchanged.
  destruct (cache !! absolutePath file) as [entry|] eqn:E.
  - case_bool_decide as Hh; simpl.
    + destruct solcConfig as [cfg|].
      * case_bool_decide as Hc; simpl.
        -- split; [|done]. intros _. exists entry. split_and!; try done.
           by intros ? [= <-].
        -- split; [discriminate|].
           intros (e & [= <-] & _ & Hcfg). by rewrite (Hcfg cfg eq_refl) in Hc.
      * split; [|done]. intros _. exists entry. by split_and!.
    + split; [discriminate|]. by intros (e & [= <-] & ? & _).
  - split; [discriminate|]. by intros (e & ? & _).
Qed.

Section NeedsCompilationFacts.
Variable hasFileChanged : string -> string -> option SolcConfig -> bool.

Lemma needsCompilationLoop_result job files :
  snd (needsCompilationLoop hasFileChanged job files)
    = existsb (fileChanged hasFileChanged job) files.
Proof.
  induction files as [|f rest IH]; [reflexivity|]. cbn [needsCompilationLoop existsb].
  fold (configChecked job f).
  destruct (fileChanged hasFileChanged job f) eqn:E; unfold fileChanged in E;
    rewrite E; [reflexivity|].
  destruct (needsCompilationLoop hasFileChanged job rest). exact IH.
Qed.

End NeedsCompilationFacts.

Lemma needsCompilation_false job cache :
  needsCompilation job cache = false
  <-> forall f, In f (getResolvedFiles job) ->
        cachedUnchanged cache f (configChecked job f).
Proof.
  unfold needsCompilation. rewrite needsCompilationLoop_result.
  rewrite <- not_true_iff_false, existsb_exists. split.
  - intros H f Hf. apply hasFileChanged_false.
    destruct (SolidityFilesCache.hasFileChanged cache (absolutePath f)
                (contentHash f) (configChecked job f)) eqn:E; [|done].
    exfalso. apply H. by exists f.
  - intros H (f & Hf & Hc). apply H, hasFileChanged_false in Hf.
    unfold fileChanged in Hc. congruence.
Qed.

Lemma list_filter_sublist {A} (p : A -> bool) l : sublist (List.filter p l) l.
Proof.
  induction l as [|x l IH]; simpl; [constructor|].
  destruct (p x); by constructor.
Qed.

(** C1, as stated, fails.  [A.sol] emits artifacts and its cache entry is
    valid, hash and config; its dependency [B.sol] has no cache entry.
    Every artifact-emitting file of the job passes the check, and yet the
    job is kept. *)
Lemma filter_keeps_job_with_changed_dependency :
  let cache : gmap string CacheEntry :=
    {[ absolutePath Sample.fileA := Sample.entryA ]} in
  (forall f, In f (getResolvedFiles Sample.jobA) ->
     emitsArtifacts Sample.jobA f = true ->
     cachedUnchanged cache f (Some (getSolcConfig Sample.jobA)))
  /\ TASK_COMPILE_SOLIDITY_FILTER_COMPILATION_JOBS [Sample.jobA] false (Some cache)
     = ret [Sample.jobA].
Proof.
  split; [|reflexivity].
  intros f [<-|[<-|[]]] Hemits; [|discriminate].
  exists Sample.entryA. split_and!; [reflexivity | reflexivity |].
  by intros cfg [= <-].
Qed.

(** C1, amended.  With [force] off and a defined cache, the filter returns
    the input jobs in their order, each one untouched, without those
    dropped; a job is dropped exactly when every one of its input files
    passes the cache check: an entry exists for the file, its stored
    content hash matches, and, for a file that emits artifacts, its stored
    solc config matches the job's. *)
Theorem filter_drops_jobs_with_all_files_unchanged
    (compilationJobs : list CompilationJob) (cache : gmap string CacheEntry) :
  TASK_COMPILE_SOLIDITY_FILTER_COMPILATION_JOBS compilationJobs false (Some cache)
  = ret (filter (fun job => ~ allFilesUnchanged cache job) compilationJobs).
Proof.
  unfold TASK_COMPILE_SOLIDITY_FILTER_COMPILATION_JOBS. f_equal.
  induction compilationJobs as [|job rest IH]; [reflexivity|].
  cbn [List.filter]. rewrite filter_cons, IH.
  assert (needsCompilation job cache = false <-> allFilesUnchanged cache job) as Hjob.
  { rewrite needsCompilation_false. unfold allFilesUnchanged. rewrite Forall_forall.
    split; intros H f Hf; apply H; by apply list_elem_of_In. }
  destruct (needsCompilation job cache).
  - rewrite decide_True; [reflexivity|]. intros H. by apply Hjob in H.
  - rewrite decide_False; [reflexivity|]. intros H. by apply H, Hjob.
Qed.

(** A job listed twice is kept twice. *)
Example filter_sample_repeated_job :
  TASK_COMPILE_SOLIDITY_FILTER_COMPILATION_JOBS [Sample.jobA; Sample.jobA] false (Some ∅)
  = ret [Sample.jobA; Sample.jobA].
Proof. reflexivity. Qed.


(** With every file cached as it is, the job of [A.sol] is dropped; a
    job compiled with another config than the cached one is kept; with
    [force] nothing is dropped. *)
Example filter_sample_all_cached :
  TASK_COMPILE_SOLIDITY_FILTER_COMPILATION_JOBS
    [Sample.jobA; Sample.jobOld] false (Some Sample.fullCache)
  = ret [Sample.jobOld].
Proof. reflexivity. Qed.

Example filter_sample_forced :
  TASK_COMPILE_SOLIDITY_FILTER_COMPILATION_JOBS
    [Sample.jobA; Sample.jobOld] true (Some Sample.fullCache)
  = ret [Sample.jobA; Sample.jobOld].
Proof. reflexivity. Qed.

(** The queries for the job of [A.sol]: with the config for [A.sol],
    without for its dependency [B.sol]. *)
Example needs_compilation_sample_queries :
  needsCompilationQueries Sample.jobA Sample.fullCache
  = [("/project/contracts/A.sol", "hashA", Some Sample.config0817);
     ("/project/contracts/B.sol", "hashB", None)].
Proof. reflexivity. Qed.

(** A dependency cached under another config does not count as changed. *)
Example dependency_config_not_compared :
  needsCompilation Sample.jobA
    (<[absolutePath Sample.fileB := cacheEntryOf Sample.jobOld Sample.fileB ["B"]]>
       Sample.fullCache)
  = false.
Proof. reflexivity. Qed.

(** ** Invalidation of cache entries with missing artifacts *)

Lemma someArtifactMissing_spec env sourceName emittedArtifacts :
  someArtifactMissing env sourceName emittedArtifacts = true
  <-> exists a, In a emittedArtifacts
        /\ artifactExists env (getFullyQualifiedName sourceName a) = false.
Proof.
  induction emittedArtifacts as [|a rest IH]; simpl.
  - split; [discriminate|]. by intros (? & [] & _).
  - destruct (artifactExists env (getFullyQualifiedName sourceName a)) eqn:E; simpl.
    + rewrite IH. split.
      * intros (b & Hb & Hm). eauto.
      * intros (b & [<-|Hb] & Hm); [congruence|eauto].
    + split; [|done]. intros _. eauto.
Qed.

Lemma invalidateCacheMissingArtifacts_lookup env resolvedFiles :
  forall (cache : gmap string CacheEntry) path,
    invalidateCacheMissingArtifacts env cache resolvedFiles !! path
    = match cache !! path with
      | None => None
      | Some entry =>
          if existsb (fun f => bool_decide (absolutePath f = path)
                               && someArtifactMissing env (sourceName f) (artifacts entry))
               resolvedFiles
          then None else Some entry
      end.
Proof.
  induction resolvedFiles as [|f rest IH]; intros cache path;
    cbn [invalidateCacheMissingArtifacts existsb].
  - by destruct (cache !! path).
  - unfold SolidityFilesCache.getEntry, SolidityFilesCache.removeEntry.
    destruct (cache !! absolutePath f) as [ce|] eqn:Ef.
    + destruct (someArtifactMissing env (sourceName f) (artifacts ce)) eqn:Em.
      * rewrite IH. destruct (decide (absolutePath f = path)) as [<-|Hne].
        -- rewrite lookup_delete_eq, Ef, bool_decide_eq_true_2, Em by done. done.
        -- rewrite lookup_delete_ne by done.
           by rewrite (bool_decide_eq_false_2 _ Hne).
      * rewrite IH. destruct (decide (absolutePath f = path)) as [<-|Hne].
        -- by rewrite Ef, bool_decide_eq_true_2, Em.
        -- by rewrite (bool_decide_eq_false_2 _ Hne).
    + rewrite IH. destruct (decide (absolutePath f = path)) as [<-|Hne].
      * by rewrite Ef.
      * by rewrite (bool_decide_eq_false_2 _ Hne).
Qed.

(** C4. After [invalidateCacheMissingArtifacts], the entry at a path is
    gone exactly when it existed and one of its recorded artifacts is
    missing from the artifact store for a resolved file with that path;
    every other entry is as it was: those whose recorded artifacts all
    exist and those of paths that are not among the resolved files. *)
Theorem invalidate_removes_exactly_entries_with_missing_artifact
    (env : Env) (cache : gmap string CacheEntry)
    (resolvedFiles : list ResolvedFile) (path : string) :
  let cache' := invalidateCacheMissingArtifacts env cache resolvedFiles in
  ((is_Some (cache !! path) /\ cache' !! path = None)
     <-> artifactMissingFor env cache resolvedFiles path)
  /\ (~ artifactMissingFor env cache resolvedFiles path ->
      cache' !! path = cache !! path)
  /\ ((forall f, In f resolvedFiles -> absolutePath f <> path) ->
      cache' !! path = cache !! path).
Proof.
  cbv zeta. rewrite invalidateCacheMissingArtifacts_lookup.
  assert (forall entry, cache !! path = Some entry ->
            existsb (fun f => bool_decide (absolutePath f = path)
                       && someArtifactMissing env (sourceName f) (artifacts entry))
              resolvedFiles = true
            <-> artifactMissingFor env cache resolvedFiles path) as Hex.
  { intros entry He. rewrite existsb_exists. unfold artifactMissingFor. split.
    - intros (f & Hf & [Hp Hm]%andb_true_iff).
      apply bool_decide_eq_true_1 in Hp. apply someArtifactMissing_spec in Hm.
      destruct Hm as (a & Ha & Hm). by exists entry, f, a.
    - intros (e & f & a & He' & Hf & Hp & Ha & Hm). exists f. split; [done|].
      assert (e = entry) as -> by congruence.
      apply andb_true_iff. split; [by apply bool_decide_eq_true_2|].
      apply someArtifactMissing_spec. eauto. }
  destruct (cache !! path) as [entry|] eqn:E.
  - specialize (Hex entry eq_refl).
    destruct (existsb _ resolvedFiles) eqn:Eb.
    + pose proof (proj1 Hex eq_refl) as Hm. split_and!.
      * split; [done|]. intros _. by split.
      * intros Hno. by destruct Hno.
      * intros Hno. exfalso.
        destruct Hm as (e & f & a & _ & Hf & Hp & _). by apply (Hno f).
    + split_and!; [|done..]. split.
      * intros [_ [=]].
      * by intros Hm%Hex.
  - split_and!; [|done..]. split.
    + intros [[? [=]] _].
    + intros (e & f & a & ? & _). congruence.
Qed.

(** The artifact of [A.sol] was deleted: its entry goes, the others stay. *)
Example invalidate_sample :
  let env := Sample.envWithArtifacts
               (fun name => negb (String.eqb name "contracts/A.sol:A")) in
  invalidateCacheMissingArtifacts env Sample.fullCache (resolvedFilesOfGraph env)
  = <[absolutePath Sample.fileB := Sample.entryB]>
      (<[absolutePath Sample.fileC := Sample.entryC]> ∅).
Proof. vm_compute. reflexivity. Qed.

(** ** Compiler errors *)

Lemma LOG_COMPILATION_ERRORS_outcome output quiet :
  outcome (TASK_COMPILE_SOLIDITY_LOG_COMPILATION_ERRORS output quiet) = Done tt.
Proof.
  unfold TASK_COMPILE_SOLIDITY_LOG_COMPILATION_ERRORS.
  destruct (outputErrors output) as [errs|]; [|reflexivity].
  rewrite outcome_bind. cbn [outcome snd].
  destruct (existsb isConsoleLogError errs); reflexivity.
Qed.

Lemma hasCompilationErrors_spec output :
  hasCompilationErrors output = true <-> hasErrorDiagnostic output.
Proof.
  unfold hasCompilationErrors, hasErrorDiagnostic.
  destruct (outputErrors output) as [errs|].
  - rewrite existsb_exists. split.
    + intros (d & Hd & Hs). apply bool_decide_eq_true_1 in Hs. by exists errs, d.
    + intros (errs' & d & [= <-] & Hd & Hs). exists d. split; [done|].
      by apply bool_decide_eq_true_2.
  - split; [discriminate|]. intros (errs' & d & [=] & _).
Qed.

(** C5. [TASK_COMPILE_SOLIDITY_CHECK_ERRORS] throws the compilation
    failure exactly when the compiler output holds a diagnostic of
    severity [error]; otherwise (only warnings, no diagnostics, or no
    [errors] field) it completes. *)
Theorem check_errors_throws_iff_error_diagnostic
    (output : CompilerOutput) (quiet : bool) :
  (outcome (TASK_COMPILE_SOLIDITY_CHECK_ERRORS output quiet) = Thrown COMPILE_FAILURE
     <-> hasErrorDiagnostic output)
  /\ (outcome (TASK_COMPILE_SOLIDITY_CHECK_ERRORS output quiet) = Done tt
     <-> ~ hasErrorDiagnostic output).
Proof.
  unfold TASK_COMPILE_SOLIDITY_CHECK_ERRORS.
  rewrite outcome_bind, LOG_COMPILATION_ERRORS_outcome, <- hasCompilationErrors_spec.
  destruct (hasCompilationErrors output); cbn [outcome throw ret snd];
    split; split; try done.
Qed.

Example check_errors_warning_only :
  outcome (TASK_COMPILE_SOLIDITY_CHECK_ERRORS
             (mkCompilerOutput (Some [Sample.warning]) None) false) = Done tt.
Proof. reflexivity. Qed.

Example check_errors_type_error :
  TASK_COMPILE_SOLIDITY_CHECK_ERRORS
    (mkCompilerOutput (Some [Sample.warning; Sample.typeError]) None) false
  = ([Console (YellowDiagnostic Sample.warning);
      Console (RedDiagnostic Sample.typeError)], Thrown COMPILE_FAILURE).
Proof. reflexivity. Qed.

(** ** Compiler acquisition *)

(** Takes apart the conjunctions, disjunctions and existentials among
    the hypotheses. *)
Ltac destruct_hyps :=
  repeat match goal with
    | H : _ /\ _ |- _ => destruct H
    | H : ex _ |- _ => destruct H
    | H : _ \/ _ |- _ => destruct H
    | H : False |- _ => destruct H
    end.


Lemma checkSolcBinary_trace env solcPath :
  trace (checkSolcBinary env solcPath) = [Exec (versionCommand solcPath)].
Proof.
  unfold checkSolcBinary, versionCommand. rewrite trace_bind. cbn [outcome trace emit fst snd].
  by destruct (execProcess env _).
Qed.

(** Goes through the cases of the acquisition: whether the compiler was
    downloaded before, the two answers of the downloader, the platform of
    the first answer and how the probe ends. *)
Ltac get_solc_build_cases env solcVersion :=
  unfold TASK_COMPILE_SOLIDITY_GET_SOLC_BUILD, nativeBinaryFails, fallbackUsed,
    TASK_COMPILE_SOLIDITY_LOG_DOWNLOAD_COMPILER_START,
    TASK_COMPILE_SOLIDITY_LOG_DOWNLOAD_COMPILER_END, checkSolcBinary, versionCommand;
  destruct (getCompilerBuild env solcVersion) as [long desired];
  destruct (isCompilerDownloaded env solcVersion);
  destruct (getDownloadedCompilerPath env false solcVersion) as [[path platform]|];
  destruct (getDownloadedCompilerPath env true solcVersion) as [[jsPath jsPlatform]|];
  cbn [resultPlatform resultCompilerPath snd fst];
  repeat case_bool_decide; cbn [negb];
  try match goal with
      | |- context [execProcess env ?command] =>
          destruct (execProcess env command) as [code ms|]
      end;
  repeat case_bool_decide; simpl.

(** Closes a case: takes the hypotheses apart and compares the events. *)
Ltac close_case :=
  intros; destruct_hyps; simplify_eq; simpl;
  repeat match goal with
    | |- _ /\ _ => split
    | |- _ <-> _ => split
    end;
  intros; destruct_hyps; simplify_eq; try done;
  try (by auto 10); by eexists _, _.

(** The solcjs downloader is asked exactly when the native binary is
    unavailable or its probe fails. *)
Lemma GET_SOLC_BUILD_fallback (env : Env) (quiet : bool) (solcVersion : SemVer) :
  nativeBinaryFails env solcVersion
  <-> fallbackUsed solcVersion
        (trace (TASK_COMPILE_SOLIDITY_GET_SOLC_BUILD env quiet solcVersion)).
Proof. get_solc_build_cases env solcVersion; split; close_case. Qed.

(** The fallback.  If the downloader has no compiler (and the build wanted
    is not the WASM one) or the probe of its native binary fails,
    [TASK_COMPILE_SOLIDITY_GET_SOLC_BUILD] asks the solcjs downloader for
    the same version, and only then; if that gives no compiler either it
    throws [CANT_GET_COMPILER], else it returns the solcjs build, with
    [isSolcJs] true. *)
Theorem get_solc_build_falls_back_to_solcjs
    (env : Env) (quiet : bool) (solcVersion : SemVer) :
  let run := TASK_COMPILE_SOLIDITY_GET_SOLC_BUILD env quiet solcVersion in
  (nativeBinaryFails env solcVersion <-> fallbackUsed solcVersion (trace run))
  /\ (nativeBinaryFails env solcVersion ->
      match getDownloadedCompilerPath env true solcVersion with
      | None => outcome run = Thrown (CANT_GET_COMPILER solcVersion)
      | Some solcjs =>
          outcome run
          = Done {| compilerPath := resultCompilerPath solcjs;
                    isSolcJs := true;
                    buildVersion := solcVersion;
                    longVersion := fst (getCompilerBuild env solcVersion) |}
      end)
  /\ (forall build, outcome run = Done build ->
        (isSolcJs build = true <-> fallbackUsed solcVersion (trace run))
        /\ buildVersion build = solcVersion).
Proof.
  cbv zeta. split; [apply GET_SOLC_BUILD_fallback|].
  get_solc_build_cases env solcVersion; split; close_case.
Qed.

(** On the sample machine the native binary exits with code 1: the
    solcjs build is fetched and returned. *)
Lemma get_solc_build_falls_back_to_solcjs_witness :
  let env := Sample.envWithProbe (Exits (Some 1%Z) 10) in
  nativeBinaryFails env Sample.v0_8_17
  /\ outcome (TASK_COMPILE_SOLIDITY_GET_SOLC_BUILD env false Sample.v0_8_17)
     = Done {| compilerPath := "/compilers/soljson.js";
               isSolcJs := true;
               buildVersion := Sample.v0_8_17;
               longVersion := "0.8.17+commit.8df45f5f" |}.
Proof.
  assert (nativeBinaryFails (Sample.envWithProbe (Exits (Some 1%Z) 10)) Sample.v0_8_17)
    as Hfails.
  { split; [discriminate|]. exists (Some 1%Z), 10%N. split; [reflexivity|discriminate]. }
  split; [exact Hfails|].
  exact (proj1 (proj2 (get_solc_build_falls_back_to_solcjs
                         (Sample.envWithProbe (Exits (Some 1%Z) 10)) false
                         Sample.v0_8_17)) Hfails).
Defined.

(** When the downloader's first answer is already the WASM build there is
    no probe and no fallback, and the build is returned with [isSolcJs]
    false. *)
Lemma get_solc_build_first_answer_wasm env quiet solcVersion result :
  getDownloadedCompilerPath env false solcVersion = Some result ->
  resultPlatform result = WASM ->
  outcome (TASK_COMPILE_SOLIDITY_GET_SOLC_BUILD env quiet solcVersion)
  = Done {| compilerPath := resultCompilerPath result;
            isSolcJs := false;
            buildVersion := solcVersion;
            longVersion := fst (getCompilerBuild env solcVersion) |}.
Proof.
  intros Hres Hwasm. unfold TASK_COMPILE_SOLIDITY_GET_SOLC_BUILD,
    TASK_COMPILE_SOLIDITY_LOG_DOWNLOAD_COMPILER_START,
    TASK_COMPILE_SOLIDITY_LOG_DOWNLOAD_COMPILER_END.
  rewrite Hres. destruct (getCompilerBuild env solcVersion) as [long desired].
  rewrite Hwasm. by destruct (isCompilerDownloaded env solcVersion).
Qed.

(** C6.  On a machine for which the compiler list has only the WASM build
    of 0.8.17, the downloader's first answer is the solcjs module.
    [TASK_COMPILE_SOLIDITY_GET_SOLC_BUILD] returns its path with
    [isSolcJs] false: [platform] is set on the fallback path only, never
    from the platform of the downloader's answer.  The portable build is
    the one in use and the flag denies it. *)
Theorem get_solc_build_flags_first_answer_wasm_as_native :
  getDownloadedCompilerPath MoreSamples.envWasmOnly false Sample.v0_8_17
  = Some (mkCompilerPathResult "/compilers/soljson.js" WASM)
  /\ TASK_COMPILE_SOLIDITY_GET_SOLC_BUILD MoreSamples.envWasmOnly false Sample.v0_8_17
     = ([RunGetSolcBuild Sample.v0_8_17;
         DownloaderGetCompilerPath false Sample.v0_8_17],
        Done {| compilerPath := "/compilers/soljson.js";
                isSolcJs := false;
                buildVersion := Sample.v0_8_17;
                longVersion := "0.8.17+commit.8df45f5f" |}).
Proof. split; reflexivity. Qed.

(** ** The probe of the native binary *)




(** ** The guard on the solc version *)

(** C10. For a solc version older than 0.4.11,
    [TASK_COMPILE_SOLIDITY_COMPILE_SOLC] throws the unsupported-version
    error and does nothing else: no compiler is acquired, none is run.
    For a version at or above 0.4.11 the guard does not fire: the task
    goes on to acquire the compiler and never throws that error. *)
Theorem compile_solc_rejects_versions_before_first_supported
    (env : Env) (input : CompilerInput) (quiet : bool) (solcVersion : SemVer)
    (compilationJob : CompilationJob) (compilationJobs : list CompilationJob)
    (compilationJobIndex : nat) :
  let run :=
    TASK_COMPILE_SOLIDITY_COMPILE_SOLC env input quiet solcVersion
      compilationJob compilationJobs compilationJobIndex in
  (Semver.lt solcVersion COMPILE_TASK_FIRST_SOLC_VERSION_SUPPORTED = true ->
     run = ([], Thrown (COMPILE_TASK_UNSUPPORTED_SOLC_VERSION solcVersion
                          COMPILE_TASK_FIRST_SOLC_VERSION_SUPPORTED)))
  /\ (Semver.lte COMPILE_TASK_FIRST_SOLC_VERSION_SUPPORTED solcVersion = true ->
      (exists rest, trace run = RunGetSolcBuild solcVersion :: rest)
      /\ forall e, outcome run = Thrown e -> isUnsupportedVersionError e = false).
Proof.
  cbv zeta. unfold TASK_COMPILE_SOLIDITY_COMPILE_SOLC.
  rewrite SemverFacts.lt_lte.
  destruct (Semver.lte COMPILE_TASK_FIRST_SOLC_VERSION_SUPPORTED solcVersion);
    cbn [negb]; split; try done. intros _. split.
  - rewrite trace_bind.
    unfold TASK_COMPILE_SOLIDITY_GET_SOLC_BUILD at 1. rewrite trace_bind.
    cbn [trace emit fst app]. eauto.
  - change (throwsOnly (fun e => isUnsupportedVersionError e = false)
      (let* solcBuild := TASK_COMPILE_SOLIDITY_GET_SOLC_BUILD env quiet solcVersion in
       TASK_COMPILE_SOLIDITY_LOG_RUN_COMPILER_START
         compilationJob compilationJobs compilationJobIndex quiet ;;
       let* output :=
         if isSolcJs solcBuild
         then TASK_COMPILE_SOLIDITY_RUN_SOLCJS env input (compilerPath solcBuild)
         else TASK_COMPILE_SOLIDITY_RUN_SOLC env input (compilerPath solcBuild) in
       TASK_COMPILE_SOLIDITY_LOG_RUN_COMPILER_END
         compilationJob compilationJobs compilationJobIndex output quiet ;;
       ret (output, solcBuild))).
    unfold TASK_COMPILE_SOLIDITY_LOG_RUN_COMPILER_START,
      TASK_COMPILE_SOLIDITY_LOG_RUN_COMPILER_END,
      TASK_COMPILE_SOLIDITY_RUN_SOLC, TASK_COMPILE_SOLIDITY_RUN_SOLCJS.
    throws_only. apply GET_SOLC_BUILD_throws.
Qed.

(** Version 0.4.10 is rejected before anything happens; version 0.8.17
    goes on to the acquisition. *)
Lemma compile_solc_rejects_versions_before_first_supported_witness :
  TASK_COMPILE_SOLIDITY_COMPILE_SOLC (Sample.env []) (getInputFromCompilationJob Sample.jobOld)
    false Sample.v0_4_10 Sample.jobOld [Sample.jobOld] 0
  = ([], Thrown (COMPILE_TASK_UNSUPPORTED_SOLC_VERSION Sample.v0_4_10
                   COMPILE_TASK_FIRST_SOLC_VERSION_SUPPORTED))
  /\ exists rest,
       trace (TASK_COMPILE_SOLIDITY_COMPILE_SOLC (Sample.env [])
                (getInputFromCompilationJob Sample.jobA)
                false Sample.v0_8_17 Sample.jobA [Sample.jobA] 0)
       = RunGetSolcBuild Sample.v0_8_17 :: rest.
Proof.
  split.
  - apply (proj1 (compile_solc_rejects_versions_before_first_supported
                    (Sample.env []) (getInputFromCompilationJob Sample.jobOld)
                    false Sample.v0_4_10 Sample.jobOld [Sample.jobOld] 0)).
    reflexivity.
  - apply (proj2 (compile_solc_rejects_versions_before_first_supported
                    (Sample.env []) (getInputFromCompilationJob Sample.jobA)
                    false Sample.v0_8_17 Sample.jobA [Sample.jobA] 0)).
    reflexivity.
Defined.

(** For releases the guard compares the three numbers with 0.4.11. *)
Example guard_on_releases a b c :
  Semver.lt (Semver.release a b c) COMPILE_TASK_FIRST_SOLC_VERSION_SUPPORTED = true
  <-> (a < 0 \/ (a = 0 /\ (b < 4 \/ (b = 4 /\ c < 11))))%N.
Proof. apply SemverFacts.lt_release. Qed.

(** A prerelease of 0.4.11 is older than 0.4.11. *)
Example guard_on_prerelease :
  Semver.lt (Semver.mkSemVer 0 4 11 [Semver.Alphanumeric "nightly"] [])
    COMPILE_TASK_FIRST_SOLC_VERSION_SUPPORTED = true.
Proof. reflexivity. Qed.

(** ** Emission of artifacts *)

Lemma emitContracts_run sourceName pathToBuildInfo entries :
  emitContracts sourceName pathToBuildInfo entries
  = (map (fun '(name, out) =>
            SaveArtifactAndDebugFile
              (getArtifactFromContractOutput sourceName name out) pathToBuildInfo)
         entries,
     Done (map fst entries)).
Proof.
  induction entries as [|[name out] rest IH]; [reflexivity|].
  cbn [emitContracts]. rewrite IH. simpl. by rewrite app_nil_r.
Qed.

Lemma emitFiles_run job output pathToBuildInfo files :
  emitFiles job output pathToBuildInfo files
  = (flat_map (fun f => map (fun a => SaveArtifactAndDebugFile a pathToBuildInfo)
                          (artifactsOfFile output f))
       (List.filter (emitsArtifacts job) files),
     Done (map (fun f => (f, map fst (contractEntries output (sourceName f))))
             (List.filter (emitsArtifacts job) files))).
Proof.
  induction files as [|f rest IH]; [reflexivity|].
  cbn [emitFiles List.filter]. destruct (emitsArtifacts job f); cbn [negb]; [|exact IH].
  rewrite emitContracts_run, IH. unfold artifactsOfFile. cbn [bind ret flat_map map].
  rewrite map_map, app_nil_r. do 2 f_equal.
  apply map_ext. by intros [name out].
Qed.

Lemma savedArtifacts_saves (l : list Artifact) pathToBuildInfo :
  savedArtifacts (map (fun a => SaveArtifactAndDebugFile a pathToBuildInfo) l) = l.
Proof. induction l as [|a l IH]; [reflexivity|]. unfold savedArtifacts in *. simpl. by rewrite IH. Qed.

Lemma savedBuildInfos_saves (l : list Artifact) pathToBuildInfo :
  savedBuildInfos (map (fun a => SaveArtifactAndDebugFile a pathToBuildInfo) l) = 0.
Proof. induction l as [|a l IH]; [reflexivity|]. exact IH. Qed.

Lemma emitFiles_saved job output pathToBuildInfo files :
  savedArtifacts (trace (emitFiles job output pathToBuildInfo files))
    = flat_map (artifactsOfFile output) (List.filter (emitsArtifacts job) files)
  /\ savedBuildInfos (trace (emitFiles job output pathToBuildInfo files)) = 0.
Proof.
  rewrite emitFiles_run. cbn [trace fst].
  induction (List.filter (emitsArtifacts job) files) as [|f l [IH1 IH2]]; [done|].
  cbn [flat_map]. by rewrite savedArtifacts_app, savedBuildInfos_app,
    savedArtifacts_saves, savedBuildInfos_saves, IH1, IH2.
Qed.

Lemma artifactsOfFile_sourceName output f a :
  In a (artifactsOfFile output f) -> artifactSourceName a = sourceName f.
Proof.
  unfold artifactsOfFile. rewrite in_map_iff. by intros ([name out] & <- & _).
Qed.

Lemma EMIT_ARTIFACTS_outcome env job input output solcBuild :
  outcome (TASK_COMPILE_SOLIDITY_EMIT_ARTIFACTS env job input output solcBuild)
  = Done (map (fun f => (f, map fst (contractEntries output (sourceName f))))
            (emittingFiles job)).
Proof.
  unfold TASK_COMPILE_SOLIDITY_EMIT_ARTIFACTS. rewrite outcome_bind.
  cbn [outcome emit snd]. by rewrite emitFiles_run.
Qed.

(** C9. [TASK_COMPILE_SOLIDITY_EMIT_ARTIFACTS] saves one build-info
    record, and saves artifacts (with their debug files) for the input
    files that emit artifacts and for no others: the artifacts saved are
    those that the output holds for the emitting files, in order; each
    belongs to an input file with [emitsArtifacts] true, none to a file
    that is present only as a dependency. *)
Theorem emit_artifacts_saves_for_emitting_files_only
    (env : Env) (compilationJob : CompilationJob) (input : CompilerInput)
    (output : CompilerOutput) (solcBuild : SolcBuild) :
  let run :=
    TASK_COMPILE_SOLIDITY_EMIT_ARTIFACTS env compilationJob input output solcBuild in
  savedBuildInfos (trace run) = 1
  /\ savedArtifacts (trace run)
     = flat_map (artifactsOfFile output) (emittingFiles compilationJob)
  /\ (forall a, In a (savedArtifacts (trace run)) ->
        exists f, In f (getResolvedFiles compilationJob)
                  /\ emitsArtifacts compilationJob f = true
                  /\ artifactSourceName a = sourceName f)
  /\ (forall dependency,
        (forall f, In f (getResolvedFiles compilationJob) ->
                   sourceName f = sourceName dependency ->
                   emitsArtifacts compilationJob f = false) ->
        forall a, In a (savedArtifacts (trace run)) ->
                  artifactSourceName a <> sourceName dependency)
  /\ outcome run
     = Done (map (fun f => (f, map fst (contractEntries output (sourceName f))))
               (emittingFiles compilationJob)).
Proof.
  cbv zeta. unfold TASK_COMPILE_SOLIDITY_EMIT_ARTIFACTS.
  rewrite trace_bind, outcome_bind. cbn [trace outcome emit fst snd].
  rewrite savedBuildInfos_app, savedArtifacts_app.
  destruct (emitFiles_saved compilationJob output
              (saveBuildInfo env (version (getSolcConfig compilationJob))
                 (longVersion solcBuild) input output)
              (getResolvedFiles compilationJob)) as [-> ->].
  fold (emittingFiles compilationJob).
  assert (forall a, In a (flat_map (artifactsOfFile output) (emittingFiles compilationJob)) ->
            exists f, In f (getResolvedFiles compilationJob)
                      /\ emitsArtifacts compilationJob f = true
                      /\ artifactSourceName a = sourceName f) as Hsaved.
  { intros a (f & Hf & Ha)%in_flat_map. apply filter_In in Hf as [Hf He].
    exists f. split_and!; [done..|]. by eapply artifactsOfFile_sourceName. }
  split_and!; [reflexivity | reflexivity | exact Hsaved | | ].
  - intros dependency Hdep a (f & Hf & He & Hn)%Hsaved Heq.
    rewrite (Hdep f Hf) in He; [discriminate|congruence].
  - by rewrite emitFiles_run.
Qed.

(** In the sample job, [A.sol] emits and [B.sol] is its dependency: the
    artifact of [A] is saved, the one the output holds for [B] is not. *)
Example emit_artifacts_sample :
  savedArtifacts
    (trace (TASK_COMPILE_SOLIDITY_EMIT_ARTIFACTS (Sample.env []) Sample.jobA
              (getInputFromCompilationJob Sample.jobA) Sample.goodOutput
              (mkSolcBuild "/compilers/solc" false Sample.v0_8_17 "0.8.17+commit.8df45f5f")))
  = [mkArtifact "contracts/A.sol" "A" "bytecode of A"].
Proof. reflexivity. Qed.

(** ** The jobs are compiled in ascending order of version *)

Lemma compileJobsLoop_executed env sorted quiet remaining : forall i,
  (exists notRun,
      remaining = executedJobs (trace (compileJobsLoop env sorted quiet i remaining))
                  ++ notRun)
  /\ (forall r, outcome (compileJobsLoop env sorted quiet i remaining) = Done r ->
        executedJobs (trace (compileJobsLoop env sorted quiet i remaining)) = remaining
        /\ map fst r = remaining).
Proof.
  induction remaining as [|job rest IH]; intros i; cbn [compileJobsLoop].
  - split; [by exists []|]. intros r [= <-]. done.
  - rewrite trace_bind, executedJobs_app, executedJobs_COMPILE_JOB, outcome_bind.
    destruct (outcome (TASK_COMPILE_SOLIDITY_COMPILE_JOB env job sorted i quiet true))
      as [res|e|]; [|split; [by exists rest|discriminate]..].
    rewrite trace_bind, outcome_bind. destruct (IH (S i)) as [[notRun Hpre] Hdone].
    destruct (outcome (compileJobsLoop env sorted quiet (S i) rest)) as [more|e|].
    + destruct (Hdone more eq_refl) as [Hex Hmap]. cbn [trace ret fst app].
      rewrite app_nil_r. split.
      * exists []. rewrite app_nil_r. simpl. by rewrite Hex.
      * intros r [= <-]. simpl. by rewrite Hex, Hmap.
    + rewrite app_nil_r. split; [|discriminate].
      exists notRun. simpl. by rewrite <- Hpre.
    + rewrite app_nil_r. split; [|discriminate].
      exists notRun. simpl. by rewrite <- Hpre.
Qed.











Example compile_jobs_sample_order :
  map (fun job => version (getSolcConfig job))
    (executedJobs (trace (TASK_COMPILE_SOLIDITY_COMPILE_JOBS (Sample.env [])
                            [Sample.jobA; Sample.jobC] false)))
  = [Sample.v0_7_6; Sample.v0_8_17].
Proof. reflexivity. Qed.

(** ** The cache after a build *)

Lemma updateCache_writes perJob : forall (cache : gmap string CacheEntry),
  updateCache cache perJob
  = foldl (fun c pe => <[pe.1 := pe.2]> c) cache (writtenEntries perJob).
Proof.
  induction perJob as [|[job perFile] rest IH]; intros cache; [reflexivity|].
  cbn [updateCache writtenEntries flat_map]. rewrite foldl_app, IH. f_equal.
  clear. revert cache. induction perFile as [|[f arts] more IH]; intros cache;
    [reflexivity|].
  cbn [addEmittedFiles map foldl]. by rewrite IH.
Qed.

Lemma foldl_insert_lookup (writes : list (string * CacheEntry)) path :
  forall (cache : gmap string CacheEntry),
    (forall e, ~ In (path, e) writes) /\
      foldl (fun c pe => <[pe.1 := pe.2]> c) cache writes !! path = cache !! path
    \/ exists e, In (path, e) writes /\
      foldl (fun c pe => <[pe.1 := pe.2]> c) cache writes !! path = Some e.
Proof.
  induction writes as [|[p e] rest IH] using rev_ind; intros cache.
  - left. split; [by intros e []|done].
  - rewrite foldl_app. cbn [foldl fst snd].
    destruct (decide (p = path)) as [->|Hne].
    + right. exists e. split; [apply in_or_app; right; by left|].
      apply lookup_insert_eq.
    + rewrite lookup_insert_ne by done.
      destruct (IH cache) as [[Hno Hl]|(e' & He' & Hl)].
      * left. split; [|done]. intros e' [?|[[=]|[]]]%in_app_or; [by eapply Hno|done].
      * right. exists e'. split; [apply in_or_app; by left|done].
Qed.

Lemma COMPILE_JOB_emitted env job jobs i quiet res :
  outcome (TASK_COMPILE_SOLIDITY_COMPILE_JOB env job jobs i quiet true) = Done res ->
  map fst (artifactsEmittedPerFile res) = emittingFiles job.
Proof.
  unfold TASK_COMPILE_SOLIDITY_COMPILE_JOB.
  intros (_ & _ & H)%outcome_bind_Done.
  apply outcome_bind_Done in H as (input & _ & H).
  apply outcome_bind_Done in H as ([output solcBuild] & _ & H).
  apply outcome_bind_Done in H as (_ & _ & H).
  apply outcome_bind_Done in H as (perFile & Hemit & [= <-]).
  cbn [artifactsEmittedPerFile].
  rewrite EMIT_ARTIFACTS_outcome in Hemit. injection Hemit as <-.
  rewrite map_map. cbn [fst]. apply map_id.
Qed.

Lemma compileJobsLoop_emitted env sorted quiet remaining : forall i r,
  outcome (compileJobsLoop env sorted quiet i remaining) = Done r ->
  Forall (fun jp => map fst jp.2 = emittingFiles jp.1) r.
Proof.
  induction remaining as [|job rest IH]; intros i r; cbn [compileJobsLoop].
  - intros [= <-]. constructor.
  - intros (res & Hres & H)%outcome_bind_Done.
    apply outcome_bind_Done in H as (more & Hmore & [= <-]).
    constructor; [by eapply COMPILE_JOB_emitted | by eapply IH].
Qed.

Lemma COMPILE_JOBS_emitted env compilationJobs quiet r :
  outcome (TASK_COMPILE_SOLIDITY_COMPILE_JOBS env compilationJobs quiet) = Done r ->
  Permutation (map fst r) compilationJobs
  /\ Forall (fun jp => map fst jp.2 = emittingFiles jp.1) r.
Proof.
  unfold TASK_COMPILE_SOLIDITY_COMPILE_JOBS. case_bool_decide as Hlen.
  - intros (_ & _ & [= <-])%outcome_bind_Done.
    destruct compilationJobs; [by split|discriminate].
  - intros Hr. split; [|by eapply compileJobsLoop_emitted].
    destruct (compileJobsLoop_executed env (arraySort compareJobs compilationJobs) quiet
                (arraySort compareJobs compilationJobs) 0) as [_ Hdone].
    destruct (Hdone r Hr) as [_ ->]. apply arraySort_Permutation.
Qed.

(** What a completed run of the main task wrote to the cache, and that
    this cache went to the cache file. *)
Lemma TASK_COMPILE_SOLIDITY_cache env force quiet loadedCache cache' :
  outcome (TASK_COMPILE_SOLIDITY env force quiet loadedCache) = Done cache' ->
  let solidityFilesCache :=
    invalidateCacheMissingArtifacts env loadedCache (resolvedFilesOfGraph env) in
  (exists r,
     outcome (TASK_COMPILE_SOLIDITY_COMPILE_JOBS env
                (jobsToCompile env force solidityFilesCache) quiet) = Done r
     /\ cache' = updateCache solidityFilesCache r)
  /\ In (WriteCacheToFile cache')
       (trace (TASK_COMPILE_SOLIDITY env force quiet loadedCache)).
Proof.
  unfold TASK_COMPILE_SOLIDITY, jobsToCompile,
    TASK_COMPILE_SOLIDITY_FILTER_COMPILATION_JOBS. cbv zeta.
  intros H. rewrite trace_bind.
  apply outcome_bind_Done in H as (_ & -> & H).
  rewrite trace_bind. apply outcome_bind_Done in H as (filtered & Hf & H). rewrite Hf.
  rewrite trace_bind. apply outcome_bind_Done in H as (r & Hr & H). rewrite Hr.
  rewrite trace_bind. apply outcome_bind_Done in H as (_ & -> & H).
  rewrite trace_bind. apply outcome_bind_Done in H as (_ & -> & H).
  rewrite trace_bind. apply outcome_bind_Done in H as (_ & -> & H).
  apply outcome_bind_Done in H as (_ & _ & [= <-]).
  split.
  - exists r. split; [|reflexivity].
    destruct force; injection Hf as <-; exact Hr.
  - rewrite !in_app_iff. do 5 right. left. by left.
Qed.

(** C8. After a build that completes, the cache that the task has
    written to the cache file holds, for every file that emitted artifacts
    in a compiled job (no file emitting under two configs or two
    contents), an entry at the file's absolute path that records the
    file's content hash and the solc config of the job that compiled it. *)
Theorem cache_records_hash_and_config_of_emitting_files
    (env : Env) (force quiet : bool)
    (loadedCache cache' : gmap string CacheEntry) :
  outcome (TASK_COMPILE_SOLIDITY env force quiet loadedCache) = Done cache' ->
  let compiled :=
    jobsToCompile env force
      (invalidateCacheMissingArtifacts env loadedCache (resolvedFilesOfGraph env)) in
  emitsOnce compiled ->
  In (WriteCacheToFile cache')
    (trace (TASK_COMPILE_SOLIDITY env force quiet loadedCache))
  /\ forall job f,
       In job compiled -> In f (getResolvedFiles job) ->
       emitsArtifacts job f = true ->
       exists entry,
         cache' !! absolutePath f = Some entry
         /\ entryContentHash entry = contentHash f
         /\ entrySolcConfig entry = getSolcConfig job.
Proof.
  intros Hdone compiled Honce.
  apply TASK_COMPILE_SOLIDITY_cache in Hdone as [(r & Hr & ->) Hwrite].
  split; [exact Hwrite|]. intros job f Hjob Hf Hemits.
  fold compiled in Hr. apply COMPILE_JOBS_emitted in Hr as [Hperm Hall].
  assert (In f (emittingFiles job)) as Hfe by (by apply filter_In).
  assert (forall p e, In (p, e) (writtenEntries r) ->
            exists job' f' arts, In job' compiled /\ In f' (emittingFiles job')
              /\ p = absolutePath f' /\ e = cacheEntryOf job' f' arts) as Hwritten.
  { intros p e ([job' perFile] & Hjp & Hpe)%in_flat_map.
    apply in_map_iff in Hpe as ([f' arts] & [= <- <-] & Hfa).
    exists job', f', arts. split_and!; try done.
    - eapply Permutation_in; [exact Hperm|]. apply in_map_iff. by exists (job', perFile).
    - rewrite Forall_forall in Hall. apply list_elem_of_In in Hjp.
      pose proof (Hall _ Hjp) as Hfiles. simpl in Hfiles. rewrite <- Hfiles.
      apply in_map_iff. by exists (f', arts). }
  assert (exists e, In (absolutePath f, e) (writtenEntries r)) as [e0 He0].
  { apply (Permutation_in _ (Permutation_sym Hperm)) in Hjob.
    apply in_map_iff in Hjob as ([job' perFile] & Hj & Hjp). simpl in Hj. subst job'.
    rewrite Forall_forall in Hall. apply list_elem_of_In in Hjp as Hjp'.
    pose proof (Hall _ Hjp') as Hfiles. simpl in Hfiles. rewrite <- Hfiles in Hfe.
    apply in_map_iff in Hfe as ([f' arts] & Hf' & Hfa). simpl in Hf'. subst f'.
    exists (cacheEntryOf job f arts). apply in_flat_map. exists (job, perFile).
    split; [done|]. apply in_map_iff. by exists (f, arts). }
  rewrite updateCache_writes.
  destruct (foldl_insert_lookup (writtenEntries r) (absolutePath f)
              (invalidateCacheMissingArtifacts env loadedCache (resolvedFilesOfGraph env)))
    as [[Hno _]|(e & He & Hl)]; [by destruct (Hno e0)|].
  exists e. split; [exact Hl|].
  apply Hwritten in He as (job' & f' & arts & Hjob' & Hf' & Hp & ->).
  destruct (Honce job job' f f' Hjob Hjob' Hfe Hf' Hp) as [Hc Hh].
  by split.
Qed.

(** The sample project built from an empty cache: the entry of [A.sol]
    records its hash and the config of its job. *)
Lemma cache_records_hash_and_config_of_emitting_files_witness :
  exists cache' entry,
    outcome (TASK_COMPILE_SOLIDITY (Sample.env [Sample.jobA; Sample.jobC])
               false false ∅) = Done cache'
    /\ cache' !! absolutePath Sample.fileA = Some entry
    /\ entryContentHash entry = contentHash Sample.fileA
    /\ entrySolcConfig entry = getSolcConfig Sample.jobA.
Proof.
  destruct (outcome (TASK_COMPILE_SOLIDITY (Sample.env [Sample.jobA; Sample.jobC])
                       false false ∅)) as [cache'| |] eqn:Hrun;
    [|vm_compute in Hrun; discriminate..].
  assert (emitsOnce [Sample.jobA; Sample.jobC]) as Honce.
  { intros job1 job2 f1 f2 [<-|[<-|[]]] [<-|[<-|[]]] H1 H2 Hp;
      vm_compute in H1, H2;
      destruct H1 as [<-|[]]; destruct H2 as [<-|[]]; vm_compute in Hp;
      first [discriminate | by split]. }
  destruct (proj2 (cache_records_hash_and_config_of_emitting_files
                     (Sample.env [Sample.jobA; Sample.jobC]) false false ∅ cache' Hrun
                     Honce) Sample.jobA Sample.fileA)
    as (entry & Hl & Hh & Hc);
    [by left | by left | reflexivity |].
  by exists cache', entry.
Defined.

(* ===================================================================== *)
(** * Further properties of the compile tasks *)
(* ===================================================================== *)

(** ** The cache filter at its edges *)

Lemma needsCompilation_no_files job (cache : gmap string CacheEntry) :
  getResolvedFiles job = [] -> needsCompilation job cache = false.
Proof. unfold needsCompilation. by intros ->. Qed.

Lemma needsCompilation_empty_cache job :
  needsCompilation job ∅ = hasFiles job.
Proof.
  unfold needsCompilation, hasFiles.
  destruct (getResolvedFiles job) as [|f rest]; [reflexivity|].
  cbn [needsCompilationLoop]. unfold SolidityFilesCache.hasFileChanged at 1,
    SolidityFilesCache.getEntry. by rewrite lookup_empty.
Qed.

(** X1. With an empty cache the filter keeps every job that has an input
    file, in order, and drops only the jobs without files; a job without
    files is dropped whatever the cache holds. *)
Theorem filter_with_empty_cache_keeps_jobs_with_files
    (compilationJobs : list CompilationJob) :
  TASK_COMPILE_SOLIDITY_FILTER_COMPILATION_JOBS compilationJobs false (Some ∅)
    = ret (List.filter hasFiles compilationJobs)
  /\ forall (cache : gmap string CacheEntry) job kept,
       TASK_COMPILE_SOLIDITY_FILTER_COMPILATION_JOBS compilationJobs false (Some cache)
         = ret kept ->
       getResolvedFiles job = [] -> ~ In job kept.
Proof.
  split.
  - unfold TASK_COMPILE_SOLIDITY_FILTER_COMPILATION_JOBS. f_equal.
    apply filter_ext. intros job. apply needsCompilation_empty_cache.
  - intros cache job kept [= <-] Hnone [_ Hneeds]%filter_In.
    by rewrite needsCompilation_no_files in Hneeds.
Qed.

(** ** Invalidation, once more *)

(** X2. A file with a cache entry one of whose recorded artifacts is
    missing makes every job that has the file among its inputs need
    compilation after the invalidation, whatever else the cache holds. *)
Theorem missing_artifact_forces_recompilation
    (env : Env) (cache : gmap string CacheEntry)
    (resolvedFiles : list ResolvedFile) (job : CompilationJob) (f : ResolvedFile) :
  In f (getResolvedFiles job) ->
  artifactMissingFor env cache resolvedFiles (absolutePath f) ->
  needsCompilation job (invalidateCacheMissingArtifacts env cache resolvedFiles) = true.
Proof.
  intros Hf Hmissing.
  destruct (needsCompilation job _) eqn:Hneeds; [reflexivity|]. exfalso.
  rewrite needsCompilation_false in Hneeds.
  destruct (Hneeds f Hf) as (entry & Hentry & _).
  rewrite invalidateCacheMissingArtifacts_lookup in Hentry.
  destruct Hmissing as (e & g & a & He & Hg & Hp & Ha & Hm). rewrite He in Hentry.
  assert (existsb (fun f0 => bool_decide (absolutePath f0 = absolutePath f)
                     && someArtifactMissing env (sourceName f0) (artifacts e))
            resolvedFiles = true) as Hex.
  { apply existsb_exists. exists g. split; [done|].
    apply andb_true_iff. split; [by apply bool_decide_eq_true_2|].
    apply someArtifactMissing_spec. eauto. }
  rewrite Hex in Hentry. discriminate.
Qed.

(** The artifact of [A.sol] was deleted: the job of [A.sol] is compiled
    again although the cache knew all its files. *)
Lemma missing_artifact_forces_recompilation_witness :
  let env := Sample.envWithArtifacts
               (fun name => negb (String.eqb name "contracts/A.sol:A")) in
  artifactMissingFor env Sample.fullCache (resolvedFilesOfGraph env)
    (absolutePath Sample.fileA)
  /\ needsCompilation Sample.jobA
       (invalidateCacheMissingArtifacts env Sample.fullCache (resolvedFilesOfGraph env))
     = true.
Proof.
  cbv zeta.
  assert (artifactMissingFor
            (Sample.envWithArtifacts
               (fun name => negb (String.eqb name "contracts/A.sol:A")))
            Sample.fullCache
            (resolvedFilesOfGraph
               (Sample.envWithArtifacts
                  (fun name => negb (String.eqb name "contracts/A.sol:A"))))
            (absolutePath Sample.fileA)) as Hmissing.
  { exists Sample.entryA, Sample.fileA, "A".
    split_and!; [reflexivity | by left | reflexivity | by left | reflexivity]. }
  split; [exact Hmissing|].
  apply (missing_artifact_forces_recompilation _ _ _ Sample.jobA Sample.fileA);
    [by left | exact Hmissing].
Defined.

(** X3. [invalidateCacheMissingArtifacts] only removes entries: every
    entry of the result is an entry of the cache it was given, unchanged;
    and running it again with the same artifact store and files removes
    nothing more. *)
Theorem invalidate_only_removes_and_is_idempotent
    (env : Env) (cache : gmap string CacheEntry) (resolvedFiles : list ResolvedFile) :
  invalidateCacheMissingArtifacts env cache resolvedFiles ⊆ cache
  /\ invalidateCacheMissingArtifacts env
       (invalidateCacheMissingArtifacts env cache resolvedFiles) resolvedFiles
     = invalidateCacheMissingArtifacts env cache resolvedFiles.
Proof.
  split.
  - apply map_subseteq_spec. intros path entry.
    rewrite invalidateCacheMissingArtifacts_lookup.
    destruct (cache !! path) as [e|]; [|done]. by case_match.
  - apply map_eq. intros path. rewrite !invalidateCacheMissingArtifacts_lookup.
    destruct (cache !! path) as [e|]; [|done].
    destruct (existsb _ resolvedFiles) eqn:E; [done|]. by rewrite E.
Qed.

(** X4. The result of [invalidateCacheMissingArtifacts] does not depend on
    the order in which the resolved files are visited, nor on repeats. *)
Theorem invalidate_independent_of_file_order
    (env : Env) (cache : gmap string CacheEntry)
    (resolvedFiles resolvedFiles' : list ResolvedFile) :
  (forall f, In f resolvedFiles <-> In f resolvedFiles') ->
  invalidateCacheMissingArtifacts env cache resolvedFiles
  = invalidateCacheMissingArtifacts env cache resolvedFiles'.
Proof.
  intros Hsame. apply map_eq. intros path.
  rewrite !invalidateCacheMissingArtifacts_lookup.
  destruct (cache !! path) as [e|]; [|done].
  assert (forall l l' : list ResolvedFile,
            (forall f, In f l -> In f l') ->
            existsb (fun f => bool_decide (absolutePath f = path)
                       && someArtifactMissing env (sourceName f) (artifacts e)) l = true ->
            existsb (fun f => bool_decide (absolutePath f = path)
                       && someArtifactMissing env (sourceName f) (artifacts e)) l' = true)
    as Hmono.
  { intros l l' Hincl (f & Hf & Hp)%existsb_exists. apply existsb_exists. eauto. }
  destruct (existsb _ resolvedFiles) eqn:E1, (existsb _ resolvedFiles') eqn:E2; try done.
  - rewrite (Hmono resolvedFiles resolvedFiles') in E2; [done| |done].
    intros f. apply Hsame.
  - rewrite (Hmono resolvedFiles' resolvedFiles) in E1; [done| |done].
    intros f. apply Hsame.
Qed.

(** The artifact of [A.sol] is missing from the store: its entry is
    removed, whether the files come in one order or in another with one
    of them twice. *)
Lemma invalidate_independent_of_file_order_witness :
  invalidateCacheMissingArtifacts
    (Sample.envWithArtifacts (fun name => negb (String.eqb name "contracts/A.sol:A")))
    Sample.fullCache [Sample.fileA; Sample.fileB]
  = invalidateCacheMissingArtifacts
      (Sample.envWithArtifacts (fun name => negb (String.eqb name "contracts/A.sol:A")))
      Sample.fullCache [Sample.fileB; Sample.fileA; Sample.fileB]
  /\ invalidateCacheMissingArtifacts
       (Sample.envWithArtifacts (fun name => negb (String.eqb name "contracts/A.sol:A")))
       Sample.fullCache [Sample.fileB; Sample.fileA; Sample.fileB]
       !! absolutePath Sample.fileA = None
  /\ Sample.fullCache !! absolutePath Sample.fileA = Some Sample.entryA.
Proof.
  split; [|split; vm_compute; reflexivity].
  apply invalidate_independent_of_file_order.
  intros f. simpl. tauto.
Defined.

(** ** What the acquisition returns *)

(** The cases of the acquisition, keeping what the collaborators
    answered. *)
Ltac get_solc_build_answers env solcVersion :=
  unfold TASK_COMPILE_SOLIDITY_GET_SOLC_BUILD,
    TASK_COMPILE_SOLIDITY_LOG_DOWNLOAD_COMPILER_START,
    TASK_COMPILE_SOLIDITY_LOG_DOWNLOAD_COMPILER_END, checkSolcBinary;
  destruct (getCompilerBuild env solcVersion) as [long desired] eqn:Hbuild;
  destruct (isCompilerDownloaded env solcVersion) eqn:Hdownloaded;
  destruct (getDownloadedCompilerPath env false solcVersion)
    as [[path platform]|] eqn:Hfirst;
  destruct (getDownloadedCompilerPath env true solcVersion)
    as [[jsPath jsPlatform]|] eqn:Hsolcjs;
  cbn [resultPlatform resultCompilerPath snd fst];
  repeat case_bool_decide; cbn [negb];
  try match goal with
      | |- context [execProcess env ?command] =>
          destruct (execProcess env command) as [code ms|] eqn:Hprobe
      end;
  repeat case_bool_decide; simpl.

(** X5. The assertion of [TASK_COMPILE_SOLIDITY_GET_SOLC_BUILD] on the
    compiler path cannot fail: where the task reaches it a path is
    defined, so the task never raises that invariant violation.  A build
    it returns carries the requested version and the long version of the
    build list, and its compiler path is the path answered by the
    downloader that was asked last: the first one when [isSolcJs] is
    false, the solcjs one when it is true. *)
Theorem get_solc_build_result
    (env : Env) (quiet : bool) (solcVersion : SemVer) :
  let run := TASK_COMPILE_SOLIDITY_GET_SOLC_BUILD env quiet solcVersion in
  (forall msg, outcome run <> Thrown (INVARIANT_VIOLATED msg))
  /\ (forall build, outcome run = Done build ->
        buildVersion build = solcVersion
        /\ longVersion build = fst (getCompilerBuild env solcVersion)
        /\ exists answer,
             getDownloadedCompilerPath env (isSolcJs build) solcVersion = Some answer
             /\ compilerPath build = resultCompilerPath answer).
Proof.
  cbv zeta. get_solc_build_answers env solcVersion; split; intros;
    simplify_eq; simpl; try done; split_and!; try done;
    rewrite ?Hfirst, ?Hsolcjs; by eexists.
Qed.

(** ** The progress line of a job *)

Lemma LOG_RUN_COMPILER_START_run job (jobs : list CompilationJob) i quiet :
  (i < length jobs ->
   exists lines,
     TASK_COMPILE_SOLIDITY_LOG_RUN_COMPILER_START job jobs i quiet = (lines, Done tt)
     /\ Forall (fun e => isConsoleEvent e = true) lines)
  /\ (length jobs <= i ->
      TASK_COMPILE_SOLIDITY_LOG_RUN_COMPILER_START job jobs i quiet = ([], Thrown TYPE_ERROR)).
Proof.
  unfold TASK_COMPILE_SOLIDITY_LOG_RUN_COMPILER_START. split.
  - intros Hi. destruct (lookup_lt_is_Some_2 jobs i Hi) as [current ->].
    destruct i as [|k].
    + simpl. eexists. split; [reflexivity|]. by repeat constructor.
    + destruct (lookup_lt_is_Some_2 jobs k) as [previous ->]; [lia|].
      simpl. case_bool_decide; simpl; eexists; (split; [reflexivity|]);
        by repeat constructor.
  - intros Hi. by rewrite (lookup_ge_None_2 jobs i Hi).
Qed.

Lemma compilerRuns_app tr1 tr2 :
  compilerRuns (tr1 ++ tr2) = compilerRuns tr1 ++ compilerRuns tr2.
Proof. apply List.filter_app. Qed.

Lemma compilerRuns_none tr :
  Forall (fun e => isAcquisitionEvent e = true) tr -> compilerRuns tr = [].
Proof.
  induction 1 as [|e tr He _ IH]; [reflexivity|].
  unfold compilerRuns in *. simpl. rewrite IH. by destruct e.
Qed.

Lemma GET_SOLC_BUILD_acquires env quiet solcVersion :
  Forall (fun e => isAcquisitionEvent e = true)
    (trace (TASK_COMPILE_SOLIDITY_GET_SOLC_BUILD env quiet solcVersion)).
Proof.
  unfold TASK_COMPILE_SOLIDITY_GET_SOLC_BUILD,
    TASK_COMPILE_SOLIDITY_LOG_DOWNLOAD_COMPILER_START,
    TASK_COMPILE_SOLIDITY_LOG_DOWNLOAD_COMPILER_END.
  trace_forall; unfold checkSolcBinary; trace_forall.
Qed.

Lemma LOG_RUN_COMPILER_START_acquires job jobs i quiet :
  Forall (fun e => isAcquisitionEvent e = true)
    (trace (TASK_COMPILE_SOLIDITY_LOG_RUN_COMPILER_START job jobs i quiet)).
Proof. unfold TASK_COMPILE_SOLIDITY_LOG_RUN_COMPILER_START. trace_forall. Qed.

(** ** Which compiler is run *)

(** X6. [TASK_COMPILE_SOLIDITY_COMPILE_SOLC] starts a compiler at most
    once, and exactly when the version is supported, the acquisition has
    returned a build and the job index is in range: it then starts the
    runner that goes with the [isSolcJs] flag of that build, on the
    build's path and on the given input.  A run that completes returns
    that build and the output of that runner. *)
Theorem compile_solc_runs_the_compiler_of_the_build
    (env : Env) (input : CompilerInput) (quiet : bool) (solcVersion : SemVer)
    (compilationJob : CompilationJob) (compilationJobs : list CompilationJob)
    (compilationJobIndex : nat) :
  let run :=
    TASK_COMPILE_SOLIDITY_COMPILE_SOLC env input quiet solcVersion
      compilationJob compilationJobs compilationJobIndex in
  compilerRuns (trace run)
  = (if Semver.lt solcVersion COMPILE_TASK_FIRST_SOLC_VERSION_SUPPORTED then []
     else
       match outcome (TASK_COMPILE_SOLIDITY_GET_SOLC_BUILD env quiet solcVersion),
             compilationJobs !! compilationJobIndex with
       | Done solcBuild, Some _ => [runOf solcBuild input]
       | _, _ => []
       end)
  /\ forall output solcBuild,
       outcome run = Done (output, solcBuild) ->
       outcome (TASK_COMPILE_SOLIDITY_GET_SOLC_BUILD env quiet solcVersion)
         = Done solcBuild
       /\ output
          = if isSolcJs solcBuild
            then solcjsCompile env (compilerPath solcBuild) input
            else nativeCompile env (compilerPath solcBuild) input.
Proof.
  cbv zeta. unfold TASK_COMPILE_SOLIDITY_COMPILE_SOLC.
  destruct (Semver.lt solcVersion COMPILE_TASK_FIRST_SOLC_VERSION_SUPPORTED);
    [by split|].
  rewrite trace_bind, outcome_bind, compilerRuns_app,
    (compilerRuns_none _ (GET_SOLC_BUILD_acquires env quiet solcVersion)).
  destruct (outcome (TASK_COMPILE_SOLIDITY_GET_SOLC_BUILD env quiet solcVersion))
    as [solcBuild|e|]; [|by split..].
  rewrite trace_bind, outcome_bind, compilerRuns_app,
    (compilerRuns_none _ (LOG_RUN_COMPILER_START_acquires _ _ _ _)).
  destruct (compilationJobs !! compilationJobIndex) as [current|] eqn:Hcurrent.
  - destruct (proj1 (LOG_RUN_COMPILER_START_run compilationJob compilationJobs
                       compilationJobIndex quiet)) as (lines & -> & _).
    { by apply lookup_lt_is_Some_1. }
    cbn [outcome snd].
    unfold TASK_COMPILE_SOLIDITY_RUN_SOLCJS, TASK_COMPILE_SOLIDITY_RUN_SOLC,
      TASK_COMPILE_SOLIDITY_LOG_RUN_COMPILER_END, runOf.
    destruct (isSolcJs solcBuild) eqn:Hjs; simpl; rewrite ?Hjs;
      (split; [reflexivity|]); intros output build [= <- <-]; by rewrite Hjs.
  - rewrite (proj2 (LOG_RUN_COMPILER_START_run compilationJob compilationJobs
                      compilationJobIndex quiet)).
    + by split.
    + by apply lookup_ge_None_1.
Qed.

(** X7. When the downloader's first answer is already the WASM build (no
    native build for the platform), a supported version and a job index in
    range make [TASK_COMPILE_SOLIDITY_COMPILE_SOLC] complete with the path
    of that solcjs module handed to the native runner
    [TASK_COMPILE_SOLIDITY_RUN_SOLC]; the solcjs runner is not used. *)
Theorem compile_solc_first_answer_wasm_runs_native_runner
    (env : Env) (input : CompilerInput) (quiet : bool) (solcVersion : SemVer)
    (compilationJob : CompilationJob) (compilationJobs : list CompilationJob)
    (compilationJobIndex : nat) (answer : CompilerPathResult) :
  getDownloadedCompilerPath env false solcVersion = Some answer ->
  resultPlatform answer = WASM ->
  Semver.lte COMPILE_TASK_FIRST_SOLC_VERSION_SUPPORTED solcVersion = true ->
  compilationJobIndex < length compilationJobs ->
  let run :=
    TASK_COMPILE_SOLIDITY_COMPILE_SOLC env input quiet solcVersion
      compilationJob compilationJobs compilationJobIndex in
  compilerRuns (trace run) = [RunSolc (resultCompilerPath answer) input]
  /\ exists solcBuild,
       outcome run
       = Done (nativeCompile env (resultCompilerPath answer) input, solcBuild)
       /\ isSolcJs solcBuild = false
       /\ compilerPath solcBuild = resultCompilerPath answer.
Proof.
  intros Hanswer Hwasm Hsupported Hindex. cbv zeta.
  unfold TASK_COMPILE_SOLIDITY_COMPILE_SOLC.
  rewrite SemverFacts.lt_lte, Hsupported. cbn [negb].
  pose proof (get_solc_build_first_answer_wasm env quiet solcVersion answer
                Hanswer Hwasm) as Hbuild.
  rewrite trace_bind, outcome_bind, compilerRuns_app,
    (compilerRuns_none _ (GET_SOLC_BUILD_acquires env quiet solcVersion)), Hbuild.
  destruct (proj1 (LOG_RUN_COMPILER_START_run compilationJob compilationJobs
                     compilationJobIndex quiet) Hindex) as (lines & Hlog & Hlines).
  rewrite Hlog. cbn [isSolcJs compilerPath].
  unfold TASK_COMPILE_SOLIDITY_RUN_SOLC, TASK_COMPILE_SOLIDITY_LOG_RUN_COMPILER_END.
  simpl. rewrite ?app_nil_r, compilerRuns_app.
  rewrite (compilerRuns_none lines).
  - split; [reflexivity|]. eexists. by split_and!.
  - eapply Forall_impl; [exact Hlines|]. by intros [] He.
Qed.

(** A platform without a native build: both downloaders answer with the
    solcjs module. *)
Lemma compile_solc_first_answer_wasm_runs_native_runner_witness :
  compilerRuns
    (trace (TASK_COMPILE_SOLIDITY_COMPILE_SOLC MoreSamples.envWasmOnly
              (getInputFromCompilationJob Sample.jobA) false Sample.v0_8_17
              Sample.jobA [Sample.jobA] 0))
  = [RunSolc "/compilers/soljson.js" (getInputFromCompilationJob Sample.jobA)].
Proof.
  apply (compile_solc_first_answer_wasm_runs_native_runner
           MoreSamples.envWasmOnly (getInputFromCompilationJob Sample.jobA) false
           Sample.v0_8_17 Sample.jobA [Sample.jobA] 0
           (mkCompilerPathResult "/compilers/soljson.js" WASM));
    [reflexivity | reflexivity | reflexivity | simpl; lia].
Defined.

(** ** A job saves only after the check has passed *)

(** [CHECK_ERRORS] by cases on the output: with an error diagnostic it
    throws after logging every diagnostic; without it completes. *)
Lemma check_errors_outcome output quiet :
  (hasErrorDiagnostic output ->
     outcome (TASK_COMPILE_SOLIDITY_CHECK_ERRORS output quiet) = Thrown COMPILE_FAILURE
     /\ forall errs d, outputErrors output = Some errs -> In d errs ->
           In (logDiagnostic d) (trace (TASK_COMPILE_SOLIDITY_CHECK_ERRORS output quiet)))
  /\ (hasErrorDiagnostic output ->
      outcome (TASK_COMPILE_SOLIDITY_CHECK_ERRORS output quiet) <> Done tt).
Proof.
  unfold TASK_COMPILE_SOLIDITY_CHECK_ERRORS.
  rewrite outcome_bind, trace_bind, LOG_COMPILATION_ERRORS_outcome.
  split; intros Herr; pose proof Herr as Hhas;
    apply hasCompilationErrors_spec in Hhas; rewrite Hhas; [|done].
  split; [done|]. intros errs d Herrs Hd. apply in_or_app. left.
  unfold TASK_COMPILE_SOLIDITY_LOG_COMPILATION_ERRORS. rewrite Herrs, trace_bind.
  apply in_or_app. left. cbn [trace fst]. apply in_map_iff. by exists d.
Qed.

Lemma no_emit_events (tr : list Event) :
  Forall (fun e => isCompilerEvent e || isConsoleEvent e = true) tr ->
  Forall (fun e => isEmitEvent e = false) tr.
Proof. intros H. eapply Forall_impl; [exact H|]. by intros []. Qed.

(** Either the job has saved nothing, or it was asked to emit and its
    compilation returned an output without error diagnostics. *)
Lemma COMPILE_JOB_saves env job jobs i quiet emits :
  Forall (fun e => isEmitEvent e = false)
    (trace (TASK_COMPILE_SOLIDITY_COMPILE_JOB env job jobs i quiet emits))
  \/ (emits = true
      /\ exists output solcBuild,
           outcome (TASK_COMPILE_SOLIDITY_COMPILE env (getInputFromCompilationJob job)
                      quiet (version (getSolcConfig job)) job jobs i)
             = Done (output, solcBuild)
           /\ ~ hasErrorDiagnostic output).
Proof.
  unfold TASK_COMPILE_SOLIDITY_COMPILE_JOB, TASK_COMPILE_SOLIDITY_GET_COMPILER_INPUT.
  rewrite !trace_bind. cbn [trace outcome emit ret fst snd app].
  rewrite trace_bind.
  pose proof (no_emit_events _ (COMPILE_SOLC_events env
                (getInputFromCompilationJob job) quiet
                (version (getSolcConfig job)) job jobs i)) as Hcompile.
  fold TASK_COMPILE_SOLIDITY_COMPILE in Hcompile.
  destruct (outcome (TASK_COMPILE_SOLIDITY_COMPILE _ _ _ _ _ _ _))
    as [[output solcBuild]|e|] eqn:Hout.
  2,3: left; (constructor; [done|]); by rewrite app_nil_r.
  rewrite trace_bind.
  assert (Forall (fun e => isEmitEvent e = false)
            (trace (TASK_COMPILE_SOLIDITY_CHECK_ERRORS output quiet))) as Hcheck.
  { eapply Forall_impl; [apply CHECK_ERRORS_events|]. by intros []. }
  destruct (check_errors_outcome output quiet) as [_ Hdone].
  destruct (outcome (TASK_COMPILE_SOLIDITY_CHECK_ERRORS output quiet))
    as [[]|e|] eqn:Hchecked.
  - destruct emits.
    + right. split; [done|]. exists output, solcBuild. split; [done|].
      intros Herr. by destruct (Hdone Herr).
    + left. constructor; [done|]. rewrite trace_bind. simpl. rewrite ?app_nil_r.
      by apply Forall_app.
  - left. rewrite app_nil_r. constructor; [done|]. by apply Forall_app.
  - left. rewrite app_nil_r. constructor; [done|]. by apply Forall_app.
Qed.

(** X8. In [TASK_COMPILE_SOLIDITY_COMPILE_JOB] the artifact store is
    written only after the compilation has returned an output and the
    check of that output has passed: a build info or an artifact is saved
    only by a job called with [emitsArtifacts] true whose compiler output
    holds no diagnostic of severity [error].  When the output holds one,
    the job throws the compilation failure after logging every
    diagnostic, and has saved nothing. *)
Theorem compile_job_saves_only_after_the_check_passed
    (env : Env) (compilationJob : CompilationJob)
    (compilationJobs : list CompilationJob) (compilationJobIndex : nat)
    (quiet emits : bool) :
  let run :=
    TASK_COMPILE_SOLIDITY_COMPILE_JOB env compilationJob compilationJobs
      compilationJobIndex quiet emits in
  let compiled :=
    outcome (TASK_COMPILE_SOLIDITY_COMPILE env
               (getInputFromCompilationJob compilationJob) quiet
               (version (getSolcConfig compilationJob))
               compilationJob compilationJobs compilationJobIndex) in
  (forall e, In e (trace run) -> isEmitEvent e = true ->
     emits = true
     /\ exists output solcBuild,
          compiled = Done (output, solcBuild) /\ ~ hasErrorDiagnostic output)
  /\ (forall output solcBuild,
        compiled = Done (output, solcBuild) ->
        hasErrorDiagnostic output ->
        outcome run = Thrown COMPILE_FAILURE
        /\ (forall errs d, outputErrors output = Some errs -> In d errs ->
              In (logDiagnostic d) (trace run))
        /\ Forall (fun e => isEmitEvent e = false) (trace run)).
Proof.
  cbv zeta. split.
  - intros e He Hemit.
    destruct (COMPILE_JOB_saves env compilationJob compilationJobs compilationJobIndex
                quiet emits) as [Hnone|Hsaved]; [|exact Hsaved].
    rewrite Forall_forall in Hnone. apply list_elem_of_In in He.
    rewrite (Hnone e He) in Hemit. discriminate.
  - intros output solcBuild Hout Herr. split_and!.
    + unfold TASK_COMPILE_SOLIDITY_COMPILE_JOB, TASK_COMPILE_SOLIDITY_GET_COMPILER_INPUT.
      rewrite !outcome_bind. cbn [outcome emit ret snd]. rewrite ?outcome_bind, Hout.
      rewrite ?outcome_bind.
      by destruct (proj1 (check_errors_outcome output quiet) Herr) as [-> _].
    + intros errs d Herrs Hd.
      unfold TASK_COMPILE_SOLIDITY_COMPILE_JOB, TASK_COMPILE_SOLIDITY_GET_COMPILER_INPUT.
      rewrite !trace_bind. cbn [trace outcome emit ret fst snd app].
      rewrite ?trace_bind, Hout, ?trace_bind. right. apply in_or_app. right.
      apply in_or_app. left.
      destruct (proj1 (check_errors_outcome output quiet) Herr) as [_ Hlogged].
      by eapply Hlogged.
    + destruct (COMPILE_JOB_saves env compilationJob compilationJobs
                  compilationJobIndex quiet emits)
        as [Hnone|(_ & out & build & Hout' & Hno)]; [exact Hnone|].
      rewrite Hout in Hout'. injection Hout' as <- <-. by destruct Hno.
Qed.

(** ** One job with an unsupported version stops the whole batch *)





(** ** The progress lines add up *)

Lemma sum_seq_S (f : nat -> nat) n :
  sum_list (map f (seq 0 (S n))) = f 0 + sum_list (map (fun k => f (S k)) (seq 0 n)).
Proof. simpl. by rewrite <- seq_shift, map_map. Qed.

Lemma progressCount_head job rest :
  progressCount (job :: rest) 0
  = length (emittingFiles job)
    + countEmittingFiles (version (getSolcConfig job)) rest.
Proof.
  unfold progressCount, TASK_COMPILE_SOLIDITY_LOG_RUN_COMPILER_START. simpl.
  rewrite bool_decide_eq_true_2 by done. simpl. unfold emittingFiles. lia.
Qed.

Lemma progressCount_second job job2 rest :
  progressCount (job :: job2 :: rest) 1
  = if bool_decide (version (getSolcConfig job) = version (getSolcConfig job2))
    then 0 else progressCount (job2 :: rest) 0.
Proof.
  unfold progressCount, TASK_COMPILE_SOLIDITY_LOG_RUN_COMPILER_START. simpl.
  by case_bool_decide.
Qed.

Lemma progressCount_later job rest k :
  progressCount (job :: rest) (S (S k)) = progressCount rest (S k).
Proof. reflexivity. Qed.

(** Over the indices of a list of jobs, the progress lines count every
    artifact-emitting file once. *)
Lemma progressCount_sum jobs :
  sum_list (map (progressCount jobs) (seq 0 (length jobs))) = totalEmittingFiles jobs.
Proof.
  induction jobs as [|job rest IH]; [reflexivity|].
  cbn [length]. rewrite sum_seq_S, progressCount_head.
  unfold totalEmittingFiles in *. cbn [map sum_list]. rewrite <- IH. clear IH.
  destruct rest as [|job2 rest]; [simpl; lia|].
  cbn [length]. rewrite !sum_seq_S, progressCount_second, progressCount_head.
  cbn [countEmittingFiles].
  rewrite (map_ext (fun k => progressCount (job :: job2 :: rest) (S (S k)))
             (fun k => progressCount (job2 :: rest) (S k)))
    by (intros; apply progressCount_later).
  fold (emittingFiles job2).
  destruct (decide (version (getSolcConfig job) = version (getSolcConfig job2)))
    as [Heq|Hne].
  - rewrite (bool_decide_eq_true_2 _ Heq), (bool_decide_eq_true_2 _ (eq_sym Heq)).
    cbn [negb]. rewrite Heq. unfold id. lia.
  - rewrite (bool_decide_eq_false_2 _ Hne).
    rewrite (bool_decide_eq_false_2 (version (getSolcConfig job2)
                                     = version (getSolcConfig job))) by congruence.
    cbn [negb]. unfold id. lia.
Qed.

Lemma compilingCounts_app tr1 tr2 :
  compilingCounts (tr1 ++ tr2) = compilingCounts tr1 ++ compilingCounts tr2.
Proof. apply flat_map_app. Qed.

Lemma compilingCounts_none tr :
  Forall (fun e => isNoProgressLine e = true) tr -> compilingCounts tr = [].
Proof.
  induction 1 as [|e tr He _ IH]; [reflexivity|].
  unfold compilingCounts in *. cbn [flat_map]. rewrite IH.
  by destruct e as [| | | | | | | | | | |[]].
Qed.

Lemma GET_SOLC_BUILD_no_progress env quiet solcVersion :
  Forall (fun e => isNoProgressLine e = true)
    (trace (TASK_COMPILE_SOLIDITY_GET_SOLC_BUILD env quiet solcVersion)).
Proof.
  unfold TASK_COMPILE_SOLIDITY_GET_SOLC_BUILD,
    TASK_COMPILE_SOLIDITY_LOG_DOWNLOAD_COMPILER_START,
    TASK_COMPILE_SOLIDITY_LOG_DOWNLOAD_COMPILER_END.
  trace_forall; unfold checkSolcBinary; trace_forall.
Qed.

Lemma CHECK_ERRORS_no_progress output quiet :
  Forall (fun e => isNoProgressLine e = true)
    (trace (TASK_COMPILE_SOLIDITY_CHECK_ERRORS output quiet)).
Proof.
  unfold TASK_COMPILE_SOLIDITY_CHECK_ERRORS, TASK_COMPILE_SOLIDITY_LOG_COMPILATION_ERRORS.
  apply Forall_trace_bind; [|intros; trace_forall].
  destruct (outputErrors output) as [errs|]; [|constructor].
  apply Forall_trace_bind; [|intros; trace_forall].
  cbn [trace fst]. apply Forall_forall. intros e [d [-> _]]%list_elem_of_fmap.
  unfold logDiagnostic. by case_bool_decide.
Qed.

Lemma emit_events_no_progress tr :
  Forall (fun e => isEmitEvent e = true) tr ->
  Forall (fun e => isNoProgressLine e = true) tr.
Proof. intros H. eapply Forall_impl; [exact H|]. by intros []. Qed.

(** The progress lines of a job that got past its compiler run are those
    of [LOG_RUN_COMPILER_START]. *)
Lemma COMPILE_JOB_progress env job jobs i quiet emits res :
  outcome (TASK_COMPILE_SOLIDITY_COMPILE_JOB env job jobs i quiet emits) = Done res ->
  compilingCounts (trace (TASK_COMPILE_SOLIDITY_COMPILE_JOB env job jobs i quiet emits))
  = compilingCounts (trace (TASK_COMPILE_SOLIDITY_LOG_RUN_COMPILER_START job jobs i quiet)).
Proof.
  unfold TASK_COMPILE_SOLIDITY_COMPILE_JOB, TASK_COMPILE_SOLIDITY_GET_COMPILER_INPUT,
    TASK_COMPILE_SOLIDITY_COMPILE.
  intros H. rewrite trace_bind.
  apply outcome_bind_Done in H as (_ & -> & H).
  rewrite trace_bind. apply outcome_bind_Done in H as (input & [= <-] & H).
  cbn [outcome ret snd trace fst emit].
  rewrite trace_bind. apply outcome_bind_Done in H as ([output build] & Hc & H).
  rewrite Hc. rewrite trace_bind.
  apply outcome_bind_Done in H as (_ & -> & H).
  rewrite trace_bind. apply outcome_bind_Done in H as (perFile & Hp & _). rewrite Hp.
  cbn [trace ret fst]. rewrite !app_nil_r. cbn [app].
  change (compilingCounts (RunCompileJob job i :: ?l)) with (compilingCounts l).
  rewrite !compilingCounts_app.
  rewrite (compilingCounts_none _ (CHECK_ERRORS_no_progress output quiet)).
  assert (compilingCounts (trace (if emits
            then TASK_COMPILE_SOLIDITY_EMIT_ARTIFACTS env job
                   (getInputFromCompilationJob job) output build
            else ret [])) = []) as ->.
  { destruct emits; [|reflexivity].
    apply compilingCounts_none, emit_events_no_progress, EMIT_ARTIFACTS_events. }
  rewrite !app_nil_r. clear Hp perFile.
  unfold TASK_COMPILE_SOLIDITY_COMPILE_SOLC in *.
  destruct (Semver.lt _ _); [discriminate|].
  rewrite trace_bind. apply outcome_bind_Done in Hc as (b & -> & Hc).
  rewrite trace_bind. apply outcome_bind_Done in Hc as (_ & -> & Hc).
  rewrite !compilingCounts_app,
    (compilingCounts_none _ (GET_SOLC_BUILD_no_progress env quiet _)).
  cbn [app]. rewrite <- (app_nil_r (compilingCounts (trace
    (TASK_COMPILE_SOLIDITY_LOG_RUN_COMPILER_START job jobs i quiet)))) at 2.
  f_equal. apply compilingCounts_none.
  unfold TASK_COMPILE_SOLIDITY_RUN_SOLCJS, TASK_COMPILE_SOLIDITY_RUN_SOLC,
    TASK_COMPILE_SOLIDITY_LOG_RUN_COMPILER_END.
  trace_forall.
Qed.

Lemma compileJobsLoop_progress env sorted quiet remaining : forall i r,
  drop i sorted = remaining ->
  outcome (compileJobsLoop env sorted quiet i remaining) = Done r ->
  sum_list (compilingCounts (trace (compileJobsLoop env sorted quiet i remaining)))
  = sum_list (map (progressCount sorted) (seq i (length remaining))).
Proof.
  induction remaining as [|job rest IH]; intros i r Hdrop; cbn [compileJobsLoop].
  - reflexivity.
  - intros H. rewrite trace_bind.
    apply outcome_bind_Done in H as (res & Hres & H). rewrite Hres.
    rewrite trace_bind. apply outcome_bind_Done in H as (more & Hmore & _).
    rewrite Hmore. cbn [trace ret fst]. rewrite app_nil_r.
    rewrite compilingCounts_app, sum_list_with_app.
    rewrite (COMPILE_JOB_progress _ _ _ _ _ _ _ Hres).
    assert (sorted !! i = Some job) as Hi.
    { rewrite <- (Nat.add_0_r i), <- lookup_drop, Hdrop. reflexivity. }
    rewrite (IH (S i) more);
      [|by rewrite (drop_S _ _ _ Hi) in Hdrop; injection Hdrop|exact Hmore].
    cbn [length seq map sum_list]. f_equal.
    unfold progressCount. by rewrite Hi.
Qed.

(** X10. In a run of TASK_COMPILE_SOLIDITY_COMPILE_JOBS that completes,
    the numbers of the progress lines "Compiling N files with V" add up
    to the number of artifact-emitting files of all the jobs. *)
Theorem compile_jobs_progress_lines_count_every_emitting_file
    env compilationJobs quiet r :
  outcome (TASK_COMPILE_SOLIDITY_COMPILE_JOBS env compilationJobs quiet) = Done r ->
  sum_list (compilingCounts
              (trace (TASK_COMPILE_SOLIDITY_COMPILE_JOBS env compilationJobs quiet)))
  = totalEmittingFiles compilationJobs.
Proof.
  unfold TASK_COMPILE_SOLIDITY_COMPILE_JOBS, TASK_COMPILE_SOLIDITY_LOG_NOTHING_TO_COMPILE.
  case_bool_decide as Hlen.
  - destruct compilationJobs; [|discriminate]. by destruct quiet.
  - intros Hr.
    rewrite (compileJobsLoop_progress _ _ _ _ 0 r); [|reflexivity|exact Hr].
    rewrite progressCount_sum. unfold totalEmittingFiles.
    apply sum_list_with_Permutation_proper, Permutation_map, arraySort_Permutation.
Qed.

(** One job for 0.7.6 and two for 0.8.17 given apart: the lines say 1
    and 2. *)
Lemma compile_jobs_progress_lines_count_every_emitting_file_witness :
  compilingCounts
    (trace (TASK_COMPILE_SOLIDITY_COMPILE_JOBS (Sample.env [])
              [Sample.jobA; Sample.jobC; MoreSamples.jobB] false)) = [1; 2]
  /\ sum_list (compilingCounts
                 (trace (TASK_COMPILE_SOLIDITY_COMPILE_JOBS (Sample.env [])
                           [Sample.jobA; Sample.jobC; MoreSamples.jobB] false)))
     = totalEmittingFiles [Sample.jobA; Sample.jobC; MoreSamples.jobB].
Proof.
  split; [vm_compute; reflexivity|].
  eapply (compile_jobs_progress_lines_count_every_emitting_file (Sample.env [])
            [Sample.jobA; Sample.jobC; MoreSamples.jobB] false).
  vm_compute. reflexivity.
Defined.

(** ** The main task *)

Lemma bind_ret_l {A B} (a : A) (k : A -> M B) : bind (ret a) k = k a.
Proof. unfold bind, ret. by destruct (k a). Qed.

(** The main task in one piece: planning errors end it at once;
    otherwise it ends as the compilation of the jobs does and, when that
    completes, it tidies up, writes the cache file and reports. *)
Lemma TASK_COMPILE_SOLIDITY_run env force quiet loadedCache :
  let compiled := jobsToCompile env force (cacheAtStart env loadedCache) in
  let planned := createCompilationJobs env (cacheAtStart env loadedCache) in
  TASK_COMPILE_SOLIDITY env force quiet loadedCache
  = match errors planned with
    | [] =>
        match TASK_COMPILE_SOLIDITY_COMPILE_JOBS env compiled quiet with
        | (tr, Done r) =>
            let cache' := updateCache (cacheAtStart env loadedCache) r in
            (tr ++ housekeeping cache'
                ++ trace (TASK_COMPILE_SOLIDITY_LOG_COMPILATION_RESULT compiled quiet),
             Done cache')
        | (tr, Thrown e) => (tr, Thrown e)
        | (tr, Pending) => (tr, Pending)
        end
    | _ :: _ => ([], Thrown (COMPILATION_JOBS_CREATION_FAILURE (errors planned)))
    end.
Proof.
  unfold TASK_COMPILE_SOLIDITY, jobsToCompile, cacheAtStart,
    TASK_COMPILE_SOLIDITY_HANDLE_COMPILATION_JOBS_FAILURES,
    TASK_COMPILE_SOLIDITY_FILTER_COMPILATION_JOBS,
    TASK_COMPILE_SOLIDITY_LOG_COMPILATION_RESULT, housekeeping. cbv zeta.
  destruct (errors _) as [|err errs]; [|reflexivity].
  cbn [length bool_decide negb]. rewrite bool_decide_eq_true_2 by done. cbn [negb].
  destruct force; rewrite !bind_ret_l;
    (destruct (TASK_COMPILE_SOLIDITY_COMPILE_JOBS _ _ _) as [tr [r|e|]];
       [|reflexivity..]);
    case_bool_decide; cbn; by rewrite ?app_nil_r.
Qed.

(** X11. When the creation of the compilation jobs reports errors, the
    main task throws COMPILATION_JOBS_CREATION_FAILURE carrying them
    before it does anything else: no job is filtered, merged or compiled,
    nothing is removed and the cache file is not written, although jobs
    may have been created alongside the errors. *)
Theorem planning_errors_abort_the_build env force quiet loadedCache :
  let planned := createCompilationJobs env (cacheAtStart env loadedCache) in
  errors planned <> [] ->
  TASK_COMPILE_SOLIDITY env force quiet loadedCache
  = ([], Thrown (COMPILATION_JOBS_CREATION_FAILURE (errors planned))).
Proof.
  intros planned Herr. rewrite TASK_COMPILE_SOLIDITY_run. fold planned.
  by destruct (errors planned).
Qed.

(** One file without a fitting compiler: the job created for the other
    files is not compiled. *)
Lemma planning_errors_abort_the_build_witness :
  jobs (createCompilationJobs MoreSamples.envWithCreationError
          (cacheAtStart MoreSamples.envWithCreationError ∅)) = [Sample.jobA]
  /\ TASK_COMPILE_SOLIDITY MoreSamples.envWithCreationError true false ∅
     = ([], Thrown (COMPILATION_JOBS_CREATION_FAILURE
                      [mkCreationError NO_COMPATIBLE_SOLC_VERSION_FOUND Sample.fileC])).
Proof.
  split; [reflexivity|].
  apply (planning_errors_abort_the_build MoreSamples.envWithCreationError true false ∅).
  vm_compute. discriminate.
Defined.

Lemma job_steps_no_housekeeping tr :
  Forall (fun e => isJobStepEvent e = true) tr ->
  Forall (fun e => isHousekeepingEvent e = false) tr.
Proof. intros H. eapply Forall_impl; [exact H|]. by intros []. Qed.

Lemma compileJobsLoop_no_housekeeping env sorted quiet remaining : forall i,
  Forall (fun e => isHousekeepingEvent e = false)
    (trace (compileJobsLoop env sorted quiet i remaining)).
Proof.
  induction remaining as [|job rest IH]; intros i; cbn [compileJobsLoop];
    [constructor|].
  apply Forall_trace_bind.
  - destruct (COMPILE_JOB_trace env job sorted i quiet true) as (steps & -> & H).
    constructor; [reflexivity|]. by apply job_steps_no_housekeeping.
  - intros res _. apply Forall_trace_bind; [apply IH|]. intros. constructor.
Qed.

Lemma COMPILE_JOBS_no_housekeeping env compilationJobs quiet :
  Forall (fun e => isHousekeepingEvent e = false)
    (trace (TASK_COMPILE_SOLIDITY_COMPILE_JOBS env compilationJobs quiet)).
Proof.
  unfold TASK_COMPILE_SOLIDITY_COMPILE_JOBS, TASK_COMPILE_SOLIDITY_LOG_NOTHING_TO_COMPILE.
  case_bool_decide; [trace_forall|apply compileJobsLoop_no_housekeeping].
Qed.

Lemma filter_none {A} (p : A -> bool) l :
  Forall (fun x => p x = false) l -> List.filter p l = [].
Proof.
  induction 1 as [|x l Hx _ IH]; [reflexivity|]. cbn [List.filter]. by rewrite Hx.
Qed.

(** X12. The main task removes obsolete artifacts and build infos and
    writes the cache file only after every job has been compiled: such a
    step is in the trace only if job creation reported no error and
    TASK_COMPILE_SOLIDITY_COMPILE_JOBS completed.  In a build that
    completes, these steps come once and in this order, with the cache
    that the task returns, after the trace of
    TASK_COMPILE_SOLIDITY_COMPILE_JOBS and before nothing but the closing
    line.  A build that fails in planning or in a job has not touched
    the cache file. *)
Theorem cache_file_written_only_after_all_jobs_compiled
    env force quiet loadedCache :
  let run := TASK_COMPILE_SOLIDITY env force quiet loadedCache in
  let compiled := jobsToCompile env force (cacheAtStart env loadedCache) in
  (forall e, In e (trace run) -> isHousekeepingEvent e = true ->
     errors (createCompilationJobs env (cacheAtStart env loadedCache)) = []
     /\ exists r,
          outcome (TASK_COMPILE_SOLIDITY_COMPILE_JOBS env compiled quiet) = Done r)
  /\ forall cache', outcome run = Done cache' ->
       trace run
       = trace (TASK_COMPILE_SOLIDITY_COMPILE_JOBS env compiled quiet)
         ++ housekeeping cache'
         ++ (if bool_decide (compiled = []) then []
             else [Console CompilationFinished])
       /\ List.filter isHousekeepingEvent (trace run) = housekeeping cache'.
Proof.
  intros run compiled. subst run. rewrite TASK_COMPILE_SOLIDITY_run. fold compiled.
  destruct (errors _); [|split; [by intros e []|discriminate]].
  pose proof (COMPILE_JOBS_no_housekeeping env compiled quiet) as Hno.
  destruct (TASK_COMPILE_SOLIDITY_COMPILE_JOBS env compiled quiet) as [tr [r|e|]];
    cbn [trace outcome fst snd] in *.
  2,3: split; [|discriminate]; intros ev Hev Hhouse; rewrite Forall_forall in Hno;
       apply list_elem_of_In in Hev; rewrite (Hno ev Hev) in Hhouse; discriminate.
  assert (trace (TASK_COMPILE_SOLIDITY_LOG_COMPILATION_RESULT compiled quiet)
          = if bool_decide (compiled = []) then [] else [Console CompilationFinished])
    as ->.
  { unfold TASK_COMPILE_SOLIDITY_LOG_COMPILATION_RESULT. by destruct compiled. }
  split; [intros; split; [done|by exists r]|].
  intros cache' [= <-]. split; [reflexivity|].
  rewrite !List.filter_app, (filter_none _ _ Hno). cbn [app].
  by case_bool_decide.
Qed.

(** X13. A completed build changes the cache only at the absolute paths
    of the files that emitted artifacts in a compiled job: at any other
    path, that of a file compiled only as a dependency included, the
    written cache holds what the cache held after the invalidation of
    entries with missing artifacts. *)
Theorem build_leaves_other_cache_entries_alone
    env force quiet loadedCache cache' path :
  outcome (TASK_COMPILE_SOLIDITY env force quiet loadedCache) = Done cache' ->
  (forall job f,
      In job (jobsToCompile env force (cacheAtStart env loadedCache)) ->
      In f (emittingFiles job) -> absolutePath f <> path) ->
  cache' !! path = cacheAtStart env loadedCache !! path.
Proof.
  intros Hdone Hother.
  apply TASK_COMPILE_SOLIDITY_cache in Hdone as [(r & Hr & ->) _].
  fold (cacheAtStart env loadedCache) in *.
  apply COMPILE_JOBS_emitted in Hr as [Hperm Hall].
  rewrite updateCache_writes.
  destruct (foldl_insert_lookup (writtenEntries r) path (cacheAtStart env loadedCache))
    as [[_ Hl]|(e & He & _)]; [exact Hl|].
  exfalso. apply in_flat_map in He as ([job perFile] & Hjp & Hpe).
  apply in_map_iff in Hpe as ([f arts] & [= Hp _] & Hfa).
  apply (Hother job f); [| |exact Hp].
  - eapply Permutation_in; [exact Hperm|]. apply in_map_iff. by exists (job, perFile).
  - rewrite Forall_forall in Hall. apply list_elem_of_In in Hjp.
    pose proof (Hall _ Hjp) as Hfiles. simpl in Hfiles. rewrite <- Hfiles.
    apply in_map_iff. by exists (f, arts).
Qed.

(** A forced build of the job of [A.sol], which has [B.sol] as a
    dependency: the entry of [B.sol] stays as loaded. *)
Lemma build_leaves_other_cache_entries_alone_witness :
  exists cache',
    outcome (TASK_COMPILE_SOLIDITY (Sample.env [Sample.jobA]) true false
               Sample.fullCache) = Done cache'
    /\ cache' !! absolutePath Sample.fileB = Some Sample.entryB.
Proof.
  destruct (outcome (TASK_COMPILE_SOLIDITY (Sample.env [Sample.jobA]) true false
                       Sample.fullCache)) as [cache'| |] eqn:Hrun;
    [|vm_compute in Hrun; discriminate..].
  exists cache'. split; [reflexivity|].
  rewrite (build_leaves_other_cache_entries_alone (Sample.env [Sample.jobA]) true false
             Sample.fullCache cache' (absolutePath Sample.fileB) Hrun).
  - vm_compute. reflexivity.
  - intros job f [<-|[]] Hf. vm_compute in Hf. destruct Hf as [<-|[]]. discriminate.
Defined.

(** X14. A build that is not forced, of a project where job creation
    reports no error and no created job needs compilation, compiles
    nothing: it prints "Nothing to compile" unless quiet, then tidies up
    and writes back the cache it started from (the loaded cache without
    the entries whose artifacts are missing).  The merge of no jobs is
    taken to give no jobs. *)
Theorem up_to_date_project_compiles_nothing env quiet loadedCache :
  let cache := cacheAtStart env loadedCache in
  let planned := createCompilationJobs env cache in
  errors planned = [] ->
  Forall (fun job => needsCompilation job cache = false) (jobs planned) ->
  mergeCompilationJobsWithoutBug env [] = [] ->
  TASK_COMPILE_SOLIDITY env false quiet loadedCache
  = ((if quiet then [] else [Console NothingToCompile]) ++ housekeeping cache,
     Done cache).
Proof.
  intros cache planned Herr Hfresh Hmerge.
  rewrite TASK_COMPILE_SOLIDITY_run. fold cache planned. rewrite Herr.
  assert (jobsToCompile env false cache = []) as ->.
  { unfold jobsToCompile. fold planned.
    rewrite (filter_none _ _ Hfresh). exact Hmerge. }
  by destruct quiet.
Qed.

(** The sample project with every file cached and every artifact on
    disk. *)
Lemma up_to_date_project_compiles_nothing_witness :
  TASK_COMPILE_SOLIDITY (Sample.env [Sample.jobA; Sample.jobC]) false false
    Sample.fullCache
  = ([Console NothingToCompile] ++ housekeeping Sample.fullCache,
     Done Sample.fullCache).
Proof.
  assert (cacheAtStart (Sample.env [Sample.jobA; Sample.jobC]) Sample.fullCache
          = Sample.fullCache) as Hstart by reflexivity.
  rewrite <- Hstart at 2 3.
  apply (up_to_date_project_compiles_nothing (Sample.env [Sample.jobA; Sample.jobC])
           false Sample.fullCache).
  - reflexivity.
  - rewrite Hstart. repeat constructor.
  - reflexivity.
Defined.

Lemma compileJobsLoop_quiet env sorted quiet quiet' remaining : forall i,
  compileJobsLoop env sorted quiet i remaining
  = compileJobsLoop env sorted quiet' i remaining.
Proof.
  induction remaining as [|job rest IH]; intros i; cbn [compileJobsLoop];
    [reflexivity|].
  assert (TASK_COMPILE_SOLIDITY_COMPILE_JOB env job sorted i quiet true
          = TASK_COMPILE_SOLIDITY_COMPILE_JOB env job sorted i quiet' true) as ->
    by reflexivity.
  unfold bind at 1 3.
  destruct (TASK_COMPILE_SOLIDITY_COMPILE_JOB _ _ _ _ _ _) as [tr [res|e|]];
    [|reflexivity..].
  by rewrite (IH (S i)).
Qed.

(** X15. The quiet flag silences the line "Nothing to compile" and
    nothing else: the quiet build and the loud one end alike, and their
    traces are the same but for that line, which the loud build prints
    first when job creation reports no error and no job is left to
    compile.  Diagnostics, progress lines and the closing line are
    printed in a quiet build too. *)
Theorem quiet_silences_only_nothing_to_compile env force loadedCache :
  let loud := TASK_COMPILE_SOLIDITY env force false loadedCache in
  let silent := TASK_COMPILE_SOLIDITY env force true loadedCache in
  let cache := cacheAtStart env loadedCache in
  outcome silent = outcome loud
  /\ trace loud
     = match errors (createCompilationJobs env cache), jobsToCompile env force cache with
       | [], [] => [Console NothingToCompile]
       | _, _ => []
       end ++ trace silent.
Proof.
  intros loud silent cache. subst loud silent.
  rewrite !TASK_COMPILE_SOLIDITY_run. fold cache.
  destruct (errors _); [|by split].
  unfold TASK_COMPILE_SOLIDITY_COMPILE_JOBS, TASK_COMPILE_SOLIDITY_LOG_COMPILATION_RESULT.
  destruct (jobsToCompile env force cache) as [|job rest]; [by split|].
  rewrite bool_decide_eq_false_2 by done.
  rewrite (compileJobsLoop_quiet env _ true false).
  by destruct (compileJobsLoop _ _ _ _ _) as [tr [r|e|]].
Qed.

(** ** Diagnostics and the outcome of the check *)

Lemma errorLines_app tr1 tr2 : errorLines (tr1 ++ tr2) = errorLines tr1 ++ errorLines tr2.
Proof. apply flat_map_app. Qed.

Lemma warningLines_app tr1 tr2 :
  warningLines (tr1 ++ tr2) = warningLines tr1 ++ warningLines tr2.
Proof. apply flat_map_app. Qed.

Lemma logged_diagnostics errs :
  errorLines (map logDiagnostic errs)
    = List.filter (fun d => bool_decide (severity d = "error")) errs
  /\ warningLines (map logDiagnostic errs)
    = List.filter (fun d => negb (bool_decide (severity d = "error"))) errs.
Proof.
  induction errs as [|d errs [IH1 IH2]]; [done|].
  unfold errorLines, warningLines in *. cbn [map flat_map List.filter].
  rewrite IH1, IH2. unfold logDiagnostic. by case_bool_decide.
Qed.

Lemma existsb_filter_nonempty {A} (p : A -> bool) l :
  existsb p l = true <-> List.filter p l <> [].
Proof.
  induction l as [|x l IH]; cbn [existsb List.filter]; [done|].
  destruct (p x); cbn [orb]; [done|exact IH].
Qed.

(** X16. TASK_COMPILE_SOLIDITY_CHECK_ERRORS prints every diagnostic of
    the output once and in order, those of severity "error" as errors
    and all others as warnings, whatever the quiet flag; and it throws
    COMPILE_FAILURE exactly when it has printed a diagnostic as an
    error.  The hint about console.log does not bear on the outcome. *)
Theorem check_errors_fails_iff_it_printed_an_error output quiet :
  let run := TASK_COMPILE_SOLIDITY_CHECK_ERRORS output quiet in
  let diagnostics := default [] (outputErrors output) in
  errorLines (trace run)
    = List.filter (fun d => bool_decide (severity d = "error")) diagnostics
  /\ warningLines (trace run)
    = List.filter (fun d => negb (bool_decide (severity d = "error"))) diagnostics
  /\ (outcome run = Thrown COMPILE_FAILURE <-> errorLines (trace run) <> [])
  /\ (outcome run = Done tt <-> errorLines (trace run) = []).
Proof.
  cbv zeta.
  assert (errorLines (trace (TASK_COMPILE_SOLIDITY_CHECK_ERRORS output quiet))
            = List.filter (fun d => bool_decide (severity d = "error"))
                (default [] (outputErrors output))
          /\ warningLines (trace (TASK_COMPILE_SOLIDITY_CHECK_ERRORS output quiet))
            = List.filter (fun d => negb (bool_decide (severity d = "error")))
                (default [] (outputErrors output))) as [Herr Hwarn].
  { unfold TASK_COMPILE_SOLIDITY_CHECK_ERRORS,
      TASK_COMPILE_SOLIDITY_LOG_COMPILATION_ERRORS.
    destruct (outputErrors output) as [errs|]; cbn [default].
    - rewrite !trace_bind, !outcome_bind. cbn [trace outcome fst snd].
      rewrite !errorLines_app, !warningLines_app.
      destruct (logged_diagnostics errs) as [-> ->].
      destruct (existsb isConsoleLogError errs), (hasCompilationErrors _);
        cbn; by rewrite ?app_nil_r.
    - by destruct (hasCompilationErrors _). }
  split; [exact Herr|]. split; [exact Hwarn|].
  rewrite Herr. unfold TASK_COMPILE_SOLIDITY_CHECK_ERRORS.
  rewrite outcome_bind, LOG_COMPILATION_ERRORS_outcome.
  unfold hasCompilationErrors.
  destruct (outputErrors output) as [errs|]; cbn [default List.filter]; unfold id;
    [|split; split; done].
  pose proof (existsb_filter_nonempty
                (fun d => bool_decide (severity d = "error")) errs) as Hex.
  destruct (existsb _ errs); cbn [outcome throw ret snd].
  - split; split; try done.
    + intros _. by apply Hex.
    + intros H. by destruct (proj1 Hex eq_refl).
  - split; split; try done.
    + intros H. by apply Hex in H.
    + intros _.
      destruct (List.filter (fun d => bool_decide (severity d = "error")) errs);
        [done|]. by assert (false = true) by (by apply Hex).
Qed.

(** ** What a job records is what the next build checks *)



(** ** Planning: collecting and sorting out the errors *)

Lemma concatCreationResults_run results : forall jobsSoFar errorsSoFar,
  concatCreationResults jobsSoFar errorsSoFar results
  = mkCreationResult (jobsSoFar ++ concat (map jobs results))
      (errorsSoFar ++ concat (map errors results)).
Proof.
  induction results as [|result rest IH]; intros jobsSoFar errorsSoFar;
    cbn [concatCreationResults map concat].
  - by rewrite !app_nil_r.
  - by rewrite IH, !app_assoc.
Qed.

(** X18. TASK_COMPILE_SOLIDITY_GET_COMPILATION_JOBS hands on every job
    and every error of every connected component, in the order of the
    components; so TASK_COMPILE_SOLIDITY_HANDLE_COMPILATION_JOBS_FAILURES,
    given the collected errors, completes exactly when no component
    reported an error, and otherwise throws with all of them, whatever
    jobs the other components gave. *)
Theorem get_compilation_jobs_collects_all_components
    (compilationJobsCreationResults : list CompilationJobsCreationResult) :
  exists result,
    TASK_COMPILE_SOLIDITY_GET_COMPILATION_JOBS compilationJobsCreationResults
      = ret result
    /\ jobs result = concat (map jobs compilationJobsCreationResults)
    /\ errors result = concat (map errors compilationJobsCreationResults)
    /\ (TASK_COMPILE_SOLIDITY_HANDLE_COMPILATION_JOBS_FAILURES (errors result) = ret tt
        <-> Forall (fun r => errors r = []) compilationJobsCreationResults)
    /\ (errors result <> [] ->
        TASK_COMPILE_SOLIDITY_HANDLE_COMPILATION_JOBS_FAILURES (errors result)
        = throw (COMPILATION_JOBS_CREATION_FAILURE
                   (concat (map errors compilationJobsCreationResults)))).
Proof.
  unfold TASK_COMPILE_SOLIDITY_GET_COMPILATION_JOBS.
  rewrite concatCreationResults_run. eexists. split; [reflexivity|]. cbn [jobs errors app].
  split; [reflexivity|]. split; [reflexivity|].
  unfold TASK_COMPILE_SOLIDITY_HANDLE_COMPILATION_JOBS_FAILURES.
  assert (concat (map errors compilationJobsCreationResults) = []
          <-> Forall (fun r => errors r = []) compilationJobsCreationResults) as Hnone.
  { induction compilationJobsCreationResults as [|r rest IH]; cbn [map concat].
    - split; [constructor|done].
    - split.
      + intros [H1 H2]%app_eq_nil. constructor; [exact H1|by apply IH].
      + intros H. inversion H as [|? ? H1 H2]; subst. rewrite H1. by apply IH. }
  destruct (concat (map errors compilationJobsCreationResults)) as [|err errs].
  - split; [|done]. split; [intros _; by apply Hnone|done].
  - split; [|done]. split; [discriminate|]. intros H. by apply Hnone in H.
Qed.

Lemma groupErrorsByReason_run errors : forall groups,
  foldl pushError groups errors
  = mkFailureGroups
      (noCompatibleSolc groups ++ withReason NO_COMPATIBLE_SOLC_VERSION_FOUND errors)
      (incompatibleOverridenSolc groups
         ++ withReason INCOMPATIBLE_OVERRIDEN_SOLC_VERSION errors)
      (directlyImportsIncompatibleFile groups
         ++ withReason DIRECTLY_IMPORTS_INCOMPATIBLE_FILE errors)
      (indirectlyImportsIncompatibleFile groups
         ++ withReason INDIRECTLY_IMPORTS_INCOMPATIBLE_FILE errors)
      (other groups ++ withReason OTHER_ERROR errors).
Proof.
  induction errors as [|error rest IH]; intros groups; cbn [foldl].
  - unfold withReason. cbn [List.filter]. rewrite !app_nil_r. by destruct groups.
  - rewrite IH. unfold pushError, withReason. cbn [List.filter].
    destruct (reason error); simpl; by rewrite <- ?app_assoc.
Qed.

(** X19. The first loop of
    TASK_COMPILE_SOLIDITY_GET_COMPILATION_JOBS_FAILURE_REASONS puts every
    error into the one array of its reason and keeps the order of the
    errors within each array: each array holds the errors with its
    reason, in order, so the five arrays together hold each error once. *)
Theorem failure_reasons_groups_partition_the_errors
    (errors : list CompilationJobCreationError) :
  let groups := groupErrorsByReason errors in
  noCompatibleSolc groups = withReason NO_COMPATIBLE_SOLC_VERSION_FOUND errors
  /\ incompatibleOverridenSolc groups
     = withReason INCOMPATIBLE_OVERRIDEN_SOLC_VERSION errors
  /\ directlyImportsIncompatibleFile groups
     = withReason DIRECTLY_IMPORTS_INCOMPATIBLE_FILE errors
  /\ indirectlyImportsIncompatibleFile groups
     = withReason INDIRECTLY_IMPORTS_INCOMPATIBLE_FILE errors
  /\ other groups = withReason OTHER_ERROR errors
  /\ Permutation
       (noCompatibleSolc groups ++ incompatibleOverridenSolc groups
          ++ directlyImportsIncompatibleFile groups
          ++ indirectlyImportsIncompatibleFile groups ++ other groups)
       errors.
Proof.
  cbv zeta. unfold groupErrorsByReason. rewrite groupErrorsByReason_run.
  cbn [noCompatibleSolc incompatibleOverridenSolc directlyImportsIncompatibleFile
         indirectlyImportsIncompatibleFile other app].
  split_and!; try reflexivity.
  induction errors as [|error rest IH]; [reflexivity|].
  unfold withReason in *. cbn [List.filter].
  destruct (reason error); simpl.
  - by constructor.
  - rewrite <- Permutation_middle. by constructor.
  - rewrite app_assoc, <- Permutation_middle, <- app_assoc. by constructor.
  - rewrite !app_assoc, <- Permutation_middle, <- !app_assoc. by constructor.
  - rewrite !app_assoc, <- Permutation_middle, <- !app_assoc. by constructor.
Qed.

(* ===================================================================== *)
(** * Properties of the blockchain store *)
(* ===================================================================== *)

Section BlockchainDataProperties.
Import BlockchainData.

(** ** Splitting an empty block range *)

Lemma findIndex_Some {A} (p : A -> bool) l i :
  findIndex p l = Some i ->
  exists x, l !! i = Some x /\ p x = true
            /\ List.filter p (delete i l) = tail (List.filter p l).
Proof.
  revert i. induction l as [|y l IH]; intros i; cbn [findIndex]; [discriminate|].
  destruct (p y) eqn:Hy.
  - intros [= <-]. exists y. cbn [List.filter]. by rewrite Hy.
  - destruct (findIndex p l) as [j|]; [|discriminate]. intros [= <-].
    destruct (IH j eq_refl) as (x & Hx & Hp & Hf). exists x.
    split_and!; [done..|]. cbn [delete list_delete List.filter]. by rewrite Hy.
Qed.

Lemma findIndex_None {A} (p : A -> bool) l :
  findIndex p l = None <-> List.filter p l = [].
Proof.
  induction l as [|y l IH]; cbn [findIndex List.filter]; [done|].
  destruct (p y); [done|]. rewrite <- IH. by destruct (findIndex p l).
Qed.

Lemma List_filter_Permutation {A} (q : A -> bool) l l' :
  Permutation l l' -> Permutation (List.filter q l) (List.filter q l').
Proof.
  induction 1 as [|x l l' _ IH|x y l|l l' l'' _ IH1 _ IH2]; cbn [List.filter].
  - constructor.
  - destruct (q x); [by constructor|exact IH].
  - destruct (q x), (q y); by repeat constructor.
  - by etransitivity.
Qed.

Lemma filter_delete_Permutation {A} (q : A -> bool) l i x :
  l !! i = Some x ->
  Permutation (List.filter q l) (List.filter q (delete i l ++ [x])).
Proof.
  intros Hx. apply List_filter_Permutation.
  rewrite (delete_Permutation l i x Hx) at 1. apply Permutation_cons_append.
Qed.

(** A call that finds a range, spelled out. *)
Lemma splitAnyEmptyBlockRangesFor_found this blockNumber rangeIndex :
  findIndex (fun range => contains range blockNumber) (emptyBlockRanges this)
    = Some rangeIndex ->
  exists oldRange,
    emptyBlockRanges this !! rangeIndex = Some oldRange
    /\ contains oldRange blockNumber = true
    /\ splitAnyEmptyBlockRangesFor this blockNumber
       = mkSplitResult
           (["BlockchainData.splitANyEmptyBlockRangesFor(): the block number lies within the identified empty block range"]
              ++ (if negb (blockNumber =? first oldRange)%Z then ["a"] else [])
              ++ (if negb (blockNumber =? last oldRange)%Z then ["b"] else []))
           (withEmptyBlockRanges this
              (delete rangeIndex (emptyBlockRanges this)
                 ++ (if negb (blockNumber =? first oldRange)%Z
                     then [mkEmptyBlockRange (first oldRange) (blockNumber - 1)
                             (intervalInSeconds oldRange)]
                     else [])
                 ++ (if negb (blockNumber =? last oldRange)%Z
                     then [mkEmptyBlockRange (blockNumber + 1) (last oldRange)
                             (intervalInSeconds oldRange)]
                     else [])))
           true.
Proof.
  intros Hfound. unfold splitAnyEmptyBlockRangesFor. rewrite Hfound.
  apply findIndex_Some in Hfound as (oldRange & Hold & Hin & _).
  exists oldRange. by rewrite Hold.
Qed.

(** X20. splitAnyEmptyBlockRangesFor returns true exactly when some
    empty block range of the store holds the block number; when none
    does it returns false, prints nothing and leaves the store as it
    is. *)
Theorem split_reports_whether_a_range_held_the_block this blockNumber :
  (returned (splitAnyEmptyBlockRangesFor this blockNumber) = true
     <-> inEmptyRange this blockNumber)
  /\ (~ inEmptyRange this blockNumber ->
      splitAnyEmptyBlockRangesFor this blockNumber = mkSplitResult [] this false).
Proof.
  assert (inEmptyRange this blockNumber
          <-> List.filter (fun range => contains range blockNumber)
                (emptyBlockRanges this) <> []) as Hin.
  { unfold inEmptyRange. split.
    - intros (range & Hr & Hc) Hnil.
      assert (In range (List.filter (fun range => contains range blockNumber)
                          (emptyBlockRanges this))) as H by (by apply filter_In).
      by rewrite Hnil in H.
    - destruct (List.filter _ _) as [|range l] eqn:Hf; [done|]. intros _.
      assert (In range (List.filter (fun range => contains range blockNumber)
                          (emptyBlockRanges this))) as H by (rewrite Hf; by left).
      apply filter_In in H. by exists range. }
  destruct (findIndex (fun range => contains range blockNumber) (emptyBlockRanges this))
    as [rangeIndex|] eqn:Hfound.
  - destruct (splitAnyEmptyBlockRangesFor_found _ _ _ Hfound)
      as (oldRange & Hold & Hc & ->). cbn [returned].
    assert (inEmptyRange this blockNumber) as Hyes.
    { exists oldRange. split; [|done]. apply list_elem_of_In.
      by eapply list_elem_of_lookup_2. }
    split; [done|]. by intros [].
  - unfold splitAnyEmptyBlockRangesFor. rewrite Hfound. cbn [returned].
    apply findIndex_None in Hfound. split; [|done].
    split; [discriminate|]. intros H. by apply Hin in H.
Qed.

Ltac range_cases :=
  unfold contains in *;
  repeat (cbn in *; rewrite ?Z.geb_leb in *;
          match goal with
          | H : context [(?a =? ?b)%Z] |- _ => destruct (Z.eqb_spec a b)
          | |- context [(?a =? ?b)%Z] => destruct (Z.eqb_spec a b)
          | H : context [(?a <=? ?b)%Z] |- _ => destruct (Z.leb_spec a b)
          | |- context [(?a <=? ?b)%Z] => destruct (Z.leb_spec a b)
          end);
  simpl in *;
  first [reflexivity | discriminate | exfalso; lia | lia | idtac].

(** The two pieces that replace a split range hold the numbers of the
    range other than the block number, under the interval of the
    range. *)
Lemma pieces_hold_the_rest oldRange blockNumber m :
  contains oldRange blockNumber = true -> m <> blockNumber ->
  map intervalInSeconds
    (List.filter (fun range => contains range m)
       ((if negb (blockNumber =? first oldRange)%Z
         then [mkEmptyBlockRange (first oldRange) (blockNumber - 1)
                 (intervalInSeconds oldRange)]
         else [])
        ++ (if negb (blockNumber =? last oldRange)%Z
            then [mkEmptyBlockRange (blockNumber + 1) (last oldRange)
                    (intervalInSeconds oldRange)]
            else [])))
  = map intervalInSeconds (List.filter (fun range => contains range m) [oldRange]).
Proof. intros Hc Hm. destruct oldRange as [lo hi interval]. range_cases. Qed.

Lemma pieces_leave_out_the_block oldRange blockNumber :
  List.filter (fun range => contains range blockNumber)
    ((if negb (blockNumber =? first oldRange)%Z
      then [mkEmptyBlockRange (first oldRange) (blockNumber - 1)
              (intervalInSeconds oldRange)]
      else [])
     ++ (if negb (blockNumber =? last oldRange)%Z
         then [mkEmptyBlockRange (blockNumber + 1) (last oldRange)
                 (intervalInSeconds oldRange)]
         else []))
  = [].
Proof. destruct oldRange as [lo hi interval]. range_cases. Qed.

Lemma intervalsAt_split_other this blockNumber m :
  m <> blockNumber ->
  Permutation (intervalsAt (after (splitAnyEmptyBlockRangesFor this blockNumber)) m)
    (intervalsAt this m).
Proof.
  intros Hm.
  destruct (findIndex (fun range => contains range blockNumber) (emptyBlockRanges this))
    as [rangeIndex|] eqn:Hfound.
  - destruct (splitAnyEmptyBlockRangesFor_found _ _ _ Hfound)
      as (oldRange & Hold & Hc & ->).
    unfold intervalsAt. cbn [after withEmptyBlockRanges emptyBlockRanges].
    rewrite (filter_delete_Permutation (fun range => contains range m) _ _ _ Hold).
    rewrite !List.filter_app, !map_app. apply Permutation_app_head.
    rewrite <- map_app, <- List.filter_app. by rewrite pieces_hold_the_rest.
  - unfold splitAnyEmptyBlockRangesFor. by rewrite Hfound.
Qed.

Lemma intervalsAt_split_same this blockNumber :
  intervalsAt (after (splitAnyEmptyBlockRangesFor this blockNumber)) blockNumber
  = tail (intervalsAt this blockNumber).
Proof.
  destruct (findIndex (fun range => contains range blockNumber) (emptyBlockRanges this))
    as [rangeIndex|] eqn:Hfound.
  - destruct (splitAnyEmptyBlockRangesFor_found _ _ _ Hfound)
      as (oldRange & Hold & Hc & ->).
    apply findIndex_Some in Hfound as (x & _ & _ & Hdel).
    unfold intervalsAt. cbn [after withEmptyBlockRanges emptyBlockRanges].
    rewrite List.filter_app, pieces_leave_out_the_block, app_nil_r, Hdel.
    by destruct (List.filter _ (emptyBlockRanges this)).
  - unfold splitAnyEmptyBlockRangesFor. rewrite Hfound. cbn [after].
    apply findIndex_None in Hfound. unfold intervalsAt. by rewrite Hfound.
Qed.

(** X21. splitAnyEmptyBlockRangesFor takes the block number out of the
    first range that holds it, and nothing else: every other block
    number lies in as many ranges as before and under the same
    intervals, the block number itself lies in one range fewer (in none,
    if it lay in one), and the maps of the store are not touched. *)
Theorem split_takes_out_the_block_number_only this blockNumber :
  let this' := after (splitAnyEmptyBlockRangesFor this blockNumber) in
  (forall m, m <> blockNumber -> Permutation (intervalsAt this' m) (intervalsAt this m))
  /\ intervalsAt this' blockNumber = tail (intervalsAt this blockNumber)
  /\ withEmptyBlockRanges this' (emptyBlockRanges this) = this.
Proof.
  cbv zeta. split; [intros m; apply intervalsAt_split_other|].
  split; [apply intervalsAt_split_same|].
  unfold splitAnyEmptyBlockRangesFor.
  destruct (findIndex _ _) as [rangeIndex|]; [|by destruct this].
  destruct (emptyBlockRanges this !! rangeIndex); by destruct this.
Qed.

Lemma split_in_order this blockNumber :
  rangesInOrder this ->
  rangesInOrder (after (splitAnyEmptyBlockRangesFor this blockNumber)).
Proof.
  unfold rangesInOrder. intros Hord.
  destruct (findIndex (fun range => contains range blockNumber) (emptyBlockRanges this))
    as [rangeIndex|] eqn:Hfound.
  - destruct (splitAnyEmptyBlockRangesFor_found _ _ _ Hfound)
      as (oldRange & Hold & Hc & ->).
    cbn [after withEmptyBlockRanges emptyBlockRanges].
    apply Forall_app. split.
    { by apply Forall_delete. }
    destruct oldRange as [lo hi interval]. apply Forall_app.
    split; range_cases; repeat constructor; cbn; lia.
  - unfold splitAnyEmptyBlockRangesFor. by rewrite Hfound.
Qed.

(** X22. When no block number lies in two empty block ranges and every
    range has its first number at or below its last,
    splitAnyEmptyBlockRangesFor keeps both, and leaves the block number
    in no range: a second call for the same number returns false and
    changes nothing. *)
Theorem split_keeps_the_ranges_disjoint_and_in_order this blockNumber :
  rangesDisjoint this -> rangesInOrder this ->
  let this' := after (splitAnyEmptyBlockRangesFor this blockNumber) in
  rangesDisjoint this' /\ rangesInOrder this'
  /\ ~ inEmptyRange this' blockNumber
  /\ splitAnyEmptyBlockRangesFor this' blockNumber = mkSplitResult [] this' false.
Proof.
  intros Hdis Hord this'.
  assert (intervalsAt this' blockNumber = []) as Hnone.
  { subst this'. rewrite intervalsAt_split_same.
    pose proof (Hdis blockNumber) as Hlen.
    destruct (intervalsAt this blockNumber) as [|a [|b l]]; [done..|]. simpl in Hlen. lia. }
  assert (List.filter (fun range => contains range blockNumber) (emptyBlockRanges this')
          = []) as Hfilter.
  { unfold intervalsAt in Hnone. by destruct (List.filter _ _). }
  split_and!.
  - intros m. destruct (decide (m = blockNumber)) as [->|Hm].
    + rewrite Hnone. simpl. lia.
    + subst this'. rewrite (Permutation_length (intervalsAt_split_other _ _ _ Hm)).
      apply Hdis.
  - by apply split_in_order.
  - intros (range & Hr & Hc).
    assert (In range (List.filter (fun range => contains range blockNumber)
                        (emptyBlockRanges this'))) as H by (by apply filter_In).
    by rewrite Hfilter in H.
  - unfold splitAnyEmptyBlockRangesFor.
    by rewrite (proj2 (findIndex_None _ _) Hfilter).
Qed.

(** Number 15 taken out of the range from 10 to 20: the ranges are 30 to
    40, 10 to 14 and 16 to 20, and a second call finds nothing. *)
Lemma split_keeps_the_ranges_disjoint_and_in_order_witness :
  emptyBlockRanges (after (splitAnyEmptyBlockRangesFor BlockchainSamples.ranged 15))
  = [mkEmptyBlockRange 30 40 7; mkEmptyBlockRange 10 14 5; mkEmptyBlockRange 16 20 5]
  /\ splitAnyEmptyBlockRangesFor
       (after (splitAnyEmptyBlockRangesFor BlockchainSamples.ranged 15)) 15
     = mkSplitResult [] (after (splitAnyEmptyBlockRangesFor BlockchainSamples.ranged 15))
         false.
Proof.
  split; [reflexivity|].
  apply (split_keeps_the_ranges_disjoint_and_in_order BlockchainSamples.ranged 15).
  - intros m. unfold intervalsAt. vm_compute emptyBlockRanges. range_cases.
  - repeat constructor; cbn; lia.
Defined.

(** ** Blocks and their transactions *)

Lemma toNumber_Returns n k : toNumber n = Returns k -> k = n /\ (Z.abs n < 2 ^ 53)%Z.
Proof. unfold toNumber. case_bool_decide; [|discriminate]. by intros [= <-]. Qed.

Lemma toNumber_Throws n : toNumber n = Throws <-> beyond53Bits n.
Proof. unfold toNumber, beyond53Bits. case_bool_decide; split; try done; lia. Qed.

Lemma hashOfTransaction_Returns tx h :
  hashOfTransaction tx = Returns h -> h = transactionHashBuffer tx.
Proof. unfold hashOfTransaction. case_match; [discriminate|]. by intros [= <-]. Qed.

(** The loop of [addBlock] runs to its end exactly when every
    transaction has a hash. *)
Lemma addTransactionsOf_result block txs : forall maps,
  (addTransactionsOf block txs maps).2 = Throws
  <-> exists tx, In tx txs /\ hashOfTransaction tx = Throws.
Proof.
  induction txs as [|tx rest IH]; intros maps; cbn [addTransactionsOf].
  - split; [discriminate|]. by intros (? & [] & _).
  - destruct (hashOfTransaction tx) as [h|] eqn:Hh.
    + rewrite IH. split.
      * intros (tx' & Hin & Hthrows). exists tx'. split; [by right|done].
      * intros (tx' & [<-|Hin] & Hthrows); [congruence|]. by exists tx'.
    + split; [|done]. intros _. exists tx. split; [by left|done].
Qed.

Lemma addTransactionsOf_lookup block txs k : forall m1 m2 m1' m2',
  addTransactionsOf block txs (m1, m2) = (m1', m2', Returns tt) ->
  (In k (map (fun tx => bufferToHex (transactionHashBuffer tx)) txs) ->
     (exists tx, In tx txs /\ bufferToHex (transactionHashBuffer tx) = k
                 /\ m1' !! k = Some tx)
     /\ m2' !! k = Some block)
  /\ (~ In k (map (fun tx => bufferToHex (transactionHashBuffer tx)) txs) ->
      m1' !! k = m1 !! k /\ m2' !! k = m2 !! k).
Proof.
  induction txs as [|tx rest IH]; intros m1 m2 m1' m2';
    cbn [addTransactionsOf map fst snd].
  - intros [= <- <-]. split; [by intros []|done].
  - destruct (hashOfTransaction tx) as [h|] eqn:Hh; [|discriminate].
    apply hashOfTransaction_Returns in Hh as ->. intros Hrun.
    destruct (IH _ _ _ _ Hrun) as [IHin IHout].
    destruct (In_dec string_dec k
                (map (fun tx => bufferToHex (transactionHashBuffer tx)) rest))
      as [Hrest|Hrest].
    + split; [|intros Hno; destruct Hno; by right]. intros _.
      destruct (IHin Hrest) as [(tx' & Hin & Hk & Hl) Hb].
      split; [|exact Hb]. exists tx'. split_and!; [by right|done..].
    + destruct (IHout Hrest) as [-> ->].
      destruct (decide (bufferToHex (transactionHashBuffer tx) = k)) as [Hk|Hk].
      * split; [|intros Hno; destruct Hno; by left]. intros _.
        rewrite <- Hk, !lookup_insert_eq. split; [|done].
        exists tx. split_and!; [by left|done..].
      * rewrite !lookup_insert_ne by done.
        split; [|done]. intros [?|?]; done.
Qed.

Lemma removeTransactionsOf_result txs : forall maps,
  (removeTransactionsOf txs maps).2 = Throws
  <-> exists tx, In tx txs /\ hashOfTransaction tx = Throws.
Proof.
  induction txs as [|tx rest IH]; intros [[m1 m2] m3]; cbn [removeTransactionsOf].
  - split; [discriminate|]. by intros (? & [] & _).
  - destruct (hashOfTransaction tx) as [h|] eqn:Hh.
    + rewrite IH. split.
      * intros (tx' & Hin & Hthrows). exists tx'. split; [by right|done].
      * intros (tx' & [<-|Hin] & Hthrows); [congruence|]. by exists tx'.
    + split; [|done]. intros _. exists tx. split; [by left|done].
Qed.

Lemma removeTransactionsOf_lookup txs k : forall m1 m2 m3 m1' m2' m3',
  removeTransactionsOf txs (m1, m2, m3) = (m1', m2', m3', Returns tt) ->
  (In k (map (fun tx => bufferToHex (transactionHashBuffer tx)) txs) ->
     m1' !! k = None /\ m2' !! k = None /\ m3' !! k = None)
  /\ (~ In k (map (fun tx => bufferToHex (transactionHashBuffer tx)) txs) ->
      m1' !! k = m1 !! k /\ m2' !! k = m2 !! k /\ m3' !! k = m3 !! k).
Proof.
  induction txs as [|tx rest IH]; intros m1 m2 m3 m1' m2' m3';
    cbn [removeTransactionsOf map].
  - intros [= <- <- <-]. split; [by intros []|done].
  - destruct (hashOfTransaction tx) as [h|] eqn:Hh; [|discriminate].
    apply hashOfTransaction_Returns in Hh as ->. intros Hrun.
    destruct (IH _ _ _ _ _ _ Hrun) as [IHin IHout].
    destruct (In_dec string_dec k
                (map (fun tx => bufferToHex (transactionHashBuffer tx)) rest))
      as [Hrest|Hrest].
    + split; [by intros _; apply IHin|]. intros Hno. destruct Hno. by right.
    + destruct (IHout Hrest) as (-> & -> & ->).
      destruct (decide (bufferToHex (transactionHashBuffer tx) = k)) as [Hk|Hk].
      * split; [|intros Hno; destruct Hno; by left]. intros _.
        by rewrite <- Hk, !lookup_delete_eq.
      * rewrite !lookup_delete_ne by done.
        split; [|done]. intros [?|?]; done.
Qed.

(** A call of [addBlock] that returns, spelled out. *)
Lemma addBlock_Returns this block totalDifficulty this' :
  addBlock this block totalDifficulty = Returns this' ->
  exists m1' m2',
    toNumber (number (header block)) = Returns (number (header block))
    /\ addTransactionsOf block (transactions block)
         (_transactions this, _blocksByTransactions this) = (m1', m2', Returns tt)
    /\ this' = mkBlockchainData
                 (<[number (header block) := block]> (_blocksByNumber this))
                 (<[bufferToHex (hash block) := block]> (_blocksByHash this))
                 m2' m1' (_transactionReceipts this)
                 (<[bufferToHex (hash block) := totalDifficulty]> (_totalDifficulty this))
                 (emptyBlockRanges this).
Proof.
  unfold addBlock, addBlockRun.
  destruct (toNumber (number (header block))) as [n|] eqn:Hn; [|discriminate].
  apply toNumber_Returns in Hn as [-> _].
  destruct (addTransactionsOf _ _ _) as [[m1' m2'] [[]|]]; [|discriminate].
  intros [= <-]. by exists m1', m2'.
Qed.

(** A call of [removeBlock] that returns, spelled out. *)
Lemma removeBlock_Returns this block this' :
  removeBlock this block = Returns this' ->
  exists m1' m2' m3',
    toNumber (number (header block)) = Returns (number (header block))
    /\ removeTransactionsOf (transactions block)
         (_transactions this, _transactionReceipts this, _blocksByTransactions this)
       = (m1', m2', m3', Returns tt)
    /\ this' = mkBlockchainData
                 (delete (number (header block)) (_blocksByNumber this))
                 (delete (bufferToHex (hash block)) (_blocksByHash this))
                 m3' m1' m2'
                 (delete (bufferToHex (hash block)) (_totalDifficulty this))
                 (emptyBlockRanges this).
Proof.
  unfold removeBlock, removeBlockRun.
  destruct (toNumber (number (header block))) as [n|] eqn:Hn; [|discriminate].
  apply toNumber_Returns in Hn as [-> _].
  destruct (removeTransactionsOf _ _) as [[[m1' m2'] m3'] [[]|]]; [|discriminate].
  intros [= <-]. by exists m1', m2', m3'.
Qed.

(** X23. After addBlock has returned, the block is found under its
    number and under its hash, its total difficulty under its hash, and
    under the hash of each of its transactions the block and a
    transaction of the block with that hash; receipts and empty block
    ranges are as before. *)
Theorem add_block_makes_the_block_findable this block totalDifficulty this' :
  addBlock this block totalDifficulty = Returns this' ->
  getBlockByNumber this' (number (header block)) = Returns (Some block)
  /\ getBlockByHash this' (hash block) = Some block
  /\ getTotalDifficulty this' (hash block) = Some totalDifficulty
  /\ (forall tx, In tx (transactions block) ->
        getBlockByTransactionHash this' (transactionHashBuffer tx) = Some block
        /\ exists tx', In tx' (transactions block)
             /\ bufferToHex (transactionHashBuffer tx')
                = bufferToHex (transactionHashBuffer tx)
             /\ getTransaction this' (transactionHashBuffer tx) = Some tx')
  /\ _transactionReceipts this' = _transactionReceipts this
  /\ emptyBlockRanges this' = emptyBlockRanges this.
Proof.
  intros (m1' & m2' & Hn & Hrun & ->)%addBlock_Returns.
  unfold getBlockByNumber, getBlockByHash, getTotalDifficulty,
    getBlockByTransactionHash, getTransaction.
  cbn [_blocksByNumber _blocksByHash _blocksByTransactions _transactions
         _transactionReceipts _totalDifficulty emptyBlockRanges].
  rewrite Hn, !lookup_insert_eq.
  split_and!; try reflexivity.
  intros tx Htx.
  destruct (proj1 (addTransactionsOf_lookup block (transactions block)
                     (bufferToHex (transactionHashBuffer tx)) _ _ _ _ Hrun))
    as [(tx' & Hin & Hk & Hl) Hb].
  { apply in_map_iff. by exists tx. }
  split; [exact Hb|]. by exists tx'.
Qed.

(** A block with two transactions added to an empty store. *)
Lemma add_block_makes_the_block_findable_witness :
  exists this',
    addBlock new BlockchainSamples.block1 100 = Returns this'
    /\ getBlockByNumber this' 1 = Returns (Some BlockchainSamples.block1)
    /\ getBlockByTransactionHash this' [Byte.xa2] = Some BlockchainSamples.block1.
Proof.
  destruct (addBlock new BlockchainSamples.block1 100) as [this'|] eqn:Hadd;
    [|vm_compute in Hadd; discriminate].
  exists this'. split; [reflexivity|].
  destruct (add_block_makes_the_block_findable new BlockchainSamples.block1 100 this'
              Hadd) as (Hnum & _ & _ & Htx & _).
  split; [exact Hnum|]. apply (Htx BlockchainSamples.tx2). right. by left.
Defined.

(** X24. removeBlock undoes addBlock for a block that is new to the
    store: when nothing is stored under the block's number, under its
    hash or under the hashes of its transactions, adding the block and
    removing it again gives back the store. *)
Theorem remove_block_undoes_add_block this block totalDifficulty this' :
  _blocksByNumber this !! number (header block) = None ->
  _blocksByHash this !! bufferToHex (hash block) = None ->
  _totalDifficulty this !! bufferToHex (hash block) = None ->
  (forall k, In k (transactionKeys block) ->
     _transactions this !! k = None
     /\ _transactionReceipts this !! k = None
     /\ _blocksByTransactions this !! k = None) ->
  addBlock this block totalDifficulty = Returns this' ->
  removeBlock this' block = Returns this.
Proof.
  intros Hnum Hhash Htd Htx (m1' & m2' & Hn & Hadded & ->)%addBlock_Returns.
  unfold removeBlock, removeBlockRun. rewrite Hn.
  cbn [_blocksByNumber _blocksByHash _blocksByTransactions _transactions
         _transactionReceipts _totalDifficulty emptyBlockRanges].
  pose proof (removeTransactionsOf_result (transactions block)
                (m1', _transactionReceipts this, m2')) as Hresult.
  pose proof (fun k => removeTransactionsOf_lookup (transactions block) k
                m1' (_transactionReceipts this) m2') as Hremoved.
  destruct (removeTransactionsOf _ _) as [[[txMap receipts] byTx] [[]|]].
  2:{ destruct (proj1 Hresult eq_refl) as (tx & Hin & Hthrows).
      assert ((addTransactionsOf block (transactions block)
                 (_transactions this, _blocksByTransactions this)).2 = Throws) as H.
      { apply addTransactionsOf_result. by exists tx. }
      by rewrite Hadded in H. }
  specialize (fun k => Hremoved k _ _ _ eq_refl).
  assert (txMap = _transactions this /\ receipts = _transactionReceipts this
          /\ byTx = _blocksByTransactions this) as (-> & -> & ->).
  { split_and!; apply map_eq; intros k;
      destruct (Hremoved k) as [Hin Hout];
      (destruct (In_dec string_dec k (transactionKeys block)) as [Hk|Hk];
       [destruct (Hin Hk) as (E1 & E2 & E3); destruct (Htx k Hk) as (F1 & F2 & F3);
        congruence
       |destruct (Hout Hk) as (E1 & E2 & E3);
        destruct (proj2 (addTransactionsOf_lookup block (transactions block) k
                           _ _ _ _ Hadded) Hk)
          as [G1 G2]; congruence]). }
  rewrite !delete_insert_id by done. by destruct this.
Qed.

(** The sample block added to an empty store and removed again. *)
Lemma remove_block_undoes_add_block_witness :
  exists this',
    addBlock new BlockchainSamples.block1 100 = Returns this'
    /\ removeBlock this' BlockchainSamples.block1 = Returns new.
Proof.
  destruct (addBlock new BlockchainSamples.block1 100) as [this'|] eqn:Hadd;
    [|vm_compute in Hadd; discriminate].
  exists this'. split; [reflexivity|].
  by apply (remove_block_undoes_add_block new BlockchainSamples.block1 100 this').
Defined.

(** X25. removeBlock clears what is stored under the number of the
    block, under its hash and under the hashes of its transactions
    (block, total difficulty, transactions, receipts), whether or not it
    is this block that is stored there, and leaves every other key and
    the empty block ranges alone.  So removing a block whose number is
    held by another block takes that block out of the index by number
    and leaves it in the index by hash. *)
Theorem remove_block_clears_the_keys_of_the_block this block this' :
  removeBlock this block = Returns this' ->
  getBlockByNumber this' (number (header block)) = Returns None
  /\ getBlockByHash this' (hash block) = None
  /\ getTotalDifficulty this' (hash block) = None
  /\ (forall tx, In tx (transactions block) ->
        getTransaction this' (transactionHashBuffer tx) = None
        /\ getTransactionReceipt this' (transactionHashBuffer tx) = None
        /\ getBlockByTransactionHash this' (transactionHashBuffer tx) = None)
  /\ (forall n, n <> number (header block) ->
        _blocksByNumber this' !! n = _blocksByNumber this !! n)
  /\ (forall k, k <> bufferToHex (hash block) ->
        _blocksByHash this' !! k = _blocksByHash this !! k
        /\ _totalDifficulty this' !! k = _totalDifficulty this !! k)
  /\ (forall k, ~ In k (transactionKeys block) ->
        _transactions this' !! k = _transactions this !! k
        /\ _transactionReceipts this' !! k = _transactionReceipts this !! k
        /\ _blocksByTransactions this' !! k = _blocksByTransactions this !! k)
  /\ emptyBlockRanges this' = emptyBlockRanges this.
Proof.
  intros (m1' & m2' & m3' & Hn & Hrun & ->)%removeBlock_Returns.
  unfold getBlockByNumber, getBlockByHash, getTotalDifficulty,
    getBlockByTransactionHash, getTransaction, getTransactionReceipt.
  pose proof (fun k => removeTransactionsOf_lookup (transactions block) k
                _ _ _ _ _ _ Hrun) as Hremoved.
  cbn [_blocksByNumber _blocksByHash _blocksByTransactions _transactions
         _transactionReceipts _totalDifficulty emptyBlockRanges].
  rewrite Hn, !lookup_delete_eq. split_and!; try reflexivity.
  - intros tx Htx. apply (proj1 (Hremoved _)). apply in_map_iff. by exists tx.
  - intros m Hm. by rewrite lookup_delete_ne.
  - intros k Hk. by rewrite !lookup_delete_ne.
  - intros k Hk. by apply (proj2 (Hremoved k)).
Qed.

(** Another block takes the number of the sample block; removing the
    sample block then takes the other block out of the index by number,
    not out of the index by hash. *)
Lemma remove_block_clears_the_keys_of_the_block_witness :
  exists this1 this2 this3,
    addBlock new BlockchainSamples.block1 100 = Returns this1
    /\ addBlock this1 BlockchainSamples.block1' 100 = Returns this2
    /\ removeBlock this2 BlockchainSamples.block1 = Returns this3
    /\ getBlockByNumber this3 1 = Returns None
    /\ getBlockByHash this3 (hash BlockchainSamples.block1')
       = Some BlockchainSamples.block1'.
Proof.
  destruct (addBlock new BlockchainSamples.block1 100) as [this1|] eqn:H1;
    [|vm_compute in H1; discriminate].
  destruct (addBlock this1 BlockchainSamples.block1' 100) as [this2|] eqn:H2;
    [|injection H1 as <-; vm_compute in H2; discriminate].
  destruct (removeBlock this2 BlockchainSamples.block1) as [this3|] eqn:H3;
    [|injection H1 as <-; injection H2 as <-; vm_compute in H3; discriminate].
  exists this1, this2, this3.
  destruct (remove_block_clears_the_keys_of_the_block this2 BlockchainSamples.block1
              this3 H3) as (Hnum & _ & _ & _ & _ & Hother & _).
  split_and!; try reflexivity; try assumption.
  unfold getBlockByHash.
  rewrite (proj1 (Hother (bufferToHex (hash BlockchainSamples.block1')) ltac:(done))).
  injection H1 as <-. injection H2 as <-. reflexivity.
Defined.

(** ** Logs *)

Section GetLogsProperties.
Context (bloomFilter : Buffer -> list Buffer -> list (option (list Buffer)) -> bool).
Context (filterLogs : list RpcLogOutput -> FilterParams -> list RpcLogOutput).

Lemma logsOfTransactions_Throws this filterParams txs :
  logsOfTransactions filterLogs this filterParams txs = Throws
  <-> exists tx, In tx txs /\ hashOfTransaction tx = Throws.
Proof.
  induction txs as [|tx rest IH]; cbn [logsOfTransactions].
  - split; [discriminate|]. by intros (? & [] & _).
  - destruct (hashOfTransaction tx) as [h|] eqn:Hh; cbn [andThen].
    + destruct (logsOfTransactions filterLogs this filterParams rest) as [more|];
        cbn [andThen].
      * split; [discriminate|]. intros (tx' & [<-|Hin] & Hthrows); [congruence|].
        assert (@Returns (list RpcLogOutput) more = Throws) as H; [|discriminate].
        apply IH. by exists tx'.
      * split; [|done]. intros _. destruct (proj1 IH eq_refl) as (tx' & Hin & Ht).
        exists tx'. split; [by right|done].
    + split; [|done]. intros _. exists tx. split; [by left|done].
Qed.

Lemma logsOfTransactions_In this filterParams txs : forall found log,
  logsOfTransactions filterLogs this filterParams txs = Returns found ->
  In log found
  <-> exists transaction receipt,
        In transaction txs
        /\ getTransactionReceipt this (transactionHashBuffer transaction) = Some receipt
        /\ In log (filterLogs (logs receipt) filterParams).
Proof.
  assert (mkFilterParams (fromBlock filterParams) (toBlock filterParams)
            (addresses filterParams) (normalizedTopics filterParams) = filterParams)
    as Heta by (by destruct filterParams).
  induction txs as [|tx rest IH]; intros found log; cbn [logsOfTransactions].
  - intros [= <-]. split; [done|]. by intros (? & ? & [] & _).
  - rewrite Heta.
    destruct (hashOfTransaction tx) as [h|] eqn:Hh; [|discriminate]. cbn [andThen].
    apply hashOfTransaction_Returns in Hh as ->.
    destruct (logsOfTransactions filterLogs this filterParams rest) as [more|];
      [|discriminate].
    cbn [andThen]. intros [= <-]. rewrite in_app_iff, (IH more log eq_refl).
    destruct (getTransactionReceipt this (transactionHashBuffer tx)) as [receipt|] eqn:Hr.
    + split.
      * intros [Hl|(tx' & r' & Hin & Hr' & Hl)].
        -- exists tx, receipt. split_and!; [by left|done..].
        -- exists tx', r'. split_and!; [by right|done..].
      * intros (tx' & r' & [<-|Hin] & Hr' & Hl).
        -- left. congruence.
        -- right. by exists tx', r'.
    + split.
      * intros [[]|(tx' & r' & Hin & Hr' & Hl)].
        exists tx', r'. split_and!; [by right|done..].
      * intros (tx' & r' & [<-|Hin] & Hr' & Hl); [congruence|].
        right. by exists tx', r'.
Qed.

(** One turn of the outer loop throws exactly in the cases of
    [throwsAt]. *)
Lemma logsOfBlockNumber_Throws this filterParams i :
  logsOfBlockNumber bloomFilter filterLogs this filterParams i = Throws
  <-> throwsAt bloomFilter this filterParams i.
Proof.
  unfold logsOfBlockNumber, throwsAt, getBlockByNumber, toNumber, newBloom.
  case_bool_decide as Hi; cbn [andThen].
  2:{ split; [|done]. intros _. left. lia. }
  destruct (_blocksByNumber this !! i) as [block|] eqn:Hblock.
  2:{ split; [discriminate|]. intros [?|(? & [=] & _)]. lia. }
  case_bool_decide as Hbloom; cbn [andThen].
  2:{ split; [|done]. intros _. right. exists block. split; [done|by left]. }
  destruct (bloomFilter _ _ _) eqn:Hpass; cbn [negb].
  - rewrite logsOfTransactions_Throws. split.
    + intros Htx. right. exists block. split; [done|]. by right.
    + intros [?|(? & [= <-] & [?|[_ Htx]])]; [lia|done|done].
  - split; [discriminate|].
    intros [?|(? & [= <-] & [?|[? _]])]; [lia|done|congruence].
Qed.

(** One turn of the outer loop that returns: the logs of the block
    stored under the number, if it passes the bloom filter. *)
Lemma logsOfBlockNumber_In this filterParams i found log :
  logsOfBlockNumber bloomFilter filterLogs this filterParams i = Returns found ->
  In log found
  <-> exists block,
        _blocksByNumber this !! i = Some block
        /\ bloomFilter (bloom (header block)) (addresses filterParams)
             (normalizedTopics filterParams) = true
        /\ logOfBlock filterLogs this filterParams block log.
Proof.
  unfold logsOfBlockNumber, getBlockByNumber, toNumber, newBloom.
  case_bool_decide as Hi; cbn [andThen]; [|discriminate].
  destruct (_blocksByNumber this !! i) as [block|] eqn:Hblock.
  2:{ intros [= <-]. split; [done|]. by intros (? & [=] & _). }
  case_bool_decide as Hbloom; cbn [andThen]; [|discriminate].
  destruct (bloomFilter _ _ _) eqn:Hpass; cbn [negb].
  - intros Hrun. rewrite (logsOfTransactions_In _ _ _ _ _ Hrun). split.
    + intros Hlog. by exists block.
    + by intros (? & [= <-] & _ & Hlog).
  - intros [= <-]. split; [done|]. intros (? & [= <-] & ? & _). congruence.
Qed.

Lemma getLogsFrom_Throws this filterParams steps : forall i,
  getLogsFrom bloomFilter filterLogs this filterParams i steps = Throws
  <-> exists j, (i <= j < i + Z.of_nat steps)%Z
                /\ throwsAt bloomFilter this filterParams j.
Proof.
  induction steps as [|steps IH]; intros i; cbn [getLogsFrom].
  - split; [discriminate|]. intros (j & ? & _). lia.
  - destruct (logsOfBlockNumber bloomFilter filterLogs this filterParams i)
      as [pushed|] eqn:Hturn; cbn [andThen].
    + assert (~ throwsAt bloomFilter this filterParams i) as Hi.
      { rewrite <- logsOfBlockNumber_Throws. congruence. }
      destruct (getLogsFrom bloomFilter filterLogs this filterParams (i + 1) steps)
        as [more|] eqn:Hrest; cbn [andThen].
      * split; [discriminate|]. intros (j & Hj & Hthrows).
        destruct (decide (j = i)) as [->|Hne]; [done|].
        assert (@Returns (list RpcLogOutput) more = Throws) as H; [|discriminate].
        rewrite <- Hrest. apply IH. exists j. split; [lia|done].
      * split; [|done]. intros _.
        destruct (proj1 (IH (i + 1)%Z) Hrest) as (j & Hj & Hthrows).
        exists j. split; [lia|done].
    + split; [|done]. intros _. exists i. split; [lia|].
      by apply logsOfBlockNumber_Throws.
Qed.

Lemma getLogsFrom_run this filterParams steps : forall i found log,
  getLogsFrom bloomFilter filterLogs this filterParams i steps = Returns found ->
  In log found
  <-> exists j block,
        (i <= j < i + Z.of_nat steps)%Z
        /\ _blocksByNumber this !! j = Some block
        /\ bloomFilter (bloom (header block)) (addresses filterParams)
             (normalizedTopics filterParams) = true
        /\ logOfBlock filterLogs this filterParams block log.
Proof.
  induction steps as [|steps IH]; intros i found log; cbn [getLogsFrom].
  - intros [= <-]. split; [done|]. intros (j & ? & ? & _). lia.
  - destruct (logsOfBlockNumber bloomFilter filterLogs this filterParams i)
      as [pushed|] eqn:Hturn; cbn [andThen]; [|discriminate].
    destruct (getLogsFrom bloomFilter filterLogs this filterParams (i + 1) steps)
      as [more|] eqn:Hrest; cbn [andThen]; [|discriminate].
    intros [= <-].
    rewrite in_app_iff, (logsOfBlockNumber_In _ _ _ _ _ Hturn),
      (IH _ _ _ Hrest).
    split.
    + intros [(block & Hb & Hp & Hl)|(j & block & Hj & Hb & Hp & Hl)].
      * exists i, block. split_and!; first [lia|done].
      * exists j, block. split_and!; first [lia|done].
    + intros (j & block & Hj & Hb & Hp & Hl).
      destruct (decide (j = i)) as [->|Hne].
      * left. by exists block.
      * right. exists j, block. split_and!; first [lia|done].
Qed.

(** X26. The logs that getLogs returns are the logs that filterLogs
    keeps of the receipts stored for the transactions of the blocks
    stored under the numbers from fromBlock to toBlock whose bloom
    passes bloomFilter: a number without a block, a block whose bloom
    does not pass and a transaction without a receipt give no logs. *)
Theorem get_logs_returns_the_logs_of_the_blocks_in_range this filterParams found :
  getLogs bloomFilter filterLogs this filterParams = Returns found ->
  forall log,
    In log found
    <-> exists blockNumber block,
          (fromBlock filterParams <= blockNumber <= toBlock filterParams)%Z
          /\ _blocksByNumber this !! blockNumber = Some block
          /\ bloomFilter (bloom (header block)) (addresses filterParams)
               (normalizedTopics filterParams) = true
          /\ logOfBlock filterLogs this filterParams block log.
Proof.
  unfold getLogs. intros Hfound log.
  rewrite (getLogsFrom_run _ _ _ _ _ log Hfound). clear Hfound.
  split; intros (j & block & Hj & Hb & Hpass & Hl); exists j, block;
    (split_and!; first [lia | done]).
Qed.

(** X27. Where the store throws, and what it has written by then.
    getBlockByNumber throws exactly for a number beyond 53 bits;
    addBlock and removeBlock exactly when the number of the block is
    beyond 53 bits or one of its transactions has no hash.  A throw at
    the number leaves the store as it was.  A throw at a transaction
    comes after the block has been written: after addBlock the block is
    found under its number and hash with its total difficulty, after
    removeBlock nothing is found there, whether or not the call threw.
    getLogs throws exactly when a number from fromBlock to toBlock is
    beyond 53 bits, or holds a block whose bloom is not 256 bytes long,
    or holds a block that passes the bloom filter and has a transaction
    without a hash; with fromBlock above toBlock, it returns no logs. *)
Theorem store_throws_at_numbers_blooms_and_hashes this block totalDifficulty
    filterParams :
  (forall blockNumber,
      getBlockByNumber this blockNumber = Throws <-> beyond53Bits blockNumber)
  /\ (addBlock this block totalDifficulty = Throws
      <-> beyond53Bits (number (header block))
          \/ exists transaction,
               In transaction (transactions block)
               /\ hashOfTransaction transaction = Throws)
  /\ (removeBlock this block = Throws
      <-> beyond53Bits (number (header block))
          \/ exists transaction,
               In transaction (transactions block)
               /\ hashOfTransaction transaction = Throws)
  /\ (beyond53Bits (number (header block)) ->
      (addBlockRun this block totalDifficulty).1 = this
      /\ (removeBlockRun this block).1 = this)
  /\ (~ beyond53Bits (number (header block)) ->
      getBlockByNumber (addBlockRun this block totalDifficulty).1
        (number (header block)) = Returns (Some block)
      /\ getBlockByHash (addBlockRun this block totalDifficulty).1 (hash block)
         = Some block
      /\ getTotalDifficulty (addBlockRun this block totalDifficulty).1 (hash block)
         = Some totalDifficulty
      /\ getBlockByNumber (removeBlockRun this block).1 (number (header block))
         = Returns None
      /\ getBlockByHash (removeBlockRun this block).1 (hash block) = None
      /\ getTotalDifficulty (removeBlockRun this block).1 (hash block) = None)
  /\ (getLogs bloomFilter filterLogs this filterParams = Throws
      <-> exists blockNumber,
            (fromBlock filterParams <= blockNumber <= toBlock filterParams)%Z
            /\ throwsAt bloomFilter this filterParams blockNumber)
  /\ ((toBlock filterParams < fromBlock filterParams)%Z ->
      getLogs bloomFilter filterLogs this filterParams = Returns []).
Proof.
  split_and!.
  - intros blockNumber. rewrite <- toNumber_Throws. unfold getBlockByNumber.
    by destruct (toNumber blockNumber).
  - rewrite <- toNumber_Throws, <- (addTransactionsOf_result block _
      (_transactions this, _blocksByTransactions this)).
    unfold addBlock, addBlockRun.
    destruct (toNumber (number (header block))) as [n|]; [|by split; [left|]].
    destruct (addTransactionsOf _ _ _) as [maps [[]|]]; cbn [snd].
    + split; [discriminate|]. by intros [|].
    + split; [by right|done].
  - rewrite <- toNumber_Throws, <- (removeTransactionsOf_result _
      (_transactions this, _transactionReceipts this, _blocksByTransactions this)).
    unfold removeBlock, removeBlockRun.
    destruct (toNumber (number (header block))) as [n|]; [|by split; [left|]].
    destruct (removeTransactionsOf _ _) as [[[m1 m2] m3] [[]|]]; cbn [snd].
    + split; [discriminate|]. by intros [|].
    + split; [by right|done].
  - intros Hbig%toNumber_Throws. unfold addBlockRun, removeBlockRun.
    by rewrite Hbig.
  - intros Hfits.
    assert (toNumber (number (header block)) = Returns (number (header block)))
      as Hn.
    { unfold toNumber, beyond53Bits in *. case_bool_decide; [done|lia]. }
    unfold addBlockRun, removeBlockRun, getBlockByNumber, getBlockByHash,
      getTotalDifficulty.
    rewrite Hn.
    destruct (addTransactionsOf _ _ _) as [maps ?].
    destruct (removeTransactionsOf _ _) as [[[m1 m2] m3] ?].
    cbn [fst _blocksByNumber _blocksByHash _totalDifficulty].
    by rewrite !lookup_insert_eq, !lookup_delete_eq.
  - unfold getLogs. rewrite getLogsFrom_Throws.
    split; intros (j & Hj & Hthrows); exists j; (split; [lia|done]).
  - intros Hempty. unfold getLogs.
    by replace (Z.to_nat (toBlock filterParams - fromBlock filterParams + 1)) with 0
      by lia.
Qed.

End GetLogsProperties.

(** A receipt stored for the first transaction of the sample block: its
    log is returned for the range from 0 to 5. *)
Lemma get_logs_returns_the_logs_of_the_blocks_in_range_witness :
  exists this' found,
    addBlock (addTransactionReceipt new BlockchainSamples.receipt1)
      BlockchainSamples.block1 100 = Returns this'
    /\ length (bloom (header BlockchainSamples.block1)) = 256
    /\ getLogs BlockchainSamples.passAll BlockchainSamples.keepAll this'
         (mkFilterParams 0 5 [] []) = Returns found
    /\ In (mkLog "0xdead" ["Transfer"] "1") found.
Proof.
  destruct (addBlock (addTransactionReceipt new BlockchainSamples.receipt1)
              BlockchainSamples.block1 100) as [this'|] eqn:Hadd;
    [|vm_compute in Hadd; discriminate].
  destruct (getLogs BlockchainSamples.passAll BlockchainSamples.keepAll this'
              (mkFilterParams 0 5 [] [])) as [found|] eqn:Hlogs;
    [|injection Hadd as <-; vm_compute in Hlogs; discriminate].
  exists this', found. split_and!; [reflexivity|reflexivity|exact Hlogs|].
  apply (get_logs_returns_the_logs_of_the_blocks_in_range BlockchainSamples.passAll
           BlockchainSamples.keepAll this' (mkFilterParams 0 5 [] []) found Hlogs).
  injection Hadd as <-.
  exists 1%Z, BlockchainSamples.block1.
  split_and!; [cbn; lia|cbn; lia|vm_compute; reflexivity|reflexivity|].
  exists BlockchainSamples.tx1, BlockchainSamples.receipt1.
  split_and!; [by left|reflexivity|by left].
Defined.

(** A block whose second transaction is not signed: addBlock throws, and
    by then the block and its first transaction are in the store, its
    second transaction is not; removeBlock throws on it as well. *)
Example add_block_throws_after_writing :
  addBlock new BlockchainSamples.block2 100 = Throws
  /\ removeBlock new BlockchainSamples.block2 = Throws
  /\ getBlockByNumber (addBlockRun new BlockchainSamples.block2 100).1 2
     = Returns (Some BlockchainSamples.block2)
  /\ getTransaction (addBlockRun new BlockchainSamples.block2 100).1 [Byte.xa1]
     = Some BlockchainSamples.tx1
  /\ _transactions (addBlockRun new BlockchainSamples.block2 100).1
     = {[ bufferToHex [Byte.xa1] := BlockchainSamples.tx1 ]}.
Proof. split_and!; by vm_compute. Qed.

(** A stored block whose bloom is one byte long: getLogs throws on a
    range that holds its number, and returns on a range that does not. *)
Example get_logs_throws_at_a_short_bloom :
  (addBlockRun new BlockchainSamples.block3 100).2 = Returns tt
  /\ getLogs BlockchainSamples.passAll BlockchainSamples.keepAll
       (addBlockRun new BlockchainSamples.block3 100).1 (mkFilterParams 0 5 [] [])
     = Throws
  /\ getLogs BlockchainSamples.passAll BlockchainSamples.keepAll
       (addBlockRun new BlockchainSamples.block3 100).1 (mkFilterParams 0 2 [] [])
     = Returns [].
Proof. split_and!; by vm_compute. Qed.

End BlockchainDataProperties.
